(** * Contacts module of the chat application: handlers, store and dialog

    A shallow embedding of the HTTP handlers under [app/api/contacts],
    the group-membership handlers, the relational tables declared by the
    migrations, and the save action of the group-management dialog.

    The handlers are stateless: every one of them reads the session,
    issues statements against the managed database and maps the outcome
    to a JSON response.  The database is modelled as a record of tables
    threaded through a state monad; each awaited Supabase query is one
    statement of that monad and leaves an entry in a journal. *)

From Stdlib Require Import List Bool Arith NArith Lia.
From Stdlib Require Import Ascii String DecimalString.
From Stdlib Require Import Permutation Sorted.
Import ListNotations.

Set Implicit Arguments.

(** ** Text: characters, case folding, trimming, containment *)

Module Text.

Definition chars (s : string) : list ascii := list_ascii_of_string s.

Definition text (l : list ascii) : string := string_of_list_ascii l.

(** ASCII case folding, as [lower()] does on both sides of an ILIKE and
    as [toLowerCase()] does in the browser. *)
Definition lower_char (c : ascii) : ascii :=
  let n := N_of_ascii c in
  if (65 <=? n)%N && (n <=? 90)%N then ascii_of_N (n + 32) else c.

Definition lower (l : list ascii) : list ascii := map lower_char l.

(** White space removed by [String.prototype.trim]: TAB, LF, VT, FF, CR
    and SPACE. *)
Definition is_space (c : ascii) : bool :=
  let n := N_of_ascii c in
  ((9 <=? n)%N && (n <=? 13)%N) || (n =? 32)%N.

Fixpoint trim_start (l : list ascii) : list ascii :=
  match l with
  | c :: l' => if is_space c then trim_start l' else l
  | [] => []
  end.

Definition trim_chars (l : list ascii) : list ascii :=
  rev (trim_start (rev (trim_start l))).

Definition trim (s : string) : string := text (trim_chars (chars s)).

Definition char_in (c : ascii) (set : list ascii) : bool :=
  existsb (Ascii.eqb c) set.

(** [prefixb p s]: [s] starts with [p]. *)
Fixpoint prefixb (p s : list ascii) : bool :=
  match p, s with
  | [], _ => true
  | _ :: _, [] => false
  | a :: p', b :: s' => Ascii.eqb a b && prefixb p' s'
  end.

(** [includes s p]: [String.prototype.includes], substring containment. *)
Fixpoint includes (s p : list ascii) : bool :=
  prefixb p s ||
  match s with
  | [] => false
  | _ :: s' => includes s' p
  end.

(** Containment as a proposition: [p] occurs inside [s]. *)
Definition substring_of (p s : list ascii) : Prop :=
  exists before after, s = before ++ p ++ after.

(** Case-insensitive substring containment on strings. *)
Definition contains_ci (needle hay : string) : bool :=
  includes (lower (chars hay)) (lower (chars needle)).

End Text.

(** ** JavaScript values reaching the handlers *)

Module Js.

(** The values a parsed JSON body can hold in one of its fields.
    [Undefined] is an absent field.  Tag arrays are arrays of strings
    (the column is TEXT[]); [Obj] stands for any nested object. *)
Inductive value : Type :=
| Undefined
| Null
| Bool (b : bool)
| Num (n : N)
| Str (s : string)
| Arr (items : list string)
| Obj.

(** Truthiness: [!v] is [negb (truthy v)]. *)
Definition truthy (v : value) : bool :=
  match v with
  | Undefined | Null => false
  | Bool b => b
  | Num n => negb (n =? 0)%N
  | Str s => negb (s =? "")%string
  | Arr _ | Obj => true
  end.

Definition isArray (v : value) : bool :=
  match v with Arr _ => true | _ => false end.

(** Outcome of evaluating an expression that may throw. *)
Inductive completion (A : Type) : Type :=
| Normal (a : A)
| Throw (what : string).
Arguments Normal {A} a.
Arguments Throw {A} what.

(** [v.trim()]: defined on strings; on any other value the property
    lookup yields no function (or the receiver is nullish) and the call
    throws a TypeError. *)
Definition call_trim (v : value) : completion string :=
  match v with
  | Str s => Normal (Text.trim s)
  | _ => Throw "TypeError"
  end.

(** [v?.trim() || null]: nullish receivers short-circuit to
    [undefined], and an empty result falls through [||] to [null]. *)
Definition trim_or_null (v : value) : completion (option string) :=
  match v with
  | Undefined | Null => Normal None
  | Str s =>
      let t := Text.trim s in
      Normal (if (t =? "")%string then None else Some t)
  | _ => Throw "TypeError"
  end.

(** [tags && Array.isArray(tags) ? tags : null]. *)
Definition array_or_null (v : value) : option (list string) :=
  if truthy v && isArray v
  then match v with Arr items => Some items | _ => None end
  else None.

(** A parsed JSON object: its fields in order.  Destructuring reads the
    named fields and ignores every other one. *)
Definition object : Type := list (string * value).

Definition field (o : object) (name : string) : value :=
  match find (fun kv => (fst kv =? name)%string) o with
  | Some kv => snd kv
  | None => Undefined
  end.

Definition and_then {A B} (c : completion A) (k : A -> completion B)
  : completion B :=
  match c with
  | Normal a => k a
  | Throw what => Throw what
  end.

(** URL search parameters: [searchParams.get] yields a string or
    null.  [searchParams.get(name) || ""]: *)
Definition param_or_empty (p : option string) : string :=
  match p with
  | Some s => if (s =? "")%string then ""%string else s
  | None => ""%string
  end.

End Js.

(** ** The managed database: tables, constraints, policies, statements *)

Module Pg.

Definition uuid := N.
Definition timestamptz := N.

Bind Scope N_scope with uuid timestamptz.

(** Table [contacts] of the contacts migration. *)
Record contact : Type := mkContact {
  id : uuid;
  owner_id : uuid;
  phone_number : string;
  custom_name : string;
  whatsapp_name : option string;
  email : option string;
  company : option string;
  position : option string;
  address : option string;
  notes : option string;
  tags : option (list string);
  last_active : option timestamptz;
  created_at : timestamptz;
  updated_at : timestamptz
}.

(** Table [chat_groups], declared outside this module; the columns the
    handlers and the counting function read. *)
Record chat_group : Type := mkChatGroup {
  cg_id : uuid;
  cg_owner_id : uuid;
  cg_name : string;
  cg_description : option string
}.

(** Junction table [contact_groups]. *)
Record contact_group : Type := mkContactGroup {
  m_id : uuid;
  m_contact_id : uuid;
  m_group_id : uuid;
  m_added_at : timestamptz;
  m_added_by : option uuid
}.

(** Table [group_members], written by the membership handlers.  Its
    declaration is not part of the migrations at hand; rows carry the
    two columns the handlers set. *)
Record group_member : Type := mkGroupMember {
  gm_group_id : uuid;
  gm_user_id : string
}.

Inductive table : Type := Contacts | ChatGroups | ContactGroups | GroupMembers.

Inductive verb : Type := SELECT | INSERT | UPDATE | DELETE.

(** The database: its four tables, whether [group_members] declares a
    unique (group_id, user_id) constraint, and the journal of the
    statements executed so far (latest first). *)
Record database : Type := mkDatabase {
  contacts : list contact;
  chat_groups : list chat_group;
  contact_groups : list contact_group;
  group_members : list group_member;
  group_members_unique : bool;
  journal : list (verb * table)
}.

Definition record (v : verb) (t : table) (d : database) : database :=
  mkDatabase (contacts d) (chat_groups d) (contact_groups d)
    (group_members d) (group_members_unique d) ((v, t) :: journal d).

Definition with_contacts (rows : list contact) (d : database) : database :=
  mkDatabase rows (chat_groups d) (contact_groups d)
    (group_members d) (group_members_unique d) (journal d).

Definition with_contact_groups (rows : list contact_group) (d : database)
  : database :=
  mkDatabase (contacts d) (chat_groups d) rows
    (group_members d) (group_members_unique d) (journal d).

Definition with_group_members (rows : list group_member) (d : database)
  : database :=
  mkDatabase (contacts d) (chat_groups d) (contact_groups d)
    rows (group_members_unique d) (journal d).

(** Errors surfaced by the client: an SQLSTATE or a PostgREST code. *)
Record error : Type := mkError { code : string; message : string }.

Definition unique_violation : error :=
  mkError "23505" "duplicate key value violates unique constraint".

Definition no_single_row : error :=
  mkError "PGRST116" "JSON object requested, multiple (or no) rows returned".

Definition filter_parse_error : error :=
  mkError "PGRST100" "failed to parse logic tree".

Definition bad_escape : error :=
  mkError "22025" "LIKE pattern must not end with escape character".

Inductive result (A : Type) : Type :=
| Ok (data : A)
| Err (e : error).
Arguments Ok {A} data.
Arguments Err {A} e.

(** [const { data } = await ...]: [data] is null when the query failed. *)
Definition data_of {A} (r : result A) : option A :=
  match r with Ok a => Some a | Err _ => None end.

(** Statements run in a state monad over the database. *)
Definition Db (A : Type) : Type := database -> A * database.

Definition ret {A} (a : A) : Db A := fun d => (a, d).

Definition bind {A B} (m : Db A) (k : A -> Db B) : Db B :=
  fun d => let (a, d') := m d in k a d'.

(** [.single()]: exactly one row, else PGRST116. *)
Definition single {A} (rows : list A) : result A :=
  match rows with
  | [r] => Ok r
  | _ => Err no_single_row
  end.

(** *** Row-level security and ordering on [contacts] *)

(** Policy "Users can view their own contacts" (and its UPDATE and
    DELETE twins): [auth.uid() = owner_id]. *)
Definition own (uid : uuid) (c : contact) : bool := (owner_id c =? uid)%N.

Definition visible (uid : uuid) (rows : list contact) : list contact :=
  filter (own uid) rows.

(** [ORDER BY custom_name ASC NULLS LAST]; the column is NOT NULL, so
    no null is ever ordered.  Names are compared character by
    character, as under the C collation; rows with equal names keep
    their order. *)
Fixpoint insert_by_name (c : contact) (l : list contact) : list contact :=
  match l with
  | [] => [c]
  | d :: l' =>
      if (custom_name c <=? custom_name d)%string
      then c :: l
      else d :: insert_by_name c l'
  end.

Definition order_by_custom_name (l : list contact) : list contact :=
  fold_right insert_by_name [] l.

(** [gen_random_uuid()]: an identifier not yet used by the table. *)
Definition gen_random_uuid (rows : list contact) : uuid :=
  N.succ (fold_right N.max 0%N (map id rows)).

(** *** LIKE patterns *)

Inductive like_token : Type :=
| AnyString            (* % *)
| AnyChar              (* _ *)
| Literal (c : ascii).

(** Pattern syntax: [%], [_], and backslash escaping the next
    character; a trailing lone backslash is an error. *)
Fixpoint like_parse (p : list ascii) : option (list like_token) :=
  match p with
  | [] => Some []
  | c :: p' =>
      if Ascii.eqb c "%" then option_map (cons AnyString) (like_parse p')
      else if Ascii.eqb c "_" then option_map (cons AnyChar) (like_parse p')
      else if Ascii.eqb c "\" then
        match p' with
        | [] => None
        | e :: p'' => option_map (cons (Literal e)) (like_parse p'')
        end
      else option_map (cons (Literal c)) (like_parse p')
  end.

(** [like_match p s]: the whole of [s] matches the pattern [p]. *)
Fixpoint like_match (p : list like_token) (s : list ascii) : bool :=
  match p with
  | [] => match s with [] => true | _ :: _ => false end
  | AnyString :: p' =>
      (fix skip (s : list ascii) : bool :=
         like_match p' s ||
         match s with
         | [] => false
         | _ :: s' => skip s'
         end) s
  | AnyChar :: p' =>
      match s with
      | [] => false
      | _ :: s' => like_match p' s'
      end
  | Literal c :: p' =>
      match s with
      | [] => false
      | d :: s' => Ascii.eqb c d && like_match p' s'
      end
  end.

Definition fold_token (t : like_token) : like_token :=
  match t with
  | Literal c => Literal (Text.lower_char c)
  | other => other
  end.

(** [text ILIKE pattern]: LIKE after case folding of both sides. *)
Definition ilike (pattern : list like_token) (s : string) : bool :=
  like_match (map fold_token pattern) (Text.lower (Text.chars s)).

(** *** Text read as a uuid *)

(** What a request offers where a uuid column is compared (the [id]
    segment of a path, handed as it is to [.eq("id", ...)]): text that
    the database reads as a uuid, or text that the column's type
    refuses. *)
Inductive uuid_text : Type :=
| Uuid (u : uuid)
| NotUuid.

Definition invalid_uuid : error :=
  mkError "22P02" "invalid input syntax for type uuid".

(** *** Array literals *)

Definition malformed_array : error :=
  mkError "22P02" "malformed array literal".

(** Where the reader of an array literal stands. *)
Inductive array_state : Type :=
| NoLevel              (* before the first brace *)
| LevelStarted         (* after an opening brace *)
| ElemStarted          (* inside an element written without quotes *)
| QuotedStarted        (* inside double quotes *)
| QuotedCompleted      (* after the closing quote *)
| ElemDelimited        (* after the comma that ends an element *)
| LevelCompleted       (* after a closing brace *)
| LevelDelimited       (* after the comma that follows a closing brace *)
| ArrayCompleted.      (* after the outermost closing brace *)

(** The reader: the element being read (latest character first, and
    the same without its trailing white space), the elements read so
    far (latest first), the level at which elements were found, and per
    level the length of the sub-array being read and of the sub-arrays
    closed before it (0: none yet). *)
Record array_reader : Type := mkReader {
  at_state : array_state;
  escaped : bool;
  nest_level : nat;
  item : list ascii;
  item_end : list ascii;
  leading : bool;
  has_quoting : bool;
  elements : list (option string);
  elem_level : option nat;
  counts : list nat;
  closed : list nat
}.

Definition max_dim : nat := 6.

Definition start_reader : array_reader :=
  mkReader NoLevel false 0 [] [] true false [] None
    (repeat 1 max_dim) (repeat 0 max_dim).

Fixpoint set_nth (n v : nat) (l : list nat) : list nat :=
  match l, n with
  | [], _ => []
  | _ :: l', 0 => v :: l'
  | x :: l', S n' => x :: set_nth n' v l'
  end.

Definition set_state (s : array_state) (r : array_reader) : array_reader :=
  mkReader s (escaped r) (nest_level r) (item r) (item_end r) (leading r)
    (has_quoting r) (elements r) (elem_level r) (counts r) (closed r).

(** A backslash: the next character is data. *)
Definition escape (r : array_reader) : array_reader :=
  mkReader (at_state r) true (nest_level r) (item r) (item_end r) (leading r)
    (has_quoting r) (elements r) (elem_level r) (counts r) (closed r).

(** A character that counts: it is kept, and so is the white space
    read before it. *)
Definition keep (c : ascii) (quoting : bool) (r : array_reader) : array_reader :=
  mkReader (at_state r) false (nest_level r) (c :: item r) (c :: item r) false
    (has_quoting r || quoting) (elements r) (elem_level r) (counts r) (closed r).

(** A character between quotes, or white space after the start of an
    element: kept for now. *)
Definition copy (c : ascii) (r : array_reader) : array_reader :=
  mkReader (at_state r) false (nest_level r) (c :: item r) (item_end r)
    (leading r) (has_quoting r) (elements r) (elem_level r) (counts r)
    (closed r).

Definition keep_space (c : ascii) (r : array_reader) : array_reader :=
  if leading r then r else copy c r.

Definition open_quote (r : array_reader) : array_reader :=
  mkReader QuotedStarted false (nest_level r) (item r) (item_end r) false true
    (elements r) (elem_level r) (counts r) (closed r).

Definition close_quote (r : array_reader) : array_reader :=
  mkReader QuotedCompleted false (nest_level r) (item r) (item r) (leading r)
    true (elements r) (elem_level r) (counts r) (closed r).

Definition open_level (r : array_reader) : option array_reader :=
  if nest_level r <? max_dim
  then Some (mkReader LevelStarted false (S (nest_level r)) (item r) (item_end r)
               (leading r) (has_quoting r) (elements r) (elem_level r)
               (counts r) (closed r))
  else None.

(** The word NULL, in any case, written without quotes or escapes. *)
Definition null_word (l : list ascii) : bool :=
  (Text.text (Text.lower l) =? "null")%string.

(** An element ends: its text is what was kept, without the white
    space around it; all elements sit at one level. *)
Definition finish_item (r : array_reader) : option array_reader :=
  let value := rev (item_end r) in
  let element :=
    if negb (has_quoting r) && null_word value then None
    else Some (Text.text value) in
  if match elem_level r with
     | Some l => l =? nest_level r
     | None => true
     end
  then Some (mkReader (at_state r) false (nest_level r) [] [] true false
               (element :: elements r) (Some (nest_level r))
               (counts r) (closed r))
  else None.

(** One more element or sub-array follows in the open sub-array. *)
Definition count_item (s : array_state) (r : array_reader) : array_reader :=
  let level := pred (nest_level r) in
  mkReader s false (nest_level r) (item r) (item_end r) (leading r)
    (has_quoting r) (elements r) (elem_level r)
    (set_nth level (S (nth level (counts r) 0)) (counts r)) (closed r).

(** A sub-array ends: it must be as long as the sub-arrays closed
    before it at its level. *)
Definition close_level (r : array_reader) : option array_reader :=
  match nest_level r with
  | 0 => None
  | S level =>
      let len := nth level (counts r) 0 in
      let last := nth level (closed r) 0 in
      if negb (last =? 0) && negb (len =? last) then None
      else
        Some (mkReader (if level =? 0 then ArrayCompleted else LevelCompleted)
                false level (item r) (item_end r) (leading r) (has_quoting r)
                (elements r) (elem_level r)
                (set_nth level 1 (counts r)) (set_nth level len (closed r)))
  end.

Definition and_close (r : option array_reader) : option array_reader :=
  match r with
  | Some r' => close_level r'
  | None => None
  end.

(** One character of the literal; [None] is a syntax error. *)
Definition array_step (c : ascii) (r : array_reader) : option array_reader :=
  if escaped r then Some (keep c true r)
  else
    match at_state r with
    | QuotedStarted =>
        if Ascii.eqb c "\" then Some (escape r)
        else if Ascii.eqb c "034" then Some (close_quote r)
        else Some (copy c r)
    | ArrayCompleted => if Text.is_space c then Some r else None
    | NoLevel =>
        if Text.is_space c then Some r
        else if Ascii.eqb c "{" then open_level r
        else None
    | st =>
        if Ascii.eqb c "\" then
          match st with
          | LevelStarted | ElemStarted | ElemDelimited =>
              Some (escape (set_state ElemStarted r))
          | _ => None
          end
        else if Ascii.eqb c "034" then
          match st with
          | LevelStarted | ElemDelimited => Some (open_quote r)
          | _ => None
          end
        else if Ascii.eqb c "{" then
          match st with
          | LevelStarted | LevelDelimited => open_level r
          | _ => None
          end
        else if Ascii.eqb c "}" then
          match st with
          | ElemStarted | QuotedCompleted => and_close (finish_item r)
          | LevelCompleted => close_level r
          | LevelStarted => if nest_level r =? 1 then close_level r else None
          | _ => None
          end
        else if Ascii.eqb c "," then
          match st with
          | ElemStarted | QuotedCompleted =>
              option_map (count_item ElemDelimited) (finish_item r)
          | LevelCompleted => Some (count_item LevelDelimited r)
          | _ => None
          end
        else if Text.is_space c then Some (keep_space c r)
        else
          match st with
          | LevelStarted | ElemStarted | ElemDelimited =>
              Some (keep c false (set_state ElemStarted r))
          | _ => None
          end
    end.

Fixpoint array_read (l : list ascii) (r : array_reader) : option array_reader :=
  match l with
  | [] => Some r
  | c :: l' =>
      match array_step c r with
      | Some r' => array_read l' r'
      | None => None
      end
  end.

(** [array_in] for a text array, following the input syntax of the
    manual: elements between braces, separated by commas; an element is
    written between double quotes or without, a backslash protects the
    next character; white space around an element is dropped; the
    unquoted word NULL is a null; sub-arrays have matching dimensions.
    The elements are returned in reading order, whatever the
    dimensions.  Explicit bounds ([[1:2]=...]) are not read here: the
    literals built by the client start with the brace. *)
Definition array_in (s : string) : result (list (option string)) :=
  match array_read (Text.chars s) start_reader with
  | Some r =>
      match at_state r with
      | ArrayCompleted => Ok (rev (elements r))
      | _ => Err malformed_array
      end
  | None => Err malformed_array
  end.

End Pg.

(** ** The Supabase client: query builders and the statements they run *)

Module Supabase.

Import Pg.

Notation "x <- m ;; k" := (bind m (fun x => k))
  (at level 61, m at next level, right associativity).

(** *** Filters on [contacts] *)

(** The text columns the search filter names. *)
Inductive text_column : Type :=
| col_custom_name
| col_whatsapp_name
| col_phone_number
| col_email
| col_company.

Definition column_value (col : text_column) (c : contact) : option string :=
  match col with
  | col_custom_name => Some (custom_name c)
  | col_whatsapp_name => whatsapp_name c
  | col_phone_number => Some (phone_number c)
  | col_email => email c
  | col_company => company c
  end.

(** A query under construction: the filters added so far.  [or_ilike]
    holds the items [column.ilike.value] of an [.or(...)] filter. *)
Record filters : Type := mkFilters {
  eq_id : option uuid_text;
  eq_owner_id : option uuid;
  or_ilike : option (list (text_column * string));
  contains_tags : option (list string)
}.

Definition from_contacts : filters := mkFilters None None None None.

Definition eq_id_ (v : uuid_text) (q : filters) : filters :=
  mkFilters (Some v) (eq_owner_id q) (or_ilike q) (contains_tags q).

Definition eq_owner_id_ (v : uuid) (q : filters) : filters :=
  mkFilters (eq_id q) (Some v) (or_ilike q) (contains_tags q).

Definition or_ (items : list (text_column * string)) (q : filters) : filters :=
  mkFilters (eq_id q) (eq_owner_id q) (Some items) (contains_tags q).

Definition contains_tags_ (wanted : list string) (q : filters) : filters :=
  mkFilters (eq_id q) (eq_owner_id q) (or_ilike q) (Some wanted).

(** In the textual form of an [or] filter an unquoted value ends at the
    first comma or closing parenthesis, so a value holding one of them
    leaves a remainder that is no filter: the request is refused. *)
Definition ends_value (c : ascii) : bool :=
  Ascii.eqb c "," || Ascii.eqb c ")".

(** For like and ilike the API reads [*] as [%]. *)
Definition star_to_percent (c : ascii) : ascii :=
  if Ascii.eqb c "*" then "%"%char else c.

Definition ilike_pattern (value : string) : result (list like_token) :=
  let v := Text.chars value in
  if existsb ends_value v then Err filter_parse_error
  else match like_parse (map star_to_percent v) with
       | Some p => Ok p
       | None => Err bad_escape
       end.

Fixpoint or_patterns (items : list (text_column * string))
  : result (list (text_column * list like_token)) :=
  match items with
  | [] => Ok []
  | (col, value) :: rest =>
      match ilike_pattern value with
      | Err e => Err e
      | Ok p =>
          match or_patterns rest with
          | Err e => Err e
          | Ok ps => Ok ((col, p) :: ps)
          end
      end
  end.

(** A NULL column is neither like nor unlike anything: the disjunct is
    unknown and does not select the row. *)
Definition item_holds (c : contact) (item : text_column * list like_token)
  : bool :=
  match column_value (fst item) c with
  | Some s => ilike (snd item) s
  | None => false
  end.

Definition or_holds (ps : list (text_column * list like_token)) (c : contact)
  : bool :=
  existsb (item_holds c) ps.

(** [.contains("tags", value)] with an array: the client sends
    [cs.{...}], the items joined by commas between braces, without
    quoting them. *)
Definition cs_literal (value : list string) : string :=
  ("{" ++ String.concat "," value ++ "}")%string.

(** [tags @> wanted]: every wanted element is among the row's tags.  A
    null is equal to nothing, so a wanted null is never found; a NULL
    column contains nothing. *)
Definition tags_contain (wanted : list (option string)) (c : contact) : bool :=
  match tags c with
  | Some ts =>
      forallb (fun w => match w with
                        | Some s => existsb (String.eqb s) ts
                        | None => false
                        end) wanted
  | None => false
  end.

(** The filter on [tags]: the database reads the literal as a text
    array, or refuses it. *)
Definition tags_filter (want : option (list string)) : result (contact -> bool) :=
  match want with
  | Some value =>
      match array_in (cs_literal value) with
      | Ok wanted => Ok (tags_contain wanted)
      | Err e => Err e
      end
  | None => Ok (fun _ => true)
  end.

(** The filter on [id]: the text is compared as a uuid. *)
Definition id_filter (want : option uuid_text) : result (uuid -> bool) :=
  match want with
  | Some (Uuid v) => Ok (fun have => (have =? v)%N)
  | Some NotUuid => Err invalid_uuid
  | None => Ok (fun _ => true)
  end.

Definition opt_eq (want : option uuid) (have : uuid) : bool :=
  match want with
  | Some v => (have =? v)%N
  | None => true
  end.

Definition text_filter (want : option (list (text_column * string)))
  : result (contact -> bool) :=
  match want with
  | Some items =>
      match or_patterns items with
      | Ok ps => Ok (or_holds ps)
      | Err e => Err e
      end
  | None => Ok (fun _ => true)
  end.

(** The WHERE clause of a query, or the error that refuses it: the API
    parses the filters, then the database reads their values. *)
Definition where_clause (q : filters) : result (contact -> bool) :=
  match text_filter (or_ilike q) with
  | Err e => Err e
  | Ok text_ok =>
      match id_filter (eq_id q) with
      | Err e => Err e
      | Ok id_ok =>
          match tags_filter (contains_tags q) with
          | Err e => Err e
          | Ok tags_ok =>
              Ok (fun c =>
                    id_ok (id c) && opt_eq (eq_owner_id q) (owner_id c)
                    && text_ok c && tags_ok c)
          end
      end
  end.

(** *** Statements on [contacts] *)

(** [await query.order("custom_name", {ascending: true, nullsFirst: false})] *)
Definition order (uid : uuid) (q : filters) : Db (result (list contact)) :=
  fun d =>
    let d1 := record SELECT Contacts d in
    match where_clause q with
    | Err e => (Err e, d1)
    | Ok p => (Ok (order_by_custom_name (filter p (visible uid (contacts d)))), d1)
    end.

(** [await query.single()] on a select. *)
Definition select_single (uid : uuid) (q : filters) : Db (result contact) :=
  fun d =>
    let d1 := record SELECT Contacts d in
    match where_clause q with
    | Err e => (Err e, d1)
    | Ok p => (single (filter p (visible uid (contacts d))), d1)
    end.

(** The columns an insert supplies; [id], [owner_id], [created_at] and
    [updated_at] take their declared defaults. *)
Record insert_payload : Type := mkInsert {
  ins_phone_number : string;
  ins_custom_name : string;
  ins_whatsapp_name : option string;
  ins_email : option string;
  ins_company : option string;
  ins_position : option string;
  ins_address : option string;
  ins_notes : option string;
  ins_tags : option (list string);
  ins_last_active : option timestamptz
}.

Definition inserted_row (uid : uuid) (now : timestamptz) (d : database)
  (p : insert_payload) : contact :=
  mkContact (gen_random_uuid (contacts d)) uid
    (ins_phone_number p) (ins_custom_name p) (ins_whatsapp_name p)
    (ins_email p) (ins_company p) (ins_position p) (ins_address p)
    (ins_notes p) (ins_tags p) (ins_last_active p) now now.

(** UNIQUE(owner_id, phone_number). *)
Definition same_owner_phone (uid : uuid) (phone : string) (c : contact) : bool :=
  (owner_id c =? uid)%N && (phone_number c =? phone)%string.

(** [await from("contacts").insert(payload).select().single()] *)
Definition insert_single (uid : uuid) (now : timestamptz) (p : insert_payload)
  : Db (result contact) :=
  fun d =>
    let d1 := record INSERT Contacts d in
    if existsb (same_owner_phone uid (ins_phone_number p)) (contacts d)
    then (Err unique_violation, d1)
    else
      let row := inserted_row uid now d p in
      (Ok row, with_contacts (contacts d ++ [row]) d1).

(** The columns an update sets. *)
Record update_payload : Type := mkUpdate {
  upd_custom_name : string;
  upd_whatsapp_name : option string;
  upd_email : option string;
  upd_company : option string;
  upd_position : option string;
  upd_address : option string;
  upd_notes : option string;
  upd_tags : option (list string)
}.

(** One row after the UPDATE: the payload's columns are assigned and
    the trigger [contacts_updated_at] stamps [updated_at]. *)
Definition updated_row (now : timestamptz) (p : update_payload) (c : contact)
  : contact :=
  mkContact (id c) (owner_id c) (phone_number c)
    (upd_custom_name p) (upd_whatsapp_name p) (upd_email p) (upd_company p)
    (upd_position p) (upd_address p) (upd_notes p) (upd_tags p)
    (last_active c) (created_at c) now.

(** [await from("contacts").update(payload)...select().single()]; when
    the returned representation is not one row nothing is committed. *)
Definition update_single (uid : uuid) (now : timestamptz) (p : update_payload)
  (q : filters) : Db (result contact) :=
  fun d =>
    let d1 := record UPDATE Contacts d in
    match where_clause q with
    | Err e => (Err e, d1)
    | Ok w =>
        let hit c := own uid c && w c in
        match single (map (updated_row now p) (filter hit (contacts d))) with
        | Err e => (Err e, d1)
        | Ok row =>
            (Ok row,
             with_contacts
               (map (fun c => if hit c then updated_row now p c else c)
                  (contacts d)) d1)
        end
    end.

(** [await from("contacts").delete()...]: the rows go, and with them
    the [contact_groups] rows that reference them (ON DELETE CASCADE).
    Deleting nothing is no error. *)
Definition delete_ (uid : uuid) (q : filters) : Db (result unit) :=
  fun d =>
    let d1 := record DELETE Contacts d in
    match where_clause q with
    | Err e => (Err e, d1)
    | Ok w =>
        let hit c := own uid c && w c in
        let gone := map id (filter hit (contacts d)) in
        (Ok tt,
         with_contact_groups
           (filter (fun m => negb (existsb (N.eqb (m_contact_id m)) gone))
              (contact_groups d))
           (with_contacts (filter (fun c => negb (hit c)) (contacts d)) d1))
    end.

(** *** Statements on the group tables *)

(** [await from('chat_groups').select('id').eq('id', g).eq('owner_id', u).single()] *)
Definition select_group_single (gid owner : uuid) : Db (result uuid) :=
  fun d =>
    (single
       (map cg_id
          (filter (fun g => (cg_id g =? gid)%N && (cg_owner_id g =? owner)%N)
             (chat_groups d))),
     record SELECT ChatGroups d).

(** The embedded resource [contacts (id, phone_number, custom_name,
    whatsapp_name)] of one junction row, as the handler reads it. *)
Record ContactMemberData : Type := mkContactMemberData {
  cm_phone_number : string;
  cm_custom_name : string;
  cm_whatsapp_name : option string
}.

Record ContactGroupMemberData : Type := mkContactGroupMemberData {
  cgm_contact_id : uuid;
  cgm_contacts : option ContactMemberData
}.

Definition embed_contact (c : contact) : ContactMemberData :=
  mkContactMemberData (phone_number c) (custom_name c) (whatsapp_name c).

(** Policy "Users can view contact groups they own": the row's contact
    belongs to the caller. *)
Definition own_membership (uid : uuid) (d : database) (m : contact_group) : bool :=
  existsb (fun c => (id c =? m_contact_id m)%N && own uid c) (contacts d).

(** [await from('contact_groups').select(`contact_id, contacts (...)`).eq('group_id', g)] *)
Definition select_members (uid gid : uuid)
  : Db (result (list ContactGroupMemberData)) :=
  fun d =>
    (Ok (map
           (fun m =>
              mkContactGroupMemberData (m_contact_id m)
                (option_map embed_contact
                   (find (fun c => (id c =? m_contact_id m)%N)
                      (visible uid (contacts d)))))
           (filter (fun m => (m_group_id m =? gid)%N && own_membership uid d m)
              (contact_groups d))),
     record SELECT ContactGroups d).

Definition same_member (a b : group_member) : bool :=
  (gm_group_id a =? gm_group_id b)%N && (gm_user_id a =? gm_user_id b)%string.

(** No row of the batch repeats a row already stored or an earlier row
    of the batch. *)
Fixpoint no_duplicate (stored batch : list group_member) : bool :=
  match batch with
  | [] => true
  | r :: rest =>
      negb (existsb (same_member r) stored) && no_duplicate (r :: stored) rest
  end.

(** [await from('group_members').insert(rows).select()]: one statement;
    under a unique constraint a single duplicate rejects the whole of
    it with SQLSTATE 23505. *)
Definition insert_members (rows : list group_member)
  : Db (result (list group_member)) :=
  fun d =>
    let d1 := record INSERT GroupMembers d in
    if group_members_unique d && negb (no_duplicate (group_members d) rows)
    then (Err unique_violation, d1)
    else (Ok rows, with_group_members (group_members d ++ rows) d1).

(** [await from('group_members').delete().eq('group_id', g).eq('user_id', u)] *)
Definition delete_member (gid : uuid) (userId : string) : Db (result unit) :=
  fun d =>
    (Ok tt,
     with_group_members
       (filter
          (fun r => negb ((gm_group_id r =? gid)%N && (gm_user_id r =? userId)%string))
          (group_members d))
       (record DELETE GroupMembers d)).

End Supabase.

(** ** Requests and responses *)

Module Http.

Import Pg.

(** [supabase.auth.getUser()]: the session's user, or an error. *)
Record session : Type := mkSession {
  user : option uuid;
  authError : bool
}.

(** [if (authError || !user)] guards every handler; past it the user
    is known. *)
Definition authenticated (s : session) : option uuid :=
  if authError s then None else user s.

(** What a request brings besides its parameters: the session, the
    server's clock ([new Date()]) and the database's ([NOW()]). *)
Record context : Type := mkContext {
  auth : session;
  js_now : timestamptz;
  pg_now : timestamptz
}.

(** One entry of the member list. *)
Record member : Type := mkMember {
  member_id : uuid;
  user_id : string;
  member_custom_name : string;
  member_whatsapp_name : string;
  unread_count : nat
}.

(** The JSON bodies the handlers produce. *)
Inductive json : Type :=
| Failure (error : string) (details : option string)
| ContactList (contacts : list contact) (count : nat)
| SearchResult (contacts : list contact) (count : nat)
    (query : string) (tag : option string)
| OneContact (c : contact) (message : option string)
| Done (message : string)
| MemberList (members : list member)
| Added (message : string) (added : nat).

Record response : Type := mkResponse {
  status : nat;
  body : json
}.

(** [NextResponse.json(body)] answers 200 unless a status is given. *)
Definition ok (b : json) : response := mkResponse 200 b.

Definition fail (st : nat) (msg : string) : response :=
  mkResponse st (Failure msg None).

Definition unauthorized : response := fail 401 "Unauthorized".

(** The contacts a response lists, if it lists any. *)
Definition listed (r : response) : option (list contact) :=
  match body r with
  | ContactList cs _ => Some cs
  | SearchResult cs _ _ _ => Some cs
  | _ => None
  end.

End Http.

(** ** app/api/contacts/route.ts *)

Module ContactsRoute.

Import Pg Supabase Http.

(** GET - all contacts of the authenticated user. *)
Definition GET (ctx : context) : Db response :=
  match authenticated (auth ctx) with
  | None => ret unauthorized
  | Some uid =>
      r <- order uid (eq_owner_id_ uid from_contacts) ;;
      match r with
      | Err _ => ret (fail 500 "Failed to fetch contacts")
      | Ok contacts => ret (ok (ContactList contacts (List.length contacts)))
      end
  end.

(** The object handed to [insert]: the property values are evaluated
    in source order, and the first [trim] that throws aborts. *)
Definition insert_object (ctx : context) (b : Js.object)
  : Js.completion insert_payload :=
  Js.and_then (Js.call_trim (Js.field b "phoneNumber")) (fun phone =>
  Js.and_then (Js.call_trim (Js.field b "customName")) (fun name =>
  Js.and_then (Js.trim_or_null (Js.field b "whatsappName")) (fun wa =>
  Js.and_then (Js.trim_or_null (Js.field b "email")) (fun em =>
  Js.and_then (Js.trim_or_null (Js.field b "company")) (fun co =>
  Js.and_then (Js.trim_or_null (Js.field b "position")) (fun po =>
  Js.and_then (Js.trim_or_null (Js.field b "address")) (fun ad =>
  Js.and_then (Js.trim_or_null (Js.field b "notes")) (fun no =>
  Js.Normal
    (mkInsert phone name wa em co po ad no
       (Js.array_or_null (Js.field b "tags"))
       (Some (js_now ctx))))))))))).

(** POST - create a contact. *)
Definition POST (ctx : context) (b : Js.object) : Db response :=
  match authenticated (auth ctx) with
  | None => ret unauthorized
  | Some uid =>
      if negb (Js.truthy (Js.field b "phoneNumber"))
         || negb (Js.truthy (Js.field b "customName"))
      then ret (fail 400 "Phone number and name are required")
      else
        match insert_object ctx b with
        | Js.Throw _ => ret (fail 500 "Failed to create contact")
        | Js.Normal payload =>
            r <- insert_single uid (pg_now ctx) payload ;;
            match r with
            | Err e =>
                if (code e =? "23505")%string
                then ret (fail 409 "Contact with this phone number already exists")
                else ret (fail 500 "Failed to create contact")
            | Ok contact =>
                ret (ok (OneContact contact (Some "Contact created successfully"%string)))
            end
        end
  end.

End ContactsRoute.

(** ** app/api/contacts/[id]/route.ts *)

Module ContactIdRoute.

Import Pg Supabase Http.

(** GET - one contact.  [contactId] is [params.id], the path's segment
    as text. *)
Definition GET (ctx : context) (contactId : uuid_text) : Db response :=
  match authenticated (auth ctx) with
  | None => ret unauthorized
  | Some uid =>
      r <- select_single uid (eq_owner_id_ uid (eq_id_ contactId from_contacts)) ;;
      match r with
      | Err e =>
          if (code e =? "PGRST116")%string
          then ret (fail 404 "Contact not found")
          else ret (fail 500 "Failed to fetch contact")
      | Ok contact => ret (ok (OneContact contact None))
      end
  end.

(** The object handed to [update]. *)
Definition update_object (b : Js.object) : Js.completion update_payload :=
  Js.and_then (Js.call_trim (Js.field b "customName")) (fun name =>
  Js.and_then (Js.trim_or_null (Js.field b "whatsappName")) (fun wa =>
  Js.and_then (Js.trim_or_null (Js.field b "email")) (fun em =>
  Js.and_then (Js.trim_or_null (Js.field b "company")) (fun co =>
  Js.and_then (Js.trim_or_null (Js.field b "position")) (fun po =>
  Js.and_then (Js.trim_or_null (Js.field b "address")) (fun ad =>
  Js.and_then (Js.trim_or_null (Js.field b "notes")) (fun no =>
  Js.Normal
    (mkUpdate name wa em co po ad no
       (Js.array_or_null (Js.field b "tags")))))))))).

(** PUT - update a contact. *)
Definition PUT (ctx : context) (contactId : uuid_text) (b : Js.object)
  : Db response :=
  match authenticated (auth ctx) with
  | None => ret unauthorized
  | Some uid =>
      if negb (Js.truthy (Js.field b "customName"))
      then ret (fail 400 "Name is required")
      else
        match update_object b with
        | Js.Throw _ => ret (fail 500 "Failed to update contact")
        | Js.Normal payload =>
            r <- update_single uid (pg_now ctx) payload
                   (eq_owner_id_ uid (eq_id_ contactId from_contacts)) ;;
            match r with
            | Err _ => ret (fail 500 "Failed to update contact")
            | Ok contact =>
                ret (ok (OneContact contact (Some "Contact updated successfully"%string)))
            end
        end
  end.

(** DELETE - delete a contact. *)
Definition DELETE (ctx : context) (contactId : uuid_text) : Db response :=
  match authenticated (auth ctx) with
  | None => ret unauthorized
  | Some uid =>
      r <- delete_ uid (eq_owner_id_ uid (eq_id_ contactId from_contacts)) ;;
      match r with
      | Err _ => ret (fail 500 "Failed to delete contact")
      | Ok _ => ret (ok (Done "Contact deleted successfully"))
      end
  end.

End ContactIdRoute.

(** ** app/api/contacts/search/route.ts *)

Module SearchRoute.

Import Pg Supabase Http.

(** The five disjuncts [column.ilike.%query%] of the search filter. *)
Definition search_items (query : string) : list (text_column * string) :=
  let pattern := ("%" ++ query ++ "%")%string in
  [ (col_custom_name, pattern);
    (col_whatsapp_name, pattern);
    (col_phone_number, pattern);
    (col_email, pattern);
    (col_company, pattern) ].

(** The query as the handler builds it: the owner filter, then the
    text filter [if (query)], then the tag filter [if (tag)]. *)
Definition dbQuery (uid : uuid) (query : string) (tag : option string)
  : filters :=
  let dbQuery := eq_owner_id_ uid from_contacts in
  let dbQuery :=
    if negb (query =? "")%string
    then or_ (search_items query) dbQuery
    else dbQuery in
  match tag with
  | Some t =>
      if negb (t =? "")%string then contains_tags_ [t] dbQuery else dbQuery
  | None => dbQuery
  end.

(** GET - search contacts; [q] and [tag] are the URL's parameters. *)
Definition GET (ctx : context) (q tag : option string) : Db response :=
  match authenticated (auth ctx) with
  | None => ret unauthorized
  | Some uid =>
      let query := Js.param_or_empty q in
      r <- order uid (dbQuery uid query tag) ;;
      match r with
      | Err _ => ret (fail 500 "Failed to search contacts")
      | Ok contacts =>
          ret (ok (SearchResult contacts (List.length contacts) query tag))
      end
  end.

End SearchRoute.

(** ** The group-membership handlers (members route) *)

Module MembersRoute.

Import Pg Supabase Http.

(** [groupId] is the path's segment read as a uuid.  A segment that is
    no uuid makes the ownership query fail; the handlers read only its
    [data], which is then null, and answer 404 as for a group that is
    not the caller's. *)

(** [value || ''] on an optional string. *)
Definition or_empty (v : option string) : string :=
  match v with
  | Some s => s
  | None => ""%string
  end.

(** The mapping applied to every junction row: [cg.contacts?.x || '']. *)
Definition format_member (cg : ContactGroupMemberData) : member :=
  mkMember (cgm_contact_id cg)
    (or_empty (option_map cm_phone_number (cgm_contacts cg)))
    (or_empty (option_map cm_custom_name (cgm_contacts cg)))
    (or_empty (match cgm_contacts cg with
               | Some c => cm_whatsapp_name c
               | None => None
               end))
    0.

(** GET - all members of a group. *)
Definition GET (ctx : context) (groupId : uuid) : Db response :=
  match authenticated (auth ctx) with
  | None => ret unauthorized
  | Some uid =>
      g <- select_group_single groupId uid ;;
      match data_of g with
      | None => ret (fail 404 "Group not found or unauthorized")
      | Some _ =>
          r <- select_members uid groupId ;;
          match r with
          | Err e =>
              ret (mkResponse 500
                     (Failure "Failed to fetch members" (Some (message e))))
          | Ok contactGroups =>
              ret (ok (MemberList (map format_member contactGroups)))
          end
      end
  end.

Definition items_of (v : Js.value) : list string :=
  match v with
  | Js.Arr items => items
  | _ => []
  end.

Definition added_message (n : nat) : string :=
  (NilEmpty.string_of_uint (Nat.to_uint n) ++ " member(s) added successfully")%string.

(** POST - add members to a group. *)
Definition POST (ctx : context) (groupId : uuid) (b : Js.object) : Db response :=
  match authenticated (auth ctx) with
  | None => ret unauthorized
  | Some uid =>
      let userIds := Js.field b "userIds" in
      if negb (Js.truthy userIds) || negb (Js.isArray userIds)
         || (List.length (items_of userIds) =? 0)
      then ret (fail 400 "User IDs array is required")
      else
        g <- select_group_single groupId uid ;;
        match data_of g with
        | None => ret (fail 404 "Group not found or unauthorized")
        | Some _ =>
            let members :=
              map (fun userId => mkGroupMember groupId userId) (items_of userIds) in
            r <- insert_members members ;;
            match r with
            | Err e =>
                ret (mkResponse 500
                       (Failure "Failed to add members" (Some (message e))))
            | Ok data =>
                ret (ok (Added (added_message (List.length data)) (List.length data)))
            end
        end
  end.

(** DELETE - remove a member from a group. *)
Definition DELETE (ctx : context) (groupId : uuid) (userId : option string)
  : Db response :=
  match authenticated (auth ctx) with
  | None => ret unauthorized
  | Some uid =>
      match userId with
      | None => ret (fail 400 "User ID is required")
      | Some u =>
          if (u =? "")%string then ret (fail 400 "User ID is required")
          else
            g <- select_group_single groupId uid ;;
            match data_of g with
            | None => ret (fail 404 "Group not found or unauthorized")
            | Some _ =>
                r <- delete_member groupId u ;;
                match r with
                | Err e =>
                    ret (mkResponse 500
                           (Failure "Failed to remove member" (Some (message e))))
                | Ok _ => ret (ok (Done "Member removed successfully"))
                end
            end
      end
  end.

End MembersRoute.

(** ** components/chat/group-management-dialog.tsx *)

Module GroupManagementDialog.

Import Pg.

Record Group : Type := mkGroup {
  group_id : uuid;
  group_name : string;
  group_description : option string;
  member_count : nat
}.

(** The component state [handleSave] reads. *)
Record state : Type := mkState {
  name : string;
  description : string;
  selectedUserIds : list uuid
}.

(** What the save action sends out, in order. *)
Inductive request : Type :=
| PutGroup (g : uuid) (name description : string)
| SelectMembers (g : uuid)
| DeleteMembers (g : uuid) (contact_ids : list uuid)
| InsertMembers (memberships : list (uuid * uuid))
| PostGroup (name description : string) (memberIds : list uuid).

(** What comes back: whether the PUT and the POST answer ok, and the
    [data] of the membership select (null when it failed). *)
Record replies : Type := mkReplies {
  update_ok : bool;
  currentMembers : option (list uuid);
  create_ok : bool
}.

Record outcome : Type := mkOutcome {
  issued : list request;
  error : option string;
  saved : bool   (* onGroupSaved() and onClose() were called *)
}.

(** [prev.includes(userId)]. *)
Definition includes (ids : list uuid) (x : uuid) : bool :=
  existsb (N.eqb x) ids.

Definition handleToggleUser (userId : uuid) (prev : list uuid) : list uuid :=
  if includes prev userId
  then filter (fun i => negb (i =? userId)%N) prev
  else prev ++ [userId].

Definition toAdd (selected current : list uuid) : list uuid :=
  filter (fun i => negb (includes current i)) selected.

Definition toRemove (selected current : list uuid) : list uuid :=
  filter (fun i => negb (includes selected i)) current.

Definition handleSave (st : state) (group : option Group) (net : replies)
  : outcome :=
  if (Text.trim (name st) =? "")%string
  then mkOutcome [] (Some "Group name is required"%string) false
  else if (List.length (selectedUserIds st) =? 0)
  then mkOutcome [] (Some "Please select at least one member"%string) false
  else
    match group with
    | Some g =>
        let put := PutGroup (group_id g) (name st) (description st) in
        if negb (update_ok net)
        then mkOutcome [put] (Some "Failed to update group"%string) false
        else
          let currentMemberIds :=
            match currentMembers net with
            | Some ids => ids
            | None => []
            end in
          let add := toAdd (selectedUserIds st) currentMemberIds in
          let remove := toRemove (selectedUserIds st) currentMemberIds in
          mkOutcome
            ([put; SelectMembers (group_id g)]
             ++ (if (0 <? List.length remove)
                 then [DeleteMembers (group_id g) remove] else [])
             ++ (if (0 <? List.length add)
                 then [InsertMembers (map (fun c => (c, group_id g)) add)]
                 else []))
            None true
    | None =>
        let post := PostGroup (name st) (description st) (selectedUserIds st) in
        if negb (create_ok net)
        then mkOutcome [post] (Some "Failed to create group"%string) false
        else mkOutcome [post] None true
    end.

(** The contact identifiers the issued requests remove from, and add
    to, the group [g]. *)
Definition removed_from (g : uuid) (r : request) : list uuid :=
  match r with
  | DeleteMembers g' ids => if (g' =? g)%N then ids else []
  | _ => []
  end.

Definition added_to (g : uuid) (r : request) : list uuid :=
  match r with
  | InsertMembers ms =>
      map fst (filter (fun m => (snd m =? g)%N) ms)
  | _ => []
  end.

Definition removals (g : uuid) (o : outcome) : list uuid :=
  flat_map (removed_from g) (issued o).

Definition additions (g : uuid) (o : outcome) : list uuid :=
  flat_map (added_to g) (issued o).

End GroupManagementDialog.

(** ** The contracts the handlers are compared with *)

Module Contract.

Import Pg Http.

(** The caller is successfully authenticated as [uid]. *)
Definition signed_in (ctx : context) (uid : uuid) : Prop :=
  authError (auth ctx) = false /\ user (auth ctx) = Some uid.

(** Following the specification's words: a contact matches a query
    when the query occurs, case-insensitively, as a substring of its
    custom name, whatsapp name, phone number, email or company. *)
Definition field_contains (q : string) (v : option string) : bool :=
  match v with
  | Some s => Text.contains_ci q s
  | None => false
  end.

Definition matches_query (q : string) (c : contact) : bool :=
  Text.contains_ci q (custom_name c)
  || field_contains q (whatsapp_name c)
  || Text.contains_ci q (phone_number c)
  || field_contains q (email c)
  || field_contains q (company c).

(** Following the specification's words: the tag set contains the tag
    exactly. *)
Definition has_tag (t : string) (c : contact) : bool :=
  match tags c with
  | Some ts => existsb (String.eqb t) ts
  | None => false
  end.

(** A parameter is present when it is given and not empty. *)
Definition when_present (p : option string) (test : string -> bool) : bool :=
  match p with
  | Some s => if (s =? "")%string then true else test s
  | None => true
  end.

(** Following the specification's words: the contacts Search returns
    for caller [uid], query [q] and tag [tag]. *)
Definition search_selects (uid : uuid) (q tag : option string) (c : contact)
  : bool :=
  own uid c
  && when_present q (fun s => matches_query s c)
  && when_present tag (fun t => has_tag t c).

(** Ascending order of custom names. *)
Definition by_name (c d : contact) : Prop :=
  (custom_name c <=? custom_name d)%string = true.

(** Characters with a meaning of their own inside the search filter:
    the LIKE wildcards and escape, the API's alias of [%], and the two
    characters that end a value. *)
Definition filter_syntax : list ascii :=
  ["%"; "_"; "\"; "*"; ","; ")"]%char.

Definition plain_query (q : string) : bool :=
  forallb (fun c => negb (Text.char_in c filter_syntax)) (Text.chars q).

(** Characters that stand for themselves in a LIKE pattern. *)
Definition not_wildcard (c : ascii) : bool :=
  negb (Ascii.eqb c "%" || Ascii.eqb c "_" || Ascii.eqb c "\").

(** Characters with a meaning of their own inside an array literal:
    the braces, the comma, the double quote and the backslash. *)
Definition array_syntax : list ascii :=
  ["{"; "}"; ","; "034"; "\"]%char.

(** The text is not empty and does not start with white space. *)
Definition clean_start (l : list ascii) : bool :=
  match l with
  | [] => false
  | c :: _ => negb (Text.is_space c)
  end.

(** A tag that stands for itself in the tag filter: no array syntax in
    it, no white space at either end, and not the word NULL. *)
Definition plain_tag (t : string) : bool :=
  let l := Text.chars t in
  forallb (fun c => negb (Text.char_in c array_syntax)) l
  && clean_start l && clean_start (rev l)
  && negb (Text.text (Text.lower l) =? "null")%string.

(** The tag parameter is absent, empty or a plain tag. *)
Definition plain_tag_param (tag : option string) : bool :=
  match tag with
  | Some t => (t =? "")%string || plain_tag t
  | None => true
  end.


(** An optional text field as the interface documents it: a string, or
    absent. *)
Definition optional_text (v : Js.value) : Prop :=
  v = Js.Undefined \/ v = Js.Null \/ exists s, v = Js.Str s.

Definition optional_texts (b : Js.object) : Prop :=
  Forall (fun k => optional_text (Js.field b k))
    ["whatsappName"; "email"; "company"; "position"; "address"; "notes"]%string.

(** What an optional text field stores: its trimmed text, or NULL
    when nothing is left. *)
Definition stored_text (v : Js.value) : option string :=
  match v with
  | Js.Str s =>
      if (Text.trim s =? "")%string then None else Some (Text.trim s)
  | _ => None
  end.

(** Following the specification's words: the tags stored are the list
    supplied, and absent when no list is supplied. *)
Definition supplied_tags (v : Js.value) : option (list string) :=
  match v with
  | Js.Arr items => Some items
  | _ => None
  end.

(** Following the specification's words: the contact Create stores for
    caller [uid] and a body of texts with phone number [phone] and
    custom name [name]: trimmed texts, blank optional texts absent, the
    tags supplied, last-active the current time. *)
Definition created (ctx : context) (uid : uuid) (b : Js.object)
  (phone name : string) (new_id : uuid) : contact :=
  mkContact new_id uid (Text.trim phone) (Text.trim name)
    (stored_text (Js.field b "whatsappName"))
    (stored_text (Js.field b "email"))
    (stored_text (Js.field b "company"))
    (stored_text (Js.field b "position"))
    (stored_text (Js.field b "address"))
    (stored_text (Js.field b "notes"))
    (supplied_tags (Js.field b "tags"))
    (Some (js_now ctx)) (pg_now ctx) (pg_now ctx).



(** The row a request of caller [uid] on contact [cid] targets. *)
Definition targets (uid cid : uuid) (c : contact) : bool :=
  (id c =? cid)%N && (owner_id c =? uid)%N.

(** No contact of the caller carries the identifier: the row is absent
    or belongs to somebody else. *)
Definition not_callers (uid cid : uuid) (d : database) : Prop :=
  forall c, In c (contacts d) -> id c = cid -> owner_id c <> uid.

(** The columns an update leaves alone, row by row; rows other than the
    target are left as they are. *)
Definition kept (cid : uuid) (before after : contact) : Prop :=
  id after = id before
  /\ owner_id after = owner_id before
  /\ phone_number after = phone_number before
  /\ last_active after = last_active before
  /\ created_at after = created_at before
  /\ (id before <> cid -> after = before).

End Contract.

(** ** Sample sessions and databases *)

Module Sample.

Import Pg Http.

Local Open Scope N_scope.

(** A signed-in caller (user 1), another one (user 2), and a request
    without a session. *)
Definition caller : context := mkContext (mkSession (Some 1) false) 200 205.

Definition other_caller : context := mkContext (mkSession (Some 2) false) 200 205.

Definition anonymous : context := mkContext (mkSession None false) 200 205.

Definition empty_db : database := mkDatabase [] [] [] [] true [].

Definition al : contact :=
  mkContact 7 1 "15551234567" "Al" None None None None None None None
    (Some 50) 50 50.

Definition john : contact :=
  mkContact 8 1 "15550000001" "John Doe" None None None None None None
    (Some ["vip"%string]) (Some 60) 60 60.

Definition mary : contact :=
  mkContact 9 1 "15550000002" "Mary" None (Some "john@x.com"%string) None None
    None None (Some ["vip2"%string]) (Some 70) 70 70.

Definition zed : contact :=
  mkContact 10 2 "15550000003" "Johnny" None None None None None None None
    (Some 80) 80 80.

(** User 1 owns group 30 and three contacts, two of them members of
    the group; user 2 owns one contact. *)
Definition address_book : database :=
  mkDatabase [mary; al; john; zed]
    [mkChatGroup 30 1 "Friends" None]
    [mkContactGroup 40 7 30 55 (Some 1); mkContactGroup 41 8 30 65 (Some 1)]
    [mkGroupMember 30 "u1"]
    true [].

(** The same, were [group_members] declared without a unique
    constraint. *)
Definition address_book_no_constraint : database :=
  mkDatabase (contacts address_book) (chat_groups address_book)
    (contact_groups address_book) (group_members address_book) false [].

(** Update bodies: a new name; and a new name together with a phone
    number and an owner, which the interface does not list. *)
Definition rename_to_bob : Js.object :=
  [("customName"%string, Js.Str "Bob")].

Definition rename_and_rehome : Js.object :=
  [("customName"%string, Js.Str "Bob");
   ("phoneNumber"%string, Js.Str "19990000000");
   ("phone_number"%string, Js.Str "19990000000");
   ("owner_id"%string, Js.Num 2)].

End Sample.

(** ** More sample requests *)

Module SampleRequests.

(** A Create body with padded texts and a blank optional field. *)
Definition new_alice : Js.object :=
  [("phoneNumber"%string, Js.Str " 15557654321 ");
   ("customName"%string, Js.Str "Alice");
   ("email"%string, Js.Str "  ");
   ("tags"%string, Js.Arr ["vip"%string])].

(** An Update body that renames and retags. *)
Definition retag_bob : Js.object :=
  [("customName"%string, Js.Str " Bob ");
   ("tags"%string, Js.Arr ["gold"; "vip"]%string)].

End SampleRequests.

(** ** Constraints and frames of the tables *)

Module Invariant.

Import Pg.

(** PRIMARY KEY of [contacts]. *)
Definition unique_ids (d : database) : Prop :=
  NoDup (map id (contacts d)).

(** UNIQUE(owner_id, phone_number). *)
Definition owner_phone (c : contact) : uuid * string :=
  (owner_id c, phone_number c).

Definition unique_phones (d : database) : Prop :=
  NoDup (map owner_phone (contacts d)).

(** The four tables hold the same rows. *)
Definition same_tables (d d' : database) : Prop :=
  contacts d' = contacts d
  /\ chat_groups d' = chat_groups d
  /\ contact_groups d' = contact_groups d
  /\ group_members d' = group_members d.

(** Since [d], only SELECT statements were run to reach [d']. *)
Definition only_selected (d d' : database) : Prop :=
  exists ran,
    journal d' = ran ++ journal d
    /\ Forall (fun entry => fst entry = SELECT) ran.

(** The contacts of accounts other than [uid]. *)
Definition of_others (uid : uuid) (rows : list contact) : list contact :=
  filter (fun c => negb (own uid c)) rows.

(** The text fields of a contact body, in the order the handlers trim
    them. *)
Definition text_fields : list string :=
  ["phoneNumber"; "customName"; "whatsappName"; "email"; "company";
   "position"; "address"; "notes"]%string.

(** A value that is present and is not a string. *)
Definition not_text (v : Js.value) : Prop :=
  (forall s, v <> Js.Str s) /\ v <> Js.Undefined /\ v <> Js.Null.

(** No group with identifier [g] belongs to [uid]. *)
Definition not_callers_group (uid g : uuid) (d : database) : Prop :=
  forall grp, In grp (chat_groups d) -> cg_id grp = g -> cg_owner_id grp <> uid.

(** A stored optional text is NULL or a non-empty text without white
    space around it. *)
Definition normal_text (v : option string) : Prop :=
  forall t, v = Some t -> t <> ""%string /\ Text.trim t = t.

(** The six optional text columns of a contact. *)
Definition optional_columns (c : contact) : list (option string) :=
  [whatsapp_name c; email c; company c; position c; address c; notes c].

End Invariant.

(** ** Shapes of trimmed text *)

Module TextShape.

(** The text is empty or starts with a character that is not white
    space. *)
Definition starts_clean (l : list ascii) : bool :=
  match l with
  | [] => true
  | c :: _ => negb (Text.is_space c)
  end.

End TextShape.

(** ** The dialog's contact list and its search box *)

Module DialogList.

Import Pg.

(** [value?.toLowerCase().includes(term.toLowerCase())] on an optional
    column: false when the column is absent. *)
Definition optional_includes (v : option string) (term : string) : bool :=
  match v with
  | Some s => Text.contains_ci term s
  | None => false
  end.

(** [filteredContacts]: the contacts shown under the search box.  The
    phone number is compared as typed, the other columns in lower
    case. *)
Definition filteredContacts (contacts : list contact) (searchTerm : string)
  : list contact :=
  filter
    (fun contact =>
       Text.contains_ci searchTerm (custom_name contact)
       || Text.includes (Text.chars (phone_number contact)) (Text.chars searchTerm)
       || optional_includes (whatsapp_name contact) searchTerm
       || optional_includes (email contact) searchTerm
       || optional_includes (company contact) searchTerm)
    contacts.

End DialogList.

(** ** The contacts page *)

Module ContactsPage.

Import Pg Supabase.

(** [loadContacts]: every row the session may see, by custom name. *)
Definition loadContacts (uid : uuid) : Db (result (list contact)) :=
  order uid from_contacts.


(** [s.split(sep)] on characters: the pieces between separators, one
    more than there are separators. *)
Fixpoint split_on (sep : ascii) (l : list ascii) : list (list ascii) :=
  match l with
  | [] => [[]]
  | c :: l' =>
      if Ascii.eqb c sep then [] :: split_on sep l'
      else match split_on sep l' with
           | w :: ws => (c :: w) :: ws
           | [] => [[c]]
           end
  end.

(** The tags the form stores:
    [tags ? tags.split(",").map(t => t.trim()).filter(Boolean) : null]. *)
Definition parseTags (tags : string) : option (list string) :=
  if (tags =? "")%string then None
  else
    Some (filter (fun t => negb (t =? "")%string)
            (map (fun t => Text.text (Text.trim_chars t))
               (split_on "," (Text.chars tags)))).

(** The text the form shows for stored tags:
    [contact.tags?.join(", ") || ""]. *)
Definition joinTags (tags : option (list string)) : string :=
  match tags with
  | Some ts => String.concat ", " ts
  | None => ""%string
  end.

(** [handleDeleteContact], once confirmed: delete the row, then drop
    it from the list on screen; on an error, reload the list. *)
Definition handleDeleteContact (uid contactId : uuid) (contacts : list contact)
  : Db (list contact) :=
  r <- delete_ uid (eq_id_ (Uuid contactId) from_contacts) ;;
  match r with
  | Err _ =>
      l <- loadContacts uid ;;
      ret (match l with
           | Ok data => data
           | Err _ => contacts
           end)
  | Ok _ => ret (filter (fun c => negb (id c =? contactId)%N) contacts)
  end.

(** A tag as [parseTags] leaves it: not empty, no white space around
    it, no comma in it. *)
Definition clean_tag (t : string) : Prop :=
  t <> ""%string
  /\ Text.trim t = t
  /\ ~ In ","%char (Text.chars t).

End ContactsPage.

(** ** The dialog's own statements on the junction table *)

Module DialogStore.

Import Pg Supabase GroupManagementDialog.

(** [from("contact_groups").select("contact_id").eq("group_id", g)],
    run by the browser under the caller's session: the policy shows
    the rows whose contact is the caller's. *)
Definition select_member_ids (uid g : uuid) : Db (result (list uuid)) :=
  fun d =>
    (Ok (map m_contact_id
           (filter (fun m => (m_group_id m =? g)%N && own_membership uid d m)
              (contact_groups d))),
     record SELECT ContactGroups d).

(** [delete().eq("group_id", g).in("contact_id", ids)]; policy "Users
    can remove contacts from their groups". *)
Definition delete_memberships (uid g : uuid) (ids : list uuid)
  : Db (result unit) :=
  fun d =>
    (Ok tt,
     with_contact_groups
       (filter
          (fun m =>
             negb ((m_group_id m =? g)%N && includes ids (m_contact_id m)
                   && own_membership uid d m))
          (contact_groups d))
       (record DELETE ContactGroups d)).

Definition owns_contact (uid : uuid) (d : database) (c : uuid) : bool :=
  existsb (fun x => (id x =? c)%N && own uid x) (contacts d).

Definition owns_group (uid : uuid) (d : database) (g : uuid) : bool :=
  existsb (fun grp => (cg_id grp =? g)%N && (cg_owner_id grp =? uid)%N)
    (chat_groups d).

Definition same_pair (a b : uuid * uuid) : bool :=
  (fst a =? fst b)%N && (snd a =? snd b)%N.

(** UNIQUE(contact_id, group_id) over the stored pairs and the batch. *)
Fixpoint no_repeated_pair (stored batch : list (uuid * uuid)) : bool :=
  match batch with
  | [] => true
  | m :: rest =>
      negb (existsb (same_pair m) stored) && no_repeated_pair (m :: stored) rest
  end.

Definition policy_violation : Pg.error :=
  mkError "42501" "new row violates row-level security policy".

(** The rows an insert adds: fresh identifiers, [added_at] the clock,
    [added_by] left NULL. *)
Fixpoint new_rows (next : uuid) (now : timestamptz) (ms : list (uuid * uuid))
  : list contact_group :=
  match ms with
  | [] => []
  | m :: rest =>
      mkContactGroup next (fst m) (snd m) now None
      :: new_rows (N.succ next) now rest
  end.

(** [from("contact_groups").insert(memberships)]: one statement; the
    policy "Users can add contacts to their groups" wants the contact
    and the group to be the caller's, the constraint wants every pair
    once; any row failing either refuses the statement. *)
Definition insert_memberships (uid : uuid) (now : timestamptz)
  (ms : list (uuid * uuid)) : Db (result unit) :=
  fun d =>
    let d1 := record INSERT ContactGroups d in
    if negb (forallb (fun m => owns_contact uid d (fst m) && owns_group uid d (snd m))
               ms)
    then (Err policy_violation, d1)
    else if negb (no_repeated_pair
                    (map (fun m => (m_contact_id m, m_group_id m))
                       (contact_groups d)) ms)
    then (Err unique_violation, d1)
    else
      (Ok tt,
       with_contact_groups
         (contact_groups d
          ++ new_rows (N.succ (fold_right N.max 0%N (map m_id (contact_groups d))))
               now ms)
         d1).

(** Running one request of a save.  The two group requests go to the
    groups API, which is not part of this module; they are not run
    here.  The dialog does not look at the outcome of a statement. *)
Definition perform (uid : uuid) (now : timestamptz) (r : request) : Db unit :=
  match r with
  | SelectMembers g => _ <- select_member_ids uid g ;; ret tt
  | DeleteMembers g ids => _ <- delete_memberships uid g ids ;; ret tt
  | InsertMembers ms => _ <- insert_memberships uid now ms ;; ret tt
  | PutGroup _ _ _ => ret tt
  | PostGroup _ _ _ => ret tt
  end.

Fixpoint perform_all (uid : uuid) (now : timestamptz) (rs : list request)
  : Db unit :=
  match rs with
  | [] => ret tt
  | r :: rest => _ <- perform uid now r ;; perform_all uid now rest
  end.

End DialogStore.

(** * Properties *)

(** ** Text *)

Module TextFacts.

Import Text.

Lemma chars_append (s1 s2 : string) :
  chars (s1 ++ s2) = chars s1 ++ chars s2.
Proof.
  unfold chars. induction s1 as [|c s1 IH]; simpl; [reflexivity|].
  now rewrite IH.
Qed.

Lemma prefixb_app (p s : list ascii) :
  prefixb p s = true <-> exists rest, s = p ++ rest.
Proof.
  revert s. induction p as [|a p IH]; intros s; simpl.
  - split; [intros _; now exists s | reflexivity].
  - destruct s as [|b s].
    + split; [discriminate | intros [rest H]; discriminate].
    + rewrite andb_true_iff, IH. split.
      * intros [Hab [rest ->]]. apply Ascii.eqb_eq in Hab. subst. now exists rest.
      * intros [rest H]. injection H as -> ->. split; [apply Ascii.eqb_refl | now exists rest].
Qed.

(** [includes] decides containment. *)
Lemma includes_substring (s p : list ascii) :
  includes s p = true <-> substring_of p s.
Proof.
  unfold substring_of. induction s as [|c s IH]; simpl.
  - rewrite orb_false_r, prefixb_app. split.
    + intros [rest H]. now exists [], rest.
    + intros [before [after H]]. destruct before; [now exists after | discriminate].
  - rewrite orb_true_iff, prefixb_app, IH. split.
    + intros [[rest H] | [before [after H]]].
      * now exists [], rest.
      * exists (c :: before), after. simpl. now rewrite H.
    + intros [before [after H]]. destruct before as [|b before]; simpl in H.
      * left. now exists after.
      * right. injection H as _ H. now exists before, after.
Qed.

Lemma lower_char_idempotent (c : ascii) :
  lower_char (lower_char c) = lower_char c.
Proof.
  destruct c as [[] [] [] [] [] [] [] []]; reflexivity.
Qed.

Lemma trim_plain_word :
  trim "  Alice " = "Alice"%string.
Proof. reflexivity. Qed.

End TextFacts.

(** ** LIKE patterns and ordering *)

Module PgFacts.

Import Pg.

Lemma like_match_any_step (p : list like_token) (s : list ascii) :
  like_match (AnyString :: p) s
  = like_match p s
    || match s with
       | [] => false
       | _ :: s' => like_match (AnyString :: p) s'
       end.
Proof. destruct s; reflexivity. Qed.

Lemma like_match_any_alone (s : list ascii) :
  like_match [AnyString] s = true.
Proof.
  induction s as [|c s IH]; [reflexivity|].
  rewrite like_match_any_step, IH. apply orb_true_r.
Qed.

(** Literals followed by [%] test for a prefix. *)
Lemma like_match_prefix (p s : list ascii) :
  like_match (map Literal p ++ [AnyString]) s = Text.prefixb p s.
Proof.
  revert s. induction p as [|a p IH]; intros s.
  - apply like_match_any_alone.
  - destruct s as [|b s]; [reflexivity|].
    simpl. now rewrite <- IH.
Qed.

(** [%] literals [%] tests for containment. *)
Lemma like_match_contains (p s : list ascii) :
  like_match (AnyString :: map Literal p ++ [AnyString]) s = Text.includes s p.
Proof.
  induction s as [|c s IH].
  - rewrite like_match_any_step, like_match_prefix. reflexivity.
  - rewrite like_match_any_step, like_match_prefix, IH. reflexivity.
Qed.

Lemma like_parse_literals (l rest : list ascii) :
  forallb Contract.not_wildcard l = true ->
  like_parse (l ++ rest) = option_map (app (map Literal l)) (like_parse rest).
Proof.
  induction l as [|c l IH]; simpl; intros H.
  - destruct (like_parse rest); reflexivity.
  - apply andb_true_iff in H as [Hc Hl]. unfold Contract.not_wildcard in Hc.
    apply negb_true_iff in Hc.
    apply orb_false_iff in Hc as [Hc H3]. apply orb_false_iff in Hc as [H1 H2].
    rewrite H1, H2, H3, (IH Hl). destruct (like_parse rest); reflexivity.
Qed.

(** An underscore stands for any one character unless escaped. *)
Example ilike_underscore :
  option_map (fun p => ilike p "John Doe") (like_parse (Text.chars "%J_HN%"))
  = Some true.
Proof. reflexivity. Qed.

Example ilike_escaped_underscore :
  option_map (fun p => ilike p "John Doe") (like_parse (Text.chars "%j\_hn%"))
  = Some false.
Proof. reflexivity. Qed.

Lemma fold_literals (l : list ascii) :
  map fold_token (map Literal l) = map Literal (Text.lower l).
Proof.
  unfold Text.lower. rewrite !map_map. reflexivity.
Qed.

(** [String.leb] is transitive. *)
Lemma ascii_compare_trans (a b c : ascii) (o : comparison) :
  Ascii.compare a b = o -> Ascii.compare b c = o -> Ascii.compare a c = o.
Proof.
  unfold Ascii.compare. intros H1 H2. destruct o.
  - apply N.compare_eq_iff in H1, H2. apply N.compare_eq_iff. congruence.
  - exact (N.lt_trans _ _ _ H1 H2).
  - rewrite N.compare_gt_iff in *. exact (N.lt_trans _ _ _ H2 H1).
Qed.

Lemma string_compare_not_gt_trans (s1 s2 s3 : string) :
  String.compare s1 s2 <> Gt -> String.compare s2 s3 <> Gt ->
  String.compare s1 s3 <> Gt.
Proof.
  revert s2 s3. induction s1 as [|a s1 IH]; intros [|b s2] [|c s3]; simpl;
    try congruence.
  destruct (Ascii.compare a b) eqn:Hab; destruct (Ascii.compare b c) eqn:Hbc;
    try congruence; intros H12 H23.
  - rewrite (ascii_compare_trans _ _ _ Hab Hbc). eauto.
  - apply Ascii.compare_eq_iff in Hab. subst. now rewrite Hbc.
  - apply Ascii.compare_eq_iff in Hbc. subst. now rewrite Hab.
  - now rewrite (ascii_compare_trans _ _ _ Hab Hbc).
Qed.

Lemma string_leb_trans (s1 s2 s3 : string) :
  (s1 <=? s2)%string = true -> (s2 <=? s3)%string = true ->
  (s1 <=? s3)%string = true.
Proof.
  unfold String.leb. intros H12 H23.
  pose proof (@string_compare_not_gt_trans s1 s2 s3) as T.
  destruct (String.compare s1 s2); try discriminate;
    destruct (String.compare s2 s3); try discriminate;
    destruct (String.compare s1 s3); try reflexivity;
    exfalso; apply T; congruence.
Qed.

Lemma insert_by_name_permutation (c : contact) (l : list contact) :
  Permutation (insert_by_name c l) (c :: l).
Proof.
  induction l as [|d l IH]; simpl; [reflexivity|].
  destruct (custom_name c <=? custom_name d)%string; [reflexivity|].
  rewrite IH. apply perm_swap.
Qed.

(** Ordering returns the rows it was given. *)
Lemma order_permutation (l : list contact) :
  Permutation (order_by_custom_name l) l.
Proof.
  induction l as [|c l IH]; simpl; [reflexivity|].
  rewrite insert_by_name_permutation. now constructor.
Qed.

Lemma insert_by_name_sorted (c : contact) (l : list contact) :
  StronglySorted Contract.by_name l ->
  StronglySorted Contract.by_name (insert_by_name c l).
Proof.
  unfold Contract.by_name.
  induction 1 as [|d l Hl IH Hd]; simpl.
  - repeat constructor.
  - destruct (custom_name c <=? custom_name d)%string eqn:Hcd.
    + constructor; [now constructor|]. constructor; [exact Hcd|].
      eapply Forall_impl; [|exact Hd]. intros e He. simpl in He.
      eapply string_leb_trans; eassumption.
    + constructor; [exact IH|].
      eapply Permutation_Forall; [symmetry; apply insert_by_name_permutation|].
      constructor; [|exact Hd].
      destruct (String.leb_total (custom_name c) (custom_name d)); congruence.
Qed.

(** Ordering returns them by ascending custom name. *)
Lemma order_sorted (l : list contact) :
  StronglySorted Contract.by_name (order_by_custom_name l).
Proof.
  induction l as [|c l IH]; simpl; [constructor|].
  now apply insert_by_name_sorted.
Qed.

(** *** Array literals *)

Lemma array_read_app (l1 l2 : list ascii) (r : array_reader) :
  array_read (l1 ++ l2) r
  = match array_read l1 r with
    | Some r' => array_read l2 r'
    | None => None
    end.
Proof.
  revert r. induction l1 as [|c l1 IH]; intros r; cbn; [reflexivity|].
  destruct (array_step c r); [apply IH | reflexivity].
Qed.

Lemma clean_start_app (l m : list ascii) :
  l <> [] -> Contract.clean_start (l ++ m) = Contract.clean_start l.
Proof. destruct l; [congruence | reflexivity]. Qed.

Lemma no_array_syntax (c : ascii) :
  negb (Text.char_in c Contract.array_syntax) = true ->
  Ascii.eqb c "\" = false /\ Ascii.eqb c "034" = false
  /\ Ascii.eqb c "{" = false /\ Ascii.eqb c "}" = false
  /\ Ascii.eqb c "," = false.
Proof.
  unfold Text.char_in, Contract.array_syntax. cbn [existsb].
  destruct (Ascii.eqb c "\"), (Ascii.eqb c "034"), (Ascii.eqb c "{"),
    (Ascii.eqb c "}"), (Ascii.eqb c ","); cbn; intros H;
    try discriminate; repeat split.
Qed.

(** Inside an unquoted element, characters free of array syntax are
    kept as they come; the element ends at the last of them that is not
    white space. *)
Lemma array_read_plain (l : list ascii) :
  forallb (fun c => negb (Text.char_in c Contract.array_syntax)) l = true ->
  forall n i e hq els lvl cs cl,
  exists e',
    array_read l (mkReader ElemStarted false n i e false hq els lvl cs cl)
    = Some (mkReader ElemStarted false n (rev l ++ i) e' false hq els lvl cs cl)
    /\ (l = [] -> e' = e)
    /\ (Contract.clean_start (rev l) = true -> e' = rev l ++ i).
Proof.
  induction l as [|c l IH]; intros Hl n i e hq els lvl cs cl.
  - exists e. split; [reflexivity|]. split; [reflexivity | discriminate].
  - cbn [forallb] in Hl. apply andb_true_iff in Hl as [Hc Hl].
    destruct (no_array_syntax _ Hc) as [T1 [T2 [T3 [T4 T5]]]].
    cbn [array_read]. unfold array_step.
    cbn [escaped at_state]. rewrite T1, T2, T3, T4, T5.
    assert (Hend : forall e',
               (l = [] -> e' = (if Text.is_space c then e else c :: i)) ->
               (Contract.clean_start (rev l) = true -> e' = rev l ++ c :: i) ->
               Contract.clean_start (rev (c :: l)) = true ->
               e' = rev (c :: l) ++ i).
    { intros e' H0 H1 H. cbn [rev] in *. rewrite <- app_assoc. cbn [app].
      destruct l as [|c1 l].
      - cbn in H. apply negb_true_iff in H. rewrite H in H0. now apply H0.
      - apply H1. rewrite clean_start_app in H; [exact H|].
        cbn [rev]. now destruct (rev l). }
    destruct (Text.is_space c) eqn:Es.
    + unfold keep_space, copy. cbn [leading at_state nest_level item item_end
        has_quoting elements elem_level counts closed].
      destruct (IH Hl n (c :: i) e hq els lvl cs cl) as [e' [E [E0 E1]]].
      exists e'. rewrite E. cbn [rev]. rewrite <- app_assoc. cbn [app].
      split; [reflexivity|]. split; [discriminate|].
      intros H. pose proof (Hend e' E0 E1 H) as R. cbn [rev] in R.
      now rewrite <- app_assoc in R.
    + unfold keep, set_state. cbn [leading at_state nest_level item item_end
        has_quoting elements elem_level counts closed escaped].
      rewrite orb_false_r.
      destruct (IH Hl n (c :: i) (c :: i) hq els lvl cs cl) as [e' [E [E0 E1]]].
      exists e'. rewrite E. cbn [rev]. rewrite <- app_assoc. cbn [app].
      split; [reflexivity|]. split; [discriminate|].
      intros H. pose proof (Hend e' E0 E1 H) as R. cbn [rev] in R.
      now rewrite <- app_assoc in R.
Qed.

(** The literal of a single plain tag is read as that one tag. *)
Lemma array_in_plain_tag (t : string) :
  Contract.plain_tag t = true ->
  array_in (Supabase.cs_literal [t]) = Ok [Some t].
Proof.
  unfold Contract.plain_tag. intros H.
  apply andb_true_iff in H as [H Hnull].
  apply andb_true_iff in H as [H Hlast].
  apply andb_true_iff in H as [Hplain Hfirst].
  unfold array_in, Supabase.cs_literal.
  change (String.concat "," [t]) with t.
  change (Text.chars ("{" ++ t ++ "}")) with ("{"%char :: Text.chars (t ++ "}")).
  rewrite TextFacts.chars_append. change (Text.chars "}") with ["}"%char].
  assert (Et : Text.text (Text.chars t) = t)
    by apply string_of_list_ascii_of_string.
  destruct (Text.chars t) as [|c0 rest]; [discriminate|].
  cbn [Contract.clean_start] in Hfirst. apply negb_true_iff in Hfirst.
  cbn [forallb] in Hplain. apply andb_true_iff in Hplain as [Hc0 Hrest].
  destruct (no_array_syntax _ Hc0) as [T1 [T2 [T3 [T4 T5]]]].
  cbn [array_read app]. change (array_step "{" start_reader)
    with (Some (mkReader LevelStarted false 1 [] [] true false [] None
                  (repeat 1 max_dim) (repeat 0 max_dim))).
  cbn iota. unfold array_step at 1. cbn [escaped at_state].
  rewrite T1, T2, T3, T4, T5, Hfirst.
  unfold keep, set_state. cbn [leading at_state nest_level item item_end
    has_quoting elements elem_level counts closed escaped orb].
  rewrite array_read_app.
  destruct (array_read_plain rest Hrest 1 [c0] [c0] false [] None
              (repeat 1 max_dim) (repeat 0 max_dim)) as [e' [E [E0 E1]]].
  rewrite E.
  assert (He : e' = rev (c0 :: rest)).
  { cbn [rev]. destruct rest as [|c1 rest]; [now apply E0|].
    apply E1. cbn [rev] in Hlast. rewrite clean_start_app in Hlast;
      [exact Hlast|]. cbn [rev]. now destruct (rev rest). }
  subst e'. cbn [array_read]. unfold array_step.
  cbn [escaped at_state Ascii.eqb Bool.eqb andb]. unfold finish_item.
  cbn [item_end has_quoting elem_level negb andb]. rewrite rev_involutive.
  unfold null_word. apply negb_true_iff in Hnull. rewrite Hnull, Et.
  reflexivity.
Qed.

Lemma tags_contain_one (t : string) (c : contact) :
  Supabase.tags_contain [Some t] c = Contract.has_tag t c.
Proof.
  unfold Supabase.tags_contain, Contract.has_tag.
  destruct (tags c); [|reflexivity]. cbn. apply andb_true_r.
Qed.

End PgFacts.

(** ** Authentication comes first *)

Module AuthFacts.

Import Pg Supabase Http.

Lemma authenticated_none (s : session) :
  authError s = true \/ user s = None -> authenticated s = None.
Proof.
  unfold authenticated. intros [H | H]; rewrite H; [reflexivity|].
  now destruct (authError s).
Qed.

Lemma authenticated_some (ctx : context) (uid : uuid) :
  Contract.signed_in ctx uid -> authenticated (auth ctx) = Some uid.
Proof.
  unfold authenticated. intros [H1 H2]. now rewrite H1.
Qed.

(** C7: every one of the nine operations, invoked without a
    successfully authenticated caller, answers 401 Unauthorized and
    leaves the database, journal included, as it found it: no statement
    is executed, nothing is read and nothing is modified. *)
Theorem unauthenticated_is_unauthorized (ctx : context) (d : database) :
  authError (auth ctx) = true \/ user (auth ctx) = None ->
  status unauthorized = 401
  /\ ContactsRoute.GET ctx d = (unauthorized, d)
  /\ (forall b, ContactsRoute.POST ctx b d = (unauthorized, d))
  /\ (forall cid, ContactIdRoute.GET ctx cid d = (unauthorized, d))
  /\ (forall cid b, ContactIdRoute.PUT ctx cid b d = (unauthorized, d))
  /\ (forall cid, ContactIdRoute.DELETE ctx cid d = (unauthorized, d))
  /\ (forall q tag, SearchRoute.GET ctx q tag d = (unauthorized, d))
  /\ (forall g, MembersRoute.GET ctx g d = (unauthorized, d))
  /\ (forall g b, MembersRoute.POST ctx g b d = (unauthorized, d))
  /\ (forall g u, MembersRoute.DELETE ctx g u d = (unauthorized, d)).
Proof.
  intros H. apply authenticated_none in H.
  unfold ContactsRoute.GET, ContactsRoute.POST, ContactIdRoute.GET,
    ContactIdRoute.PUT, ContactIdRoute.DELETE, SearchRoute.GET,
    MembersRoute.GET, MembersRoute.POST, MembersRoute.DELETE.
  rewrite H. repeat split.
Qed.

Lemma unauthenticated_is_unauthorized_witness :
  user (auth Sample.anonymous) = None
  /\ ContactIdRoute.DELETE Sample.anonymous (Uuid 7) Sample.address_book
     = (mkResponse 401 (Failure "Unauthorized" None), Sample.address_book).
Proof.
  split; [reflexivity|].
  apply (unauthenticated_is_unauthorized Sample.anonymous Sample.address_book).
  right. reflexivity.
Defined.

End AuthFacts.

(** ** List and Search *)

Module SearchFacts.

Import Pg Supabase Http.

Lemma filter_filter {A} (f g : A -> bool) (l : list A) :
  filter f (filter g l) = filter (fun x => g x && f x) l.
Proof.
  induction l as [|x l IH]; simpl; [reflexivity|].
  destruct (g x); simpl; [destruct (f x)|]; now rewrite IH.
Qed.

(** What [order] returns once the WHERE clause is known. *)
Lemma order_returns (uid : uuid) (q : filters) (p : contact -> bool)
  (d : database) :
  where_clause q = Ok p ->
  order uid q d
  = (Ok (order_by_custom_name
           (filter (fun c => own uid c && p c) (contacts d))),
     record SELECT Contacts d).
Proof.
  intros H. unfold order, visible. now rewrite H, filter_filter.
Qed.

(** List: all contacts of the caller, by ascending custom name. *)
Lemma list_returns (ctx : context) (uid : uuid) (d : database) :
  Contract.signed_in ctx uid ->
  let cs := order_by_custom_name (filter (own uid) (contacts d)) in
  ContactsRoute.GET ctx d
  = (ok (ContactList cs (List.length cs)), record SELECT Contacts d).
Proof.
  intros H. apply AuthFacts.authenticated_some in H.
  unfold ContactsRoute.GET. rewrite H. unfold bind.
  erewrite order_returns by reflexivity.
  erewrite filter_ext; [reflexivity|].
  intros c. unfold own. cbn. now destruct (owner_id c =? uid)%N.
Qed.

Lemma plain_not_wildcard (q : string) :
  Contract.plain_query q = true ->
  forallb Contract.not_wildcard (Text.chars q) = true.
Proof.
  unfold Contract.plain_query. rewrite !forallb_forall. intros H c Hc.
  specialize (H c Hc). unfold Contract.not_wildcard.
  unfold Text.char_in, Contract.filter_syntax in H. simpl in H.
  destruct (Ascii.eqb c "%"), (Ascii.eqb c "_"), (Ascii.eqb c "\");
    simpl in *; congruence.
Qed.

Lemma plain_no_value_end (q : string) :
  Contract.plain_query q = true ->
  existsb ends_value (Text.chars q) = false.
Proof.
  unfold Contract.plain_query. intros H.
  destruct (existsb ends_value (Text.chars q)) eqn:E; [|reflexivity].
  apply existsb_exists in E as [c [Hc E]].
  rewrite forallb_forall in H. specialize (H c Hc).
  unfold Text.char_in, Contract.filter_syntax, ends_value in *. simpl in H.
  destruct (Ascii.eqb c "%"), (Ascii.eqb c "_"), (Ascii.eqb c "\"),
    (Ascii.eqb c "*"), (Ascii.eqb c ","), (Ascii.eqb c ")");
    simpl in *; congruence.
Qed.

Lemma plain_no_star (q : string) :
  Contract.plain_query q = true ->
  map star_to_percent (Text.chars q) = Text.chars q.
Proof.
  unfold Contract.plain_query. intros H.
  rewrite forallb_forall in H.
  induction (Text.chars q) as [|c l IH]; simpl; [reflexivity|].
  rewrite IH by (intros x Hx; apply H; now right).
  specialize (H c (or_introl eq_refl)).
  unfold Text.char_in, Contract.filter_syntax, star_to_percent in *. simpl in H.
  destruct (Ascii.eqb c "%"), (Ascii.eqb c "_"), (Ascii.eqb c "\"),
    (Ascii.eqb c "*"); simpl in *; congruence.
Qed.

(** The pattern the search interpolates: for a plain query it is
    [%], the query's characters as literals, [%]. *)
Lemma search_pattern (q : string) :
  Contract.plain_query q = true ->
  ilike_pattern ("%" ++ q ++ "%")
  = Ok (AnyString :: map Literal (Text.chars q) ++ [AnyString]).
Proof.
  intros H. unfold ilike_pattern.
  change (Text.chars ("%" ++ q ++ "%"))
    with ("%"%char :: Text.chars (q ++ "%")).
  rewrite TextFacts.chars_append.
  change (Text.chars "%") with ["%"%char].
  cbn [existsb map]. rewrite existsb_app, (plain_no_value_end _ H).
  rewrite map_app, (plain_no_star _ H). cbn.
  rewrite (PgFacts.like_parse_literals _ _ (plain_not_wildcard _ H)).
  reflexivity.
Qed.

(** Against that pattern ILIKE is case-insensitive containment. *)
Lemma ilike_contains (q s : string) :
  ilike (AnyString :: map Literal (Text.chars q) ++ [AnyString]) s
  = Text.contains_ci q s.
Proof.
  unfold ilike, Text.contains_ci. cbn [map fold_token].
  rewrite map_app, PgFacts.fold_literals. cbn [map fold_token].
  apply PgFacts.like_match_contains.
Qed.

Lemma search_filter (q : string) :
  Contract.plain_query q = true ->
  exists ps, or_patterns (SearchRoute.search_items q) = Ok ps
             /\ forall c, or_holds ps c = Contract.matches_query q c.
Proof.
  intros H. unfold SearchRoute.search_items. cbn [or_patterns].
  rewrite (search_pattern _ H). eexists. split; [reflexivity|].
  intros c. unfold or_holds, item_holds, Contract.matches_query,
    Contract.field_contains. cbn [existsb fst snd column_value].
  rewrite !ilike_contains, orb_false_r, !orb_assoc.
  destruct (whatsapp_name c), (email c), (company c);
    rewrite ?ilike_contains; reflexivity.
Qed.

Lemma tags_filter_plain (t : string) :
  Contract.plain_tag t = true ->
  tags_filter (Some [t]) = Ok (tags_contain [Some t]).
Proof.
  intros H. unfold tags_filter. now rewrite (PgFacts.array_in_plain_tag _ H).
Qed.

(** The WHERE clause of a search with a plain query and a plain tag
    selects what the contract says. *)
Lemma search_where (uid : uuid) (q tag : option string) :
  Contract.plain_query (Js.param_or_empty q) = true ->
  Contract.plain_tag_param tag = true ->
  exists p,
    where_clause (SearchRoute.dbQuery uid (Js.param_or_empty q) tag) = Ok p
    /\ forall c, own uid c && p c = Contract.search_selects uid q tag c.
Proof.
  intros H Htag. unfold SearchRoute.dbQuery, Contract.search_selects.
  assert (Hq : Js.param_or_empty q = ""%string
               /\ (forall t, Contract.when_present q t = true)
               \/ exists s, q = Some s /\ Js.param_or_empty q = s
                            /\ (s =? "")%string = false).
  { destruct q as [s|]; simpl; [|now left].
    destruct (s =? "")%string eqn:E; [left | right; now exists s].
    split; [reflexivity | intros t; reflexivity]. }
  assert (Ht : tag = None \/ tag = Some ""%string
               \/ exists t, tag = Some t /\ (t =? "")%string = false
                            /\ tags_filter (Some [t]) = Ok (tags_contain [Some t])).
  { destruct tag as [t|]; [|now left]. right.
    destruct (t =? "")%string eqn:E.
    - left. apply String.eqb_eq in E. now subst.
    - right. exists t. cbn in Htag. rewrite E in Htag.
      split; [reflexivity|]. split; [exact E|]. now apply tags_filter_plain. }
  destruct Hq as [[Hq Hw] | [s [-> [Hq Hs]]]].
  - rewrite Hq. cbn [String.eqb negb].
    destruct Ht as [-> | [-> | [t [-> [Et Hf]]]]]; cbn [String.eqb negb];
      rewrite ?Et; cbn [negb]; unfold where_clause;
      cbn [or_ilike or_ contains_tags_ contains_tags eq_id eq_owner_id_
           eq_owner_id from_contacts text_filter id_filter];
      rewrite ?Hf; cbn [tags_filter];
      (eexists; split; [reflexivity|]); intros c;
      rewrite Hw; unfold own, Contract.when_present; cbn; rewrite ?Et;
      destruct (owner_id c =? uid)%N; cbn; rewrite ?andb_true_r;
      try reflexivity.
    apply PgFacts.tags_contain_one.
  - rewrite Hq in *. rewrite Hs. cbn [negb].
    destruct (search_filter _ H) as [ps [Hps Hholds]].
    destruct Ht as [-> | [-> | [t [-> [Et Hf]]]]]; cbn [String.eqb negb];
      rewrite ?Et; cbn [negb]; unfold where_clause;
      cbn [or_ilike or_ contains_tags_ contains_tags eq_id eq_owner_id_
           eq_owner_id from_contacts text_filter id_filter];
      rewrite Hps, ?Hf; cbn [tags_filter];
      (eexists; split; [reflexivity|]); intros c;
      unfold own, Contract.when_present; cbn; rewrite ?Et, ?Hs, ?Hholds;
      destruct (owner_id c =? uid)%N; cbn; rewrite ?andb_true_r, ?orb_false_r;
      try reflexivity.
    now rewrite PgFacts.tags_contain_one.
Qed.

(** C6, as amended: for an authenticated caller, a query free of
    filter syntax and a tag free of array syntax (with no white space
    at its ends, and not the word NULL), Search returns exactly the
    caller's contacts that contain the query case-insensitively in
    custom name, whatsapp name, phone number, email or company (when a
    query is present) and carry the tag (when a tag is present), both
    filters combined, by ascending custom name. *)
Theorem search_returns_matching (ctx : context) (uid : uuid) (d : database)
  (q tag : option string) :
  Contract.signed_in ctx uid ->
  Contract.plain_query (Js.param_or_empty q) = true ->
  Contract.plain_tag_param tag = true ->
  exists cs,
    SearchRoute.GET ctx q tag d
    = (ok (SearchResult cs (List.length cs) (Js.param_or_empty q) tag),
       record SELECT Contacts d)
    /\ Permutation cs (filter (Contract.search_selects uid q tag) (contacts d))
    /\ StronglySorted Contract.by_name cs.
Proof.
  intros Hin Hplain Htag. apply AuthFacts.authenticated_some in Hin.
  destruct (search_where uid q tag Hplain Htag) as [p [Hp Hsel]].
  unfold SearchRoute.GET. rewrite Hin. unfold bind.
  rewrite (order_returns _ _ _ Hp).
  rewrite (filter_ext _ _ Hsel).
  eexists. split; [reflexivity|]. split.
  - apply PgFacts.order_permutation.
  - apply PgFacts.order_sorted.
Qed.

Lemma search_returns_matching_witness :
  Contract.signed_in Sample.caller 1%N
  /\ Contract.plain_query (Js.param_or_empty (Some "john"%string)) = true
  /\ Contract.plain_tag_param (Some "vip2"%string) = true
  /\ exists cs,
       SearchRoute.GET Sample.caller (Some "john"%string) (Some "vip2"%string)
         Sample.address_book
       = (ok (SearchResult cs (List.length cs) "john" (Some "vip2"%string)),
          record SELECT Contacts Sample.address_book)
       /\ Permutation cs [Sample.mary]
       /\ StronglySorted Contract.by_name cs.
Proof.
  split; [split; reflexivity|]. split; [reflexivity|]. split; [reflexivity|].
  apply (@search_returns_matching Sample.caller 1%N Sample.address_book
           (Some "john"%string) (Some "vip2"%string));
    [split; reflexivity | reflexivity | reflexivity].
Defined.

(** C6, as stated, fails.  The query [_] is a wildcard, so Search
    returns every contact of the caller with a non-empty text column,
    though none of them contains an underscore.  And the tag is read as
    an array literal: [vip,vip] asks for the tag vip, and finds the
    contact tagged vip, which does not carry a tag [vip,vip]. *)
Lemma search_wildcard_counterexample :
  Http.listed (fst (SearchRoute.GET Sample.caller (Some "_"%string) None
                      Sample.address_book))
  = Some [Sample.al; Sample.john; Sample.mary]
  /\ filter (Contract.search_selects 1%N (Some "_"%string) None)
       (contacts Sample.address_book) = []
  /\ Http.listed (fst (SearchRoute.GET Sample.caller None (Some "vip,vip"%string)
                         Sample.address_book))
     = Some [Sample.john]
  /\ filter (Contract.search_selects 1%N None (Some "vip,vip"%string))
       (contacts Sample.address_book) = [].
Proof. repeat split. Qed.

(** The tag as the database reads it: white space around it is
    dropped, and a brace that closes the literal early refuses the
    request. *)
Example search_tag_literal :
  Http.listed (fst (SearchRoute.GET Sample.caller None (Some " vip "%string)
                      Sample.address_book))
  = Some [Sample.john]
  /\ fst (SearchRoute.GET Sample.caller None (Some "vip}"%string)
            Sample.address_book)
     = fail 500 "Failed to search contacts"
  /\ Http.listed (fst (SearchRoute.GET Sample.caller None (Some "null"%string)
                         Sample.address_book))
     = Some [].
Proof. repeat split. Qed.

(** The specification's examples: [q=john] finds "John Doe" and the
    contact whose email is john@x.com; [tag=vip] finds the contact
    tagged vip and not the one tagged vip2. *)
Example search_john :
  Http.listed (fst (SearchRoute.GET Sample.caller (Some "john"%string) None
                      Sample.address_book))
  = Some [Sample.john; Sample.mary].
Proof. reflexivity. Qed.

Example search_tag_vip :
  Http.listed (fst (SearchRoute.GET Sample.caller None (Some "vip"%string)
                      Sample.address_book))
  = Some [Sample.john].
Proof. reflexivity. Qed.

(** C9: for an authenticated caller, Search with no query (or an
    empty one) and no tag lists the same contacts in the same order as
    List: all contacts owned by the caller, by ascending custom name. *)
Theorem search_without_filters_is_list (ctx : context) (uid : uuid)
  (d : database) (q : option string) :
  Contract.signed_in ctx uid ->
  q = None \/ q = Some ""%string ->
  exists cs,
    Http.listed (fst (SearchRoute.GET ctx q None d)) = Some cs
    /\ Http.listed (fst (ContactsRoute.GET ctx d)) = Some cs
    /\ snd (SearchRoute.GET ctx q None d) = snd (ContactsRoute.GET ctx d)
    /\ Permutation cs (filter (own uid) (contacts d))
    /\ StronglySorted Contract.by_name cs.
Proof.
  intros Hin Hq. rewrite (list_returns d Hin).
  apply AuthFacts.authenticated_some in Hin.
  exists (order_by_custom_name (filter (own uid) (contacts d))).
  assert (E : SearchRoute.GET ctx q None d
              = (ok (SearchResult
                       (order_by_custom_name (filter (own uid) (contacts d)))
                       (List.length
                          (order_by_custom_name (filter (own uid) (contacts d))))
                       "" None),
                 record SELECT Contacts d)).
  { unfold SearchRoute.GET. rewrite Hin. unfold bind.
    assert (Hp : Js.param_or_empty q = ""%string) by (destruct Hq; now subst).
    rewrite Hp. erewrite order_returns by reflexivity.
    erewrite filter_ext; [reflexivity|].
    intros c. unfold own. cbn. now destruct (owner_id c =? uid)%N. }
  rewrite E. cbn [fst snd]. repeat split.
  - apply PgFacts.order_permutation.
  - apply PgFacts.order_sorted.
Qed.

Lemma search_without_filters_is_list_witness :
  Contract.signed_in Sample.caller 1%N
  /\ exists cs,
       Http.listed (fst (SearchRoute.GET Sample.caller (Some ""%string) None
                           Sample.address_book)) = Some cs
       /\ Http.listed (fst (ContactsRoute.GET Sample.caller Sample.address_book))
          = Some cs
       /\ cs = [Sample.al; Sample.john; Sample.mary].
Proof.
  split; [split; reflexivity|].
  destruct (@search_without_filters_is_list Sample.caller 1%N
              Sample.address_book (Some ""%string))
    as [cs [H1 [H2 _]]]; [split; reflexivity | now right |].
  exists cs. repeat split; try assumption.
  vm_compute in H1. now injection H1 as <-.
Defined.

End SearchFacts.

(** ** Group members *)

Module MembersFacts.

Import Pg Supabase Http.





(** A junction row that comes without its joined contact is listed
    with the contact's identifier and blank texts. *)
Example member_without_contact :
  MembersRoute.format_member (mkContactGroupMemberData 7 None)
  = mkMember 7 "" "" "" 0.
Proof. reflexivity. Qed.

Lemma no_duplicate_stored (stored batch : list group_member) (r : group_member) :
  In r batch -> In r stored -> no_duplicate stored batch = false.
Proof.
  revert stored. induction batch as [|r0 batch IH]; intros stored Hb Hs.
  - destruct Hb.
  - cbn. destruct Hb as [-> | Hb].
    + replace (existsb (same_member r) stored) with true; [reflexivity|].
      symmetry. apply existsb_exists. exists r. split; [exact Hs|].
      unfold same_member. now rewrite N.eqb_refl, String.eqb_refl.
    + rewrite (IH (r0 :: stored) Hb (or_intror Hs)). apply andb_false_r.
Qed.

(** C1, on the code: when [group_members] carries its unique
    constraint and one of the submitted pairs is already stored,
    Add-members does not skip the pair: the insert is refused as a
    whole, the handler answers 500, and no row is added. *)
Theorem add_members_duplicate_fails (ctx : context) (uid g : uuid)
  (ids : list string) (u : string) (d : database) :
  Contract.signed_in ctx uid ->
  fst (select_group_single g uid d) = Ok g ->
  group_members_unique d = true ->
  In u ids ->
  In (mkGroupMember g u) (group_members d) ->
  exists d',
    MembersRoute.POST ctx g [("userIds"%string, Js.Arr ids)] d
    = (mkResponse 500
         (Failure "Failed to add members"
            (Some "duplicate key value violates unique constraint"%string)),
       d')
    /\ group_members d' = group_members d.
Proof.
  intros Hin Hg Hu Hids Hrow. apply AuthFacts.authenticated_some in Hin.
  unfold MembersRoute.POST. rewrite Hin.
  change (Js.field [("userIds"%string, Js.Arr ids)] "userIds") with (Js.Arr ids).
  cbn [Js.truthy Js.isArray negb orb MembersRoute.items_of].
  destruct ids as [|i ids]; [destruct Hids|].
  cbn [List.length Nat.eqb]. unfold bind.
  destruct (select_group_single g uid d) as [r d1] eqn:Eg.
  cbn in Hg. subst r. cbn [data_of].
  assert (Hd1 : d1 = record SELECT ChatGroups d).
  { unfold select_group_single in Eg. now injection Eg as _ <-. }
  unfold insert_members. subst d1. cbn [group_members_unique group_members record].
  rewrite Hu.
  rewrite (@no_duplicate_stored (group_members d)
             (map (fun userId => mkGroupMember g userId) (i :: ids))
             (mkGroupMember g u)); [| now apply in_map | exact Hrow].
  cbn. eexists. split; reflexivity.
Qed.

Lemma add_members_duplicate_fails_witness :
  Contract.signed_in Sample.caller 1%N
  /\ exists d',
       MembersRoute.POST Sample.caller 30
         [("userIds"%string, Js.Arr ["u2"; "u1"]%string)] Sample.address_book
       = (mkResponse 500
            (Failure "Failed to add members"
               (Some "duplicate key value violates unique constraint"%string)),
          d')
       /\ group_members d' = [mkGroupMember 30 "u1"].
Proof.
  split; [split; reflexivity|].
  apply (@add_members_duplicate_fails Sample.caller 1%N 30%N
           ["u2"; "u1"]%string "u1"%string Sample.address_book).
  - split; reflexivity.
  - reflexivity.
  - reflexivity.
  - right. left. reflexivity.
  - left. reflexivity.
Defined.

(** Were the table declared without the constraint, the same request
    would succeed and store the pair a second time. *)
Example add_members_without_constraint :
  let r := MembersRoute.POST Sample.caller 30
             [("userIds"%string, Js.Arr ["u1"]%string)]
             Sample.address_book_no_constraint in
  fst r = ok (Added "1 member(s) added successfully" 1)
  /\ group_members (snd r) = [mkGroupMember 30 "u1"; mkGroupMember 30 "u1"].
Proof. split; reflexivity. Qed.

(** A pair not yet stored is added once, and adding it again fails. *)
Example add_members_twice :
  let body := [("userIds"%string, Js.Arr ["u2"]%string)] in
  let first := MembersRoute.POST Sample.caller 30 body Sample.address_book in
  let second := MembersRoute.POST Sample.caller 30 body (snd first) in
  status (fst first) = 200 /\ status (fst second) = 500
  /\ group_members (snd second)
     = [mkGroupMember 30 "u1"; mkGroupMember 30 "u2"].
Proof. repeat split. Qed.

End MembersFacts.

(** ** The group-management dialog *)

Module DialogFacts.

Import Pg GroupManagementDialog.

Lemma includes_In (ids : list uuid) (x : uuid) :
  includes ids x = true <-> In x ids.
Proof.
  unfold includes. rewrite existsb_exists. split.
  - intros [y [Hy E]]. apply N.eqb_eq in E. now subst.
  - intros H. exists x. split; [exact H | apply N.eqb_refl].
Qed.

(** Toggling keeps the selection free of repetitions. *)
Lemma handleToggleUser_NoDup (userId : uuid) (prev : list uuid) :
  NoDup prev -> NoDup (handleToggleUser userId prev).
Proof.
  intros H. unfold handleToggleUser.
  destruct (includes prev userId) eqn:E.
  - now apply NoDup_filter.
  - apply NoDup_app; [exact H | repeat constructor; intros [] |].
    intros x Hx [<- | []]. apply includes_In in Hx. congruence.
Qed.

Lemma toAdd_In (selected current : list uuid) (x : uuid) :
  In x (toAdd selected current) <-> In x selected /\ ~ In x current.
Proof.
  unfold toAdd. rewrite filter_In, negb_true_iff, <- not_true_iff_false.
  now rewrite includes_In.
Qed.

Lemma toRemove_In (selected current : list uuid) (x : uuid) :
  In x (toRemove selected current) <-> In x current /\ ~ In x selected.
Proof.
  unfold toRemove. rewrite filter_In, negb_true_iff, <- not_true_iff_false.
  now rewrite includes_In.
Qed.

Lemma memberships_of_group (g g' : uuid) (ids : list uuid) :
  map fst (filter (fun m => (snd m =? g')%N) (map (fun c => (c, g)) ids))
  = if (g =? g')%N then ids else [].
Proof.
  induction ids as [|i ids IH]; cbn; [now destruct (g =? g')%N|].
  destruct (g =? g')%N; cbn; now rewrite IH.
Qed.

(** The requests an edit-mode save sends once its checks pass. *)
Lemma save_requests (st : state) (g : Group) (net : replies) (P : list uuid) :
  Text.trim (name st) <> ""%string ->
  selectedUserIds st <> [] ->
  update_ok net = true ->
  currentMembers net = Some P ->
  forall g',
    removals g' (handleSave st (Some g) net)
    = (if (group_id g =? g')%N then toRemove (selectedUserIds st) P else [])
    /\ additions g' (handleSave st (Some g) net)
       = (if (group_id g =? g')%N then toAdd (selectedUserIds st) P else [])
    /\ saved (handleSave st (Some g) net) = true.
Proof.
  intros Hname Hsel Hok HP g'. unfold handleSave.
  apply String.eqb_neq in Hname. rewrite Hname.
  destruct (selectedUserIds st) as [|s0 S] eqn:ES; [congruence|].
  cbn [List.length Nat.eqb]. rewrite Hok, HP. cbn [negb].
  unfold removals, additions. cbn [issued saved].
  generalize (toRemove (s0 :: S) P) (toAdd (s0 :: S) P). intros R A.
  rewrite !flat_map_app.
  assert (HR : flat_map (removed_from g')
                 (if 0 <? List.length R then [DeleteMembers (group_id g) R] else [])
               = if (group_id g =? g')%N then R else []).
  { destruct R; cbn; destruct (group_id g =? g')%N; now rewrite ?app_nil_r. }
  assert (HA : flat_map (added_to g')
                 (if 0 <? List.length A
                  then [InsertMembers (map (fun c => (c, group_id g)) A)] else [])
               = if (group_id g =? g')%N then A else []).
  { destruct A as [|a A]; [cbn; now destruct (group_id g =? g')%N|].
    cbn [List.length Nat.ltb Nat.leb flat_map added_to].
    now rewrite memberships_of_group, app_nil_r. }
  assert (HR' : flat_map (added_to g')
                  (if 0 <? List.length R then [DeleteMembers (group_id g) R] else [])
                = []) by (now destruct R).
  assert (HA' : flat_map (removed_from g')
                  (if 0 <? List.length A
                   then [InsertMembers (map (fun c => (c, group_id g)) A)] else [])
                = []) by (now destruct A).
  rewrite HR, HA, HR', HA'. cbn. rewrite app_nil_r. repeat split.
Qed.

(** C8: an edit-mode save whose checks pass, with previous
    membership [P] and selection [S], removes exactly the identifiers
    in [P] but not in [S] and adds exactly those in [S] but not in [P],
    for the edited group and for no other; an identifier in both is in
    neither request. *)
Theorem save_issues_only_the_delta (st : state) (g : Group) (net : replies)
  (P : list uuid) :
  Text.trim (name st) <> ""%string ->
  selectedUserIds st <> [] ->
  update_ok net = true ->
  currentMembers net = Some P ->
  let S := selectedUserIds st in
  let o := handleSave st (Some g) net in
  (forall x, In x (removals (group_id g) o) <-> In x P /\ ~ In x S)
  /\ (forall x, In x (additions (group_id g) o) <-> In x S /\ ~ In x P)
  /\ (forall x, In x P -> In x S ->
        ~ In x (removals (group_id g) o) /\ ~ In x (additions (group_id g) o))
  /\ (forall g', g' <> group_id g -> removals g' o = [] /\ additions g' o = [])
  /\ saved o = true.
Proof.
  intros Hname Hsel Hok HP S o.
  pose proof (@save_requests st g net P Hname Hsel Hok HP) as H.
  assert (Hr : removals (group_id g) o = toRemove S P).
  { destruct (H (group_id g)) as [E _]. now rewrite N.eqb_refl in E. }
  assert (Ha : additions (group_id g) o = toAdd S P).
  { destruct (H (group_id g)) as [_ [E _]]. now rewrite N.eqb_refl in E. }
  rewrite Hr, Ha. split; [|split; [|split; [|split]]].
  - intros x. apply toRemove_In.
  - intros x. apply toAdd_In.
  - intros x HxP HxS. rewrite toRemove_In, toAdd_In. tauto.
  - intros g' Hg'. destruct (H g') as [E1 [E2 _]]. fold o in E1, E2.
    rewrite E1, E2.
    destruct (N.eqb_spec (group_id g) g'); [congruence | now split].
  - now destruct (H (group_id g)) as [_ [_ E]].
Qed.

(** The specification's scenario: members {A,B} = {7,8}, selection
    {B,C} = {8,9}; the save removes 7, adds 9 and leaves 8 alone. *)
Lemma save_issues_only_the_delta_witness :
  let st := mkState "Friends" "" [8; 9]%N in
  let g := mkGroup 30 "Friends" None 2 in
  let net := mkReplies true (Some [7; 8]%N) true in
  issued (handleSave st (Some g) net)
  = [PutGroup 30 "Friends" ""; SelectMembers 30; DeleteMembers 30 [7]%N;
     InsertMembers [(9, 30)]%N]
  /\ (forall x, In x (removals 30 (handleSave st (Some g) net))
                <-> In x [7; 8]%N /\ ~ In x [8; 9]%N).
Proof.
  intros st g net. split; [reflexivity|].
  apply (@save_issues_only_the_delta st g net [7; 8]%N).
  - discriminate.
  - discriminate.
  - reflexivity.
  - reflexivity.
Defined.

End DialogFacts.

(** ** Create, update and delete *)

Module ContactFacts.

Import Pg Supabase Http.


Lemma optional_text_trims (v : Js.value) :
  Contract.optional_text v ->
  Js.trim_or_null v = Js.Normal (Contract.stored_text v).
Proof. intros [-> | [-> | [s ->]]]; reflexivity. Qed.

(** Evaluate the six optional [trim] calls of an object literal. *)
Ltac trim_optional_texts Ho :=
  unfold Contract.optional_texts in Ho;
  repeat match goal with
         | H : Forall _ (_ :: _) |- _ => inversion_clear H
         end;
  repeat match goal with
         | H : Contract.optional_text _ |- _ =>
             rewrite (optional_text_trims H); clear H
         end.


Lemma ids_bounded (rows : list contact) (c : contact) :
  In c rows -> (id c <= fold_right N.max 0 (map id rows))%N.
Proof.
  induction rows as [|r rows IH]; cbn; [tauto|].
  intros [-> | H]; [lia|]. specialize (IH H). lia.
Qed.

Lemma gen_random_uuid_fresh (rows : list contact) :
  ~ In (gen_random_uuid rows) (map id rows).
Proof.
  unfold gen_random_uuid. intros H. apply in_map_iff in H as [c [E Hc]].
  apply ids_bounded in Hc. lia.
Qed.

Lemma supplied_tags_kept (v : Js.value) :
  Js.array_or_null v = Contract.supplied_tags v.
Proof.
  unfold Js.array_or_null.
  destruct v; cbn [Js.isArray]; rewrite ?andb_false_r; reflexivity.
Qed.


(** A value on which [.trim()] cannot be called: neither a string nor
    nullish. *)
Lemma trim_throws (v : Js.value) :
  (forall s, v <> Js.Str s) -> v <> Js.Undefined -> v <> Js.Null ->
  Js.call_trim v = Js.Throw "TypeError"
  /\ Js.trim_or_null v = Js.Throw "TypeError".
Proof.
  intros Hs Hu Hn. destruct v; try (now split); congruence.
Qed.

Lemma insert_object_throws (ctx : context) (b : Js.object) (k : string) :
  In k Invariant.text_fields ->
  Invariant.not_text (Js.field b k) ->
  exists what, ContactsRoute.insert_object ctx b = Js.Throw what.
Proof.
  intros Hk [Hs [Hu Hn]]. destruct (trim_throws Hs Hu Hn) as [T1 T2].
  unfold ContactsRoute.insert_object. cbn in Hk.
  repeat (destruct Hk as [<- | Hk]; [|]); try destruct Hk;
    rewrite ?T1, ?T2;
    repeat (cbn [Js.and_then];
            match goal with
            | |- context [Js.and_then (Js.call_trim ?v) _] =>
                destruct (Js.call_trim v)
            | |- context [Js.and_then (Js.trim_or_null ?v) _] =>
                destruct (Js.trim_or_null v)
            end);
    cbn [Js.and_then]; eauto.
Qed.




(** *** One contact, addressed by identifier *)

Lemma by_id_where (uid cid : uuid) :
  exists w,
    where_clause (eq_owner_id_ uid (eq_id_ (Uuid cid) from_contacts)) = Ok w
    /\ forall c, own uid c && w c = Contract.targets uid cid c.
Proof.
  eexists. split; [reflexivity|]. intros c.
  unfold own, Contract.targets. cbn.
  destruct (id c =? cid)%N, (owner_id c =? uid)%N; reflexivity.
Qed.

(** A segment that is no uuid refuses the statement. *)
Lemma not_uuid_where (uid : uuid) :
  where_clause (eq_owner_id_ uid (eq_id_ NotUuid from_contacts))
  = Err invalid_uuid.
Proof. reflexivity. Qed.

Lemma not_callers_no_target (uid cid : uuid) (d : database) :
  Contract.not_callers uid cid d ->
  filter (Contract.targets uid cid) (contacts d) = [].
Proof.
  intros H. unfold Contract.not_callers in H.
  induction (contacts d) as [|c rows IH]; [reflexivity|]. cbn.
  rewrite IH by (intros x Hx; apply H; now right).
  unfold Contract.targets.
  destruct (N.eqb_spec (id c) cid) as [E|]; [|reflexivity].
  destruct (N.eqb_spec (owner_id c) uid) as [E'|]; [|reflexivity].
  exfalso. exact (H c (or_introl eq_refl) E E').
Qed.

Lemma update_single_by_id (uid cid : uuid) (now : timestamptz)
  (p : update_payload) (d : database) :
  update_single uid now p (eq_owner_id_ uid (eq_id_ (Uuid cid) from_contacts)) d
  = match single (map (updated_row now p)
                    (filter (Contract.targets uid cid) (contacts d))) with
    | Err e => (Err e, record UPDATE Contacts d)
    | Ok row =>
        (Ok row,
         with_contacts
           (map (fun c => if Contract.targets uid cid c
                          then updated_row now p c else c) (contacts d))
           (record UPDATE Contacts d))
    end.
Proof.
  destruct (by_id_where uid cid) as [w [Hw Ht]].
  unfold update_single. rewrite Hw.
  rewrite (filter_ext _ _ Ht).
  rewrite (map_ext (fun c => if own uid c && w c then updated_row now p c else c)
             (fun c => if Contract.targets uid cid c
                       then updated_row now p c else c))
    by (intros c; now rewrite Ht).
  reflexivity.
Qed.

Lemma delete_by_id (uid cid : uuid) (d : database) :
  delete_ uid (eq_owner_id_ uid (eq_id_ (Uuid cid) from_contacts)) d
  = (Ok tt,
     with_contact_groups
       (filter
          (fun m =>
             negb (existsb (N.eqb (m_contact_id m))
                     (map id (filter (Contract.targets uid cid) (contacts d)))))
          (contact_groups d))
       (with_contacts
          (filter (fun c => negb (Contract.targets uid cid c)) (contacts d))
          (record DELETE Contacts d))).
Proof.
  destruct (by_id_where uid cid) as [w [Hw Ht]].
  unfold delete_. rewrite Hw.
  rewrite (filter_ext _ _ Ht).
  rewrite (filter_ext (fun c => negb (own uid c && w c))
             (fun c => negb (Contract.targets uid cid c)))
    by (intros c; now rewrite Ht).
  reflexivity.
Qed.

Lemma update_object_of_texts (b : Js.object) (name : string) :
  Js.field b "customName" = Js.Str name ->
  Contract.optional_texts b ->
  ContactIdRoute.update_object b
  = Js.Normal
      (mkUpdate (Text.trim name)
         (Contract.stored_text (Js.field b "whatsappName"))
         (Contract.stored_text (Js.field b "email"))
         (Contract.stored_text (Js.field b "company"))
         (Contract.stored_text (Js.field b "position"))
         (Contract.stored_text (Js.field b "address"))
         (Contract.stored_text (Js.field b "notes"))
         (Contract.supplied_tags (Js.field b "tags"))).
Proof.
  intros Hn Ho. unfold ContactIdRoute.update_object. rewrite Hn.
  trim_optional_texts Ho. rewrite supplied_tags_kept. reflexivity.
Qed.

(** Get-by-id maps the missing row to 404. *)
Lemma get_missing_contact_is_404 (ctx : context) (uid cid : uuid)
  (d : database) :
  Contract.signed_in ctx uid ->
  Contract.not_callers uid cid d ->
  ContactIdRoute.GET ctx (Uuid cid) d
  = (mkResponse 404 (Failure "Contact not found" None),
     record SELECT Contacts d).
Proof.
  intros Hin Hno. apply AuthFacts.authenticated_some in Hin.
  unfold ContactIdRoute.GET. rewrite Hin. unfold bind, select_single.
  destruct (by_id_where uid cid) as [w [Hw Ht]]. rewrite Hw.
  unfold visible. rewrite SearchFacts.filter_filter, (filter_ext _ _ Ht).
  now rewrite (not_callers_no_target Hno).
Qed.

(** C2, on the code: Update on a contact that does not exist, or
    that is not the caller's, with a well-formed body, answers 500
    "Failed to update contact" and not 404: the missing row surfaces
    as the error of [.single()], which the handler rethrows.  So does
    an identifier that is no uuid. *)
Theorem update_missing_contact_is_500 (ctx : context) (uid : uuid)
  (contactId : uuid_text) (b : Js.object) (name : string) (d : database) :
  Contract.signed_in ctx uid ->
  Js.field b "customName" = Js.Str name ->
  name <> ""%string ->
  Contract.optional_texts b ->
  (forall cid, contactId = Uuid cid -> Contract.not_callers uid cid d) ->
  ContactIdRoute.PUT ctx contactId b d
  = (mkResponse 500 (Failure "Failed to update contact" None),
     record UPDATE Contacts d).
Proof.
  intros Hin Hn Hne Ho Hno. apply AuthFacts.authenticated_some in Hin.
  unfold ContactIdRoute.PUT. rewrite Hin, (update_object_of_texts Hn Ho), Hn.
  apply String.eqb_neq in Hne. cbn [Js.truthy]. rewrite Hne. cbn [negb].
  unfold bind. destruct contactId as [cid|].
  - rewrite update_single_by_id, (not_callers_no_target (Hno cid eq_refl)).
    reflexivity.
  - unfold update_single. rewrite not_uuid_where. reflexivity.
Qed.

Lemma update_missing_contact_is_500_witness :
  Contract.signed_in Sample.caller 1
  /\ Contract.not_callers 1 99 Sample.empty_db
  /\ ContactIdRoute.PUT Sample.caller (Uuid 99) Sample.rename_to_bob
       Sample.empty_db
     = (mkResponse 500 (Failure "Failed to update contact" None),
        record UPDATE Contacts Sample.empty_db)
  /\ ContactIdRoute.PUT Sample.caller (Uuid 10) Sample.rename_to_bob
       Sample.address_book
     = (mkResponse 500 (Failure "Failed to update contact" None),
        record UPDATE Contacts Sample.address_book)
  /\ ContactIdRoute.PUT Sample.caller NotUuid Sample.rename_to_bob
       Sample.address_book
     = (mkResponse 500 (Failure "Failed to update contact" None),
        record UPDATE Contacts Sample.address_book).
Proof.
  assert (S : Contract.signed_in Sample.caller 1) by (split; reflexivity).
  assert (N0 : Contract.not_callers 1 99 Sample.empty_db) by (intros c []).
  split; [exact S|]. split; [exact N0|]. split; [|split].
  - apply (@update_missing_contact_is_500 Sample.caller 1%N (Uuid 99)
             Sample.rename_to_bob "Bob"%string
             Sample.empty_db S eq_refl); [discriminate | repeat constructor |].
    intros cid E. injection E as <-. exact N0.
  - apply (@update_missing_contact_is_500 Sample.caller 1%N (Uuid 10)
             Sample.rename_to_bob "Bob"%string
             Sample.address_book S eq_refl); [discriminate | repeat constructor |].
    intros cid E. injection E as <-.
    intros c Hc. cbn in Hc.
    destruct Hc as [<- | [<- | [<- | [<- | []]]]]; cbn; intros E;
      discriminate.
  - apply (@update_missing_contact_is_500 Sample.caller 1%N NotUuid
             Sample.rename_to_bob "Bob"%string
             Sample.address_book S eq_refl); [discriminate | repeat constructor |].
    intros cid E. discriminate E.
Defined.

(** C3, as amended: for an authenticated caller and an identifier
    that is the text of a uuid, Delete answers success whether or not
    the row exists; a row that exists and is the caller's is removed,
    every other row stays, and when no row of the caller carries the
    identifier both tables are left as they were.  For an identifier
    that is no uuid the statement is refused: Delete answers 500, and
    every table is left as it was. *)
Theorem delete_contact_outcome (ctx : context) (uid : uuid) (d : database) :
  Contract.signed_in ctx uid ->
  (forall cid,
      exists d',
        ContactIdRoute.DELETE ctx (Uuid cid) d
        = (mkResponse 200 (Done "Contact deleted successfully"), d')
        /\ (forall c, In c (contacts d')
                      <-> In c (contacts d) /\ ~ (id c = cid /\ owner_id c = uid))
        /\ (Contract.not_callers uid cid d ->
            contacts d' = contacts d /\ contact_groups d' = contact_groups d))
  /\ ContactIdRoute.DELETE ctx NotUuid d
     = (mkResponse 500 (Failure "Failed to delete contact" None),
        record DELETE Contacts d).
Proof.
  intros Hin. apply AuthFacts.authenticated_some in Hin.
  unfold ContactIdRoute.DELETE. rewrite Hin. unfold bind. split.
  - intros cid.
    rewrite delete_by_id. eexists. split; [reflexivity|]. cbn. split.
    + intros c. rewrite filter_In, negb_true_iff. unfold Contract.targets.
      rewrite andb_false_iff, !N.eqb_neq. split.
      * intros [Hc H]. split; [exact Hc|]. intros [E1 E2]. tauto.
      * intros [Hc H]. split; [exact Hc|].
        destruct (N.eq_dec (id c) cid); [right | left]; tauto.
    + intros Hno. rewrite (not_callers_no_target Hno). cbn. split.
      * apply forallb_filter_id, forallb_forall. intros c Hc.
        apply negb_true_iff.
        pose proof (not_callers_no_target Hno) as E.
        destruct (Contract.targets uid cid c) eqn:T; [|reflexivity].
        assert (Hf : In c (filter (Contract.targets uid cid) (contacts d)))
          by (apply filter_In; now split).
        rewrite E in Hf. destruct Hf.
      * apply forallb_filter_id, forallb_forall. reflexivity.
  - unfold delete_. rewrite not_uuid_where. reflexivity.
Qed.

Lemma delete_contact_outcome_witness :
  Contract.signed_in Sample.caller 1
  /\ (exists d',
        ContactIdRoute.DELETE Sample.caller (Uuid 7) Sample.address_book
        = (mkResponse 200 (Done "Contact deleted successfully"), d')
        /\ (forall c, In c (contacts d')
                      <-> In c (contacts Sample.address_book)
                          /\ ~ (id c = 7%N /\ owner_id c = 1%N)))
  /\ ContactIdRoute.DELETE Sample.caller NotUuid Sample.address_book
     = (mkResponse 500 (Failure "Failed to delete contact" None),
        record DELETE Contacts Sample.address_book).
Proof.
  assert (S : Contract.signed_in Sample.caller 1) by (split; reflexivity).
  split; [exact S|].
  destruct (@delete_contact_outcome Sample.caller 1%N Sample.address_book S)
    as [Hid Hno].
  split; [|exact Hno].
  destruct (Hid 7%N) as [d' [H1 [H2 _]]].
  exists d'. split; assumption.
Defined.

(** C3, as stated, fails: deleting an identifier nobody carries, or
    one that belongs to another caller, is answered 200 and not 404;
    the other caller's row stays. *)
Lemma delete_absent_counterexample :
  Contract.not_callers 1 99 Sample.address_book
  /\ fst (ContactIdRoute.DELETE Sample.caller (Uuid 99) Sample.address_book)
     = mkResponse 200 (Done "Contact deleted successfully")
  /\ fst (ContactIdRoute.DELETE Sample.caller (Uuid 10) Sample.address_book)
     = mkResponse 200 (Done "Contact deleted successfully")
  /\ contacts (snd (ContactIdRoute.DELETE Sample.caller (Uuid 10)
                      Sample.address_book))
     = contacts Sample.address_book.
Proof.
  split; [|repeat split].
  intros c Hc. cbn in Hc.
  destruct Hc as [<- | [<- | [<- | [<- | []]]]]; cbn; intros E; discriminate.
Qed.

(** Deleting one's own contact removes it and, by the cascade, its
    memberships. *)
Example delete_own_contact :
  let d' := snd (ContactIdRoute.DELETE Sample.caller (Uuid 7)
                   Sample.address_book) in
  contacts d' = [Sample.mary; Sample.john; Sample.zed]
  /\ contact_groups d' = [mkContactGroup 41 8 30 65 (Some 1%N)].
Proof. split; reflexivity. Qed.

Lemma Forall2_map_same {A} (R : A -> A -> Prop) (f : A -> A) (l : list A) :
  (forall x, In x l -> R x (f x)) -> Forall2 R l (map f l).
Proof.
  induction l as [|x l IH]; intros H; cbn; constructor.
  - apply H. now left.
  - apply IH. intros y Hy. apply H. now right.
Qed.

(** C4, as amended: a successful Update, whatever the body carries,
    leaves the contact's phone number and owner (and its identifier,
    last-active and creation time) as they were; besides the eight
    payload columns only [updated_at] changes, stamped by the store;
    every other row and every other table is untouched. *)
Theorem update_keeps_phone_and_owner (ctx : context) (uid cid : uuid)
  (b : Js.object) (d d' : database) (c' : contact) (msg : option string) :
  Contract.signed_in ctx uid ->
  ContactIdRoute.PUT ctx (Uuid cid) b d
  = (mkResponse 200 (OneContact c' msg), d') ->
  (exists c,
      In c (contacts d) /\ id c = cid /\ owner_id c = uid
      /\ phone_number c' = phone_number c
      /\ owner_id c' = owner_id c
      /\ id c' = id c
      /\ last_active c' = last_active c
      /\ created_at c' = created_at c
      /\ updated_at c' = pg_now ctx)
  /\ Forall2 (Contract.kept cid) (contacts d) (contacts d')
  /\ In c' (contacts d')
  /\ chat_groups d' = chat_groups d
  /\ contact_groups d' = contact_groups d
  /\ group_members d' = group_members d.
Proof.
  intros Hin H. apply AuthFacts.authenticated_some in Hin.
  unfold ContactIdRoute.PUT in H. rewrite Hin in H.
  destruct (negb (Js.truthy (Js.field b "customName"))); [discriminate|].
  destruct (ContactIdRoute.update_object b) as [p|]; [|discriminate].
  unfold bind in H. rewrite update_single_by_id in H.
  destruct (filter (Contract.targets uid cid) (contacts d))
    as [|c [|c2 rest]] eqn:F; cbn in H; try discriminate.
  injection H as <- _ <-.
  assert (Hc : In c (filter (Contract.targets uid cid) (contacts d)))
    by (rewrite F; now left).
  apply filter_In in Hc as [Hc T]. unfold Contract.targets in T.
  apply andb_true_iff in T as [T1 T2].
  apply N.eqb_eq in T1, T2.
  split; [|split; [|split]].
  - exists c. cbn. repeat split; assumption.
  - cbn. apply Forall2_map_same. intros x _. unfold Contract.kept.
    destruct (Contract.targets uid cid x) eqn:Tx; cbn.
    + repeat split. intros Hx. unfold Contract.targets in Tx.
      apply andb_true_iff in Tx as [Tx _]. apply N.eqb_eq in Tx. contradiction.
    + repeat split.
  - cbn. apply in_map_iff. exists c. split; [|exact Hc].
    unfold Contract.targets. rewrite T1, T2, !N.eqb_refl. reflexivity.
  - repeat split.
Qed.

Lemma update_keeps_phone_and_owner_witness :
  Contract.signed_in Sample.caller 1
  /\ exists c' d',
       ContactIdRoute.PUT Sample.caller (Uuid 7) Sample.rename_and_rehome
         Sample.address_book
       = (mkResponse 200 (OneContact c' (Some "Contact updated successfully"%string)),
          d')
       /\ custom_name c' = "Bob"%string
       /\ (exists c,
             In c (contacts Sample.address_book) /\ id c = 7%N /\ owner_id c = 1%N
             /\ phone_number c' = phone_number c
             /\ owner_id c' = owner_id c
             /\ id c' = id c
             /\ last_active c' = last_active c
             /\ created_at c' = created_at c
             /\ updated_at c' = 205%N).
Proof.
  assert (S : Contract.signed_in Sample.caller 1) by (split; reflexivity).
  split; [exact S|].
  eexists. eexists. split; [reflexivity|]. split; [reflexivity|].
  eapply (@update_keeps_phone_and_owner Sample.caller 1%N 7%N
            Sample.rename_and_rehome Sample.address_book _ _ _ S).
  reflexivity.
Defined.

(** C4, as stated, fails: a successful Update changes a column that
    is not among the eight, the update timestamp. *)
Lemma update_stamps_updated_at_counterexample :
  exists c' d',
    ContactIdRoute.PUT Sample.caller (Uuid 7) Sample.rename_to_bob
      Sample.address_book
    = (mkResponse 200 (OneContact c' (Some "Contact updated successfully"%string)),
       d')
    /\ In Sample.al (contacts Sample.address_book)
    /\ id c' = id Sample.al
    /\ updated_at Sample.al = 50%N
    /\ updated_at c' = 205%N.
Proof.
  eexists. eexists. split; [reflexivity|]. repeat split.
  right. left. reflexivity.
Qed.

End ContactFacts.

(** ** The contacts handlers, beyond their contracts *)

Module ApiFacts.

Import Pg Supabase Http.

Lemma order_In (l : list contact) (c : contact) :
  In c (order_by_custom_name l) <-> In c l.
Proof.
  split; apply Permutation_in;
    [apply PgFacts.order_permutation | symmetry; apply PgFacts.order_permutation].
Qed.

(** X1: Whatever the query and the tag, a Search that lists contacts
    lists them by ascending custom name, and lists only contacts that
    List returns to the same caller: stored rows owned by the caller. *)
Theorem search_lists_only_own (ctx : context) (uid : uuid) (d : database)
  (q tag : option string) (cs : list contact) :
  Contract.signed_in ctx uid ->
  listed (fst (SearchRoute.GET ctx q tag d)) = Some cs ->
  StronglySorted Contract.by_name cs
  /\ (forall c, In c cs -> In c (contacts d) /\ owner_id c = uid)
  /\ exists all,
       listed (fst (ContactsRoute.GET ctx d)) = Some all
       /\ forall c, In c cs -> In c all.
Proof.
  intros Hin H. rewrite (SearchFacts.list_returns d Hin).
  apply AuthFacts.authenticated_some in Hin.
  unfold SearchRoute.GET in H. rewrite Hin in H. unfold bind, order in H.
  destruct (where_clause _) as [p|e]; cbn in H; [|discriminate].
  injection H as <-.
  assert (Hc : forall c,
             In c (order_by_custom_name (filter p (visible uid (contacts d)))) ->
             In c (contacts d) /\ own uid c = true).
  { intros c Hc. apply (proj1 (order_In _ _)) in Hc.
    apply filter_In in Hc as [Hc _].
    now apply filter_In in Hc. }
  split; [apply PgFacts.order_sorted|]. split.
  - intros c Hcs. destruct (Hc c Hcs) as [H1 H2]. split; [exact H1|].
    now apply N.eqb_eq in H2.
  - eexists. split; [reflexivity|]. intros c Hcs.
    apply order_In, filter_In. now apply Hc.
Qed.

Lemma search_lists_only_own_witness :
  Contract.signed_in Sample.caller 1
  /\ forall c, In c [Sample.al; Sample.john; Sample.mary] ->
               In c (contacts Sample.address_book) /\ owner_id c = 1%N.
Proof.
  assert (S : Contract.signed_in Sample.caller 1) by (split; reflexivity).
  split; [exact S|].
  apply (@search_lists_only_own Sample.caller 1%N Sample.address_book
           (Some "%"%string) None [Sample.al; Sample.john; Sample.mary] S).
  reflexivity.
Defined.

(** *** Get by identifier *)

Lemma get_by_id (ctx : context) (uid cid : uuid) (d : database) :
  Contract.signed_in ctx uid ->
  ContactIdRoute.GET ctx (Uuid cid) d
  = (match filter (Contract.targets uid cid) (contacts d) with
     | [c] => ok (OneContact c None)
     | _ => fail 404 "Contact not found"
     end,
     record SELECT Contacts d).
Proof.
  intros Hin. apply AuthFacts.authenticated_some in Hin.
  unfold ContactIdRoute.GET. rewrite Hin. unfold bind, select_single.
  destruct (ContactFacts.by_id_where uid cid) as [w [Hw Ht]]. rewrite Hw.
  unfold visible. rewrite SearchFacts.filter_filter, (filter_ext _ _ Ht).
  destruct (filter (Contract.targets uid cid) (contacts d)) as [|c [|c2 l]];
    reflexivity.
Qed.

(** An identifier that is no uuid: the statement is refused with an
    error that is not the one of [.single()]. *)
Lemma get_not_uuid (ctx : context) (uid : uuid) (d : database) :
  Contract.signed_in ctx uid ->
  ContactIdRoute.GET ctx NotUuid d
  = (mkResponse 500 (Failure "Failed to fetch contact" None),
     record SELECT Contacts d).
Proof.
  intros Hin. apply AuthFacts.authenticated_some in Hin.
  unfold ContactIdRoute.GET. rewrite Hin. unfold bind, select_single.
  now rewrite ContactFacts.not_uuid_where.
Qed.

Lemma delete_not_uuid (ctx : context) (uid : uuid) (d : database) :
  Contract.signed_in ctx uid ->
  ContactIdRoute.DELETE ctx NotUuid d
  = (mkResponse 500 (Failure "Failed to delete contact" None),
     record DELETE Contacts d).
Proof.
  intros Hin. apply AuthFacts.authenticated_some in Hin.
  unfold ContactIdRoute.DELETE. rewrite Hin. unfold bind, delete_.
  now rewrite ContactFacts.not_uuid_where.
Qed.

Lemma put_not_uuid (ctx : context) (b : Js.object) (d : database) :
  status (fst (ContactIdRoute.PUT ctx NotUuid b d)) <> 200.
Proof.
  unfold ContactIdRoute.PUT.
  destruct (authenticated (auth ctx)) as [uid|]; [|discriminate].
  destruct (negb _); [discriminate|].
  destruct (ContactIdRoute.update_object b) as [p|]; [|discriminate].
  unfold bind, update_single. rewrite ContactFacts.not_uuid_where.
  discriminate.
Qed.

Lemma no_target_for_unused_id (uid cid : uuid) (rows : list contact) :
  ~ In cid (map id rows) -> filter (Contract.targets uid cid) rows = [].
Proof.
  induction rows as [|r rows IH]; cbn; intros H; [reflexivity|].
  rewrite IH by tauto. unfold Contract.targets.
  destruct (N.eqb_spec (id r) cid); [tauto | reflexivity].
Qed.

Lemma target_of_unique_id (uid : uuid) (rows : list contact) (c : contact) :
  NoDup (map id rows) -> In c rows -> owner_id c = uid ->
  filter (Contract.targets uid (id c)) rows = [c].
Proof.
  intros Hnd Hc Ho. induction rows as [|r rows IH]; [destruct Hc|].
  cbn in Hnd. inversion_clear Hnd as [|? ? Hr Hrows]. cbn.
  destruct Hc as [-> | Hc].
  - unfold Contract.targets at 1. rewrite Ho, !N.eqb_refl. cbn. f_equal.
    now apply no_target_for_unused_id.
  - rewrite (IH Hrows Hc).
    unfold Contract.targets.
    destruct (N.eqb_spec (id r) (id c)) as [E|]; [|reflexivity].
    exfalso. apply Hr. rewrite E. now apply in_map.
Qed.

(** X2: Get-by-id answers the caller's own contact: under the primary
    key, a stored contact owned by the caller is returned as it is
    stored, and no table changes. *)
Theorem get_own_contact (ctx : context) (uid : uuid) (d : database)
  (c : contact) :
  Contract.signed_in ctx uid ->
  Invariant.unique_ids d ->
  In c (contacts d) ->
  owner_id c = uid ->
  ContactIdRoute.GET ctx (Uuid (id c)) d
  = (mkResponse 200 (OneContact c None), record SELECT Contacts d).
Proof.
  intros Hin Hnd Hc Ho. rewrite (@get_by_id _ _ (id c) d Hin).
  now rewrite (@target_of_unique_id uid (contacts d) c Hnd Hc Ho).
Qed.

Lemma get_own_contact_witness :
  Contract.signed_in Sample.caller 1
  /\ ContactIdRoute.GET Sample.caller (Uuid 8) Sample.address_book
     = (mkResponse 200 (OneContact Sample.john None),
        record SELECT Contacts Sample.address_book).
Proof.
  assert (S : Contract.signed_in Sample.caller 1) by (split; reflexivity).
  split; [exact S|].
  apply (@get_own_contact Sample.caller 1%N Sample.address_book Sample.john S).
  - unfold Invariant.unique_ids. cbn.
    repeat constructor; cbn; intuition discriminate.
  - right. right. left. reflexivity.
  - reflexivity.
Defined.

(** X3: Get-by-id on an identifier that no contact of the caller carries
    (absent, or another account's) answers 404 "Contact not found"; on
    an identifier that is no uuid the query is refused and it answers
    500 "Failed to fetch contact". *)
Theorem get_foreign_contact_is_404 (ctx : context) (uid : uuid)
  (d : database) :
  Contract.signed_in ctx uid ->
  (forall cid,
      Contract.not_callers uid cid d ->
      ContactIdRoute.GET ctx (Uuid cid) d
      = (mkResponse 404 (Failure "Contact not found" None),
         record SELECT Contacts d))
  /\ ContactIdRoute.GET ctx NotUuid d
     = (mkResponse 500 (Failure "Failed to fetch contact" None),
        record SELECT Contacts d).
Proof.
  intros Hin. split.
  - intros cid Hno. rewrite (@get_by_id _ _ cid d Hin).
    now rewrite (ContactFacts.not_callers_no_target Hno).
  - exact (get_not_uuid d Hin).
Qed.

Lemma get_foreign_contact_is_404_witness :
  Contract.signed_in Sample.other_caller 2
  /\ ContactIdRoute.GET Sample.other_caller (Uuid 7) Sample.address_book
     = (mkResponse 404 (Failure "Contact not found" None),
        record SELECT Contacts Sample.address_book)
  /\ ContactIdRoute.GET Sample.other_caller NotUuid Sample.address_book
     = (mkResponse 500 (Failure "Failed to fetch contact" None),
        record SELECT Contacts Sample.address_book).
Proof.
  assert (S : Contract.signed_in Sample.other_caller 2) by (split; reflexivity).
  split; [exact S|].
  destruct (@get_foreign_contact_is_404 Sample.other_caller 2%N
              Sample.address_book S) as [Hid Hno].
  split; [|exact Hno]. apply Hid.
  intros c Hc. cbn in Hc.
  destruct Hc as [<- | [<- | [<- | [<- | []]]]]; cbn; intros E; discriminate.
Defined.

(** *** What a successful Create, Update or Delete did *)

Lemma create_succeeded (ctx : context) (uid : uuid) (b : Js.object)
  (d d' : database) (row : contact) (msg : option string) :
  Contract.signed_in ctx uid ->
  ContactsRoute.POST ctx b d = (mkResponse 200 (OneContact row msg), d') ->
  exists p,
    ContactsRoute.insert_object ctx b = Js.Normal p
    /\ existsb (same_owner_phone uid (ins_phone_number p)) (contacts d) = false
    /\ row = inserted_row uid (pg_now ctx) d p
    /\ d' = with_contacts (contacts d ++ [row]) (record INSERT Contacts d).
Proof.
  intros Hin H. apply AuthFacts.authenticated_some in Hin.
  unfold ContactsRoute.POST in H. rewrite Hin in H.
  destruct (negb _ || negb _); [discriminate|].
  destruct (ContactsRoute.insert_object ctx b) as [p|]; [|discriminate].
  unfold bind, insert_single in H.
  destruct (existsb _ (contacts d)) eqn:E; cbn in H; [discriminate|].
  injection H as <- _ <-. exists p. repeat split. exact E.
Qed.

Lemma update_succeeded (ctx : context) (uid cid : uuid) (b : Js.object)
  (d d' : database) (c' : contact) (msg : option string) :
  Contract.signed_in ctx uid ->
  ContactIdRoute.PUT ctx (Uuid cid) b d
  = (mkResponse 200 (OneContact c' msg), d') ->
  exists p c,
    filter (Contract.targets uid cid) (contacts d) = [c]
    /\ c' = updated_row (pg_now ctx) p c
    /\ d' = with_contacts
              (map (fun x => if Contract.targets uid cid x
                             then updated_row (pg_now ctx) p x else x)
                 (contacts d))
              (record UPDATE Contacts d).
Proof.
  intros Hin H. apply AuthFacts.authenticated_some in Hin.
  unfold ContactIdRoute.PUT in H. rewrite Hin in H.
  destruct (negb _); [discriminate|].
  destruct (ContactIdRoute.update_object b) as [p|]; [|discriminate].
  unfold bind in H. rewrite ContactFacts.update_single_by_id in H.
  destruct (filter (Contract.targets uid cid) (contacts d))
    as [|c [|c2 rest]]; cbn in H; try discriminate.
  injection H as <- _ <-. exists p, c. repeat split.
Qed.

Lemma delete_result (ctx : context) (uid cid : uuid) (d : database) :
  Contract.signed_in ctx uid ->
  ContactIdRoute.DELETE ctx (Uuid cid) d
  = (mkResponse 200 (Done "Contact deleted successfully"),
     with_contact_groups
       (filter
          (fun m =>
             negb (existsb (N.eqb (m_contact_id m))
                     (map id (filter (Contract.targets uid cid) (contacts d)))))
          (contact_groups d))
       (with_contacts
          (filter (fun c => negb (Contract.targets uid cid c)) (contacts d))
          (record DELETE Contacts d))).
Proof.
  intros Hin. apply AuthFacts.authenticated_some in Hin.
  unfold ContactIdRoute.DELETE. rewrite Hin. unfold bind.
  now rewrite ContactFacts.delete_by_id.
Qed.

Lemma filter_map_stable {A} (p : A -> bool) (f : A -> A) (l : list A) :
  (forall x, p (f x) = p x) ->
  filter p (map f l) = map f (filter p l).
Proof.
  intros H. induction l as [|x l IH]; cbn; [reflexivity|].
  rewrite H. destruct (p x); cbn; now rewrite IH.
Qed.

(** *** Round trips *)

(** X4: Create then Get: the contact a successful Create returns is the
    one Get-by-id returns to the same account under the new
    identifier, while any other account gets 404 for it. *)
Theorem create_then_get (ctx ctx1 ctx2 : context) (uid uid2 : uuid)
  (b : Js.object) (d d' : database) (row : contact) (msg : option string) :
  Contract.signed_in ctx uid ->
  ContactsRoute.POST ctx b d = (mkResponse 200 (OneContact row msg), d') ->
  Contract.signed_in ctx1 uid ->
  Contract.signed_in ctx2 uid2 ->
  uid2 <> uid ->
  fst (ContactIdRoute.GET ctx1 (Uuid (id row)) d')
  = mkResponse 200 (OneContact row None)
  /\ fst (ContactIdRoute.GET ctx2 (Uuid (id row)) d')
     = mkResponse 404 (Failure "Contact not found" None).
Proof.
  intros Hin H H1 H2 Hne.
  destruct (@create_succeeded _ _ _ _ _ _ _ Hin H) as [p [_ [_ [Hrow ->]]]].
  assert (Hfresh : ~ In (id row) (map id (contacts d)))
    by (rewrite Hrow; apply ContactFacts.gen_random_uuid_fresh).
  assert (Ho : owner_id row = uid) by now rewrite Hrow.
  rewrite (@get_by_id _ _ (id row) _ H1), (@get_by_id _ _ (id row) _ H2). cbn [fst contacts with_contacts].
  rewrite !filter_app, !(@no_target_for_unused_id _ _ _ Hfresh). cbn.
  unfold Contract.targets. rewrite Ho, !N.eqb_refl.
  destruct (N.eqb_spec uid uid2); [congruence|]. now split.
Qed.

Lemma create_then_get_witness :
  exists row d',
    ContactsRoute.POST Sample.caller SampleRequests.new_alice Sample.address_book
    = (mkResponse 200 (OneContact row (Some "Contact created successfully"%string)), d')
    /\ custom_name row = "Alice"%string
    /\ fst (ContactIdRoute.GET Sample.caller (Uuid (id row)) d')
       = mkResponse 200 (OneContact row None)
    /\ fst (ContactIdRoute.GET Sample.other_caller (Uuid (id row)) d')
       = mkResponse 404 (Failure "Contact not found" None).
Proof.
  eexists. eexists. split; [reflexivity|]. split; [reflexivity|].
  eapply (@create_then_get Sample.caller Sample.caller Sample.other_caller
            1%N 2%N SampleRequests.new_alice Sample.address_book).
  - split; reflexivity.
  - reflexivity.
  - split; reflexivity.
  - split; reflexivity.
  - discriminate.
Defined.

(** X5: Create twice: once a Create has succeeded, the same request by
    the same account is answered 409 and adds nothing. *)
Theorem create_twice_conflicts (ctx : context) (uid : uuid) (b : Js.object)
  (d d' : database) (row : contact) (msg : option string) :
  Contract.signed_in ctx uid ->
  ContactsRoute.POST ctx b d = (mkResponse 200 (OneContact row msg), d') ->
  ContactsRoute.POST ctx b d'
  = (mkResponse 409
       (Failure "Contact with this phone number already exists" None),
     record INSERT Contacts d').
Proof.
  intros Hin H.
  destruct (@create_succeeded _ _ _ _ _ _ _ Hin H) as [p [Hp [_ [Hrow ->]]]].
  apply AuthFacts.authenticated_some in Hin.
  unfold ContactsRoute.POST in *. rewrite Hin in *.
  destruct (negb _ || negb _); [discriminate|].
  rewrite Hp. unfold bind, insert_single. cbn [contacts with_contacts].
  rewrite existsb_app. cbn [existsb].
  replace (same_owner_phone uid (ins_phone_number p) row) with true.
  - cbn [orb]. rewrite orb_true_r. reflexivity.
  - rewrite Hrow. unfold same_owner_phone. cbn.
    now rewrite N.eqb_refl, String.eqb_refl.
Qed.

Lemma create_twice_conflicts_witness :
  exists row d',
    ContactsRoute.POST Sample.caller SampleRequests.new_alice Sample.address_book
    = (mkResponse 200 (OneContact row (Some "Contact created successfully"%string)), d')
    /\ ContactsRoute.POST Sample.caller SampleRequests.new_alice d'
       = (mkResponse 409
            (Failure "Contact with this phone number already exists" None),
          record INSERT Contacts d').
Proof.
  eexists. eexists. split; [reflexivity|].
  eapply (@create_twice_conflicts Sample.caller 1%N SampleRequests.new_alice
            Sample.address_book).
  - split; reflexivity.
  - reflexivity.
Defined.

(** X6: Update then Get: the contact a successful Update returns is the
    one Get-by-id returns afterwards. *)
Theorem update_then_get (ctx ctx1 : context) (uid : uuid)
  (contactId : uuid_text) (b : Js.object)
  (d d' : database) (c' : contact) (msg : option string) :
  Contract.signed_in ctx uid ->
  ContactIdRoute.PUT ctx contactId b d
  = (mkResponse 200 (OneContact c' msg), d') ->
  Contract.signed_in ctx1 uid ->
  fst (ContactIdRoute.GET ctx1 contactId d')
  = mkResponse 200 (OneContact c' None).
Proof.
  intros Hin H H1. destruct contactId as [cid|].
  2:{ exfalso. apply (@put_not_uuid ctx b d). now rewrite H. }
  destruct (@update_succeeded _ _ _ _ _ _ _ _ Hin H) as [p [c [Hc [-> ->]]]].
  rewrite (@get_by_id _ _ cid _ H1). cbn [fst contacts with_contacts].
  rewrite filter_map_stable, Hc.
  - cbn. assert (Ht : Contract.targets uid cid c = true).
    { assert (Hi : In c (filter (Contract.targets uid cid) (contacts d)))
        by (rewrite Hc; now left).
      now apply filter_In in Hi. }
    now rewrite Ht.
  - intros x. destruct (Contract.targets uid cid x) eqn:E; [|exact E].
    exact E.
Qed.

Lemma update_then_get_witness :
  exists c' d',
    ContactIdRoute.PUT Sample.caller (Uuid 7) Sample.rename_and_rehome
      Sample.address_book
    = (mkResponse 200 (OneContact c' (Some "Contact updated successfully"%string)), d')
    /\ custom_name c' = "Bob"%string
    /\ fst (ContactIdRoute.GET Sample.caller (Uuid 7) d')
       = mkResponse 200 (OneContact c' None).
Proof.
  eexists. eexists. split; [reflexivity|]. split; [reflexivity|].
  eapply (@update_then_get Sample.caller Sample.caller 1%N (Uuid 7)
            Sample.rename_and_rehome Sample.address_book).
  - split; reflexivity.
  - reflexivity.
  - split; reflexivity.
Defined.

End ApiFacts.

(** ** Constraints the handlers keep, and what they leave alone *)

Module InvariantFacts.

Import Pg Supabase Http.

(** Dropping rows keeps a key distinct. *)
Lemma keys_stay_distinct {K} (key : contact -> K) (keep : contact -> bool)
  (rows : list contact) :
  NoDup (map key rows) -> NoDup (map key (filter keep rows)).
Proof.
  induction rows as [|r rows IH]; cbn [map filter]; intros Hnd; [constructor|].
  apply NoDup_cons_iff in Hnd as [Hr Hrows].
  destruct (keep r); [|now apply IH].
  cbn [map]. apply NoDup_cons; [|now apply IH].
  contradict Hr. apply in_map_iff in Hr as [r' [E Hr']].
  apply in_map_iff. exists r'. split; [exact E|].
  now apply filter_In in Hr'.
Qed.

Lemma updated_rows_keys (uid cid : uuid) (now : timestamptz)
  (p : update_payload) (rows : list contact) :
  let step := fun x => if Contract.targets uid cid x
                       then updated_row now p x else x in
  map id (map step rows) = map id rows
  /\ map Invariant.owner_phone (map step rows) = map Invariant.owner_phone rows
  /\ Invariant.of_others uid (map step rows) = Invariant.of_others uid rows.
Proof.
  intros step. rewrite !map_map. repeat split.
  - apply map_ext. intros x. unfold step.
    now destruct (Contract.targets uid cid x).
  - apply map_ext. intros x. unfold step.
    now destruct (Contract.targets uid cid x).
  - unfold Invariant.of_others. induction rows as [|x rows IH]; [reflexivity|].
    cbn [map filter]. rewrite IH.
    assert (Hown : own uid (step x) = own uid x)
      by (unfold step; now destruct (Contract.targets uid cid x)).
    rewrite Hown. destruct (own uid x) eqn:E; cbn [negb]; [reflexivity|].
    f_equal. unfold step, Contract.targets. unfold own in E.
    rewrite E. now rewrite andb_false_r.
Qed.

(** The contacts table after any Create, Update or Delete. *)
Lemma contacts_after (ctx : context) (contactId : uuid_text) (b : Js.object)
  (d : database) :
  (let d' := snd (ContactsRoute.POST ctx b d) in
   contacts d' = contacts d
   \/ exists uid p,
        authenticated (auth ctx) = Some uid
        /\ existsb (same_owner_phone uid (ins_phone_number p)) (contacts d) = false
        /\ contacts d' = contacts d ++ [inserted_row uid (pg_now ctx) d p])
  /\ (let d' := snd (ContactIdRoute.PUT ctx contactId b d) in
      contacts d' = contacts d
      \/ exists uid p cid,
           authenticated (auth ctx) = Some uid
           /\ contacts d'
              = map (fun x => if Contract.targets uid cid x
                              then updated_row (pg_now ctx) p x else x)
                  (contacts d))
  /\ (let d' := snd (ContactIdRoute.DELETE ctx contactId d) in
      contacts d' = contacts d
      \/ exists uid cid,
           authenticated (auth ctx) = Some uid
           /\ contacts d'
              = filter (fun c => negb (Contract.targets uid cid c)) (contacts d)).
Proof.
  split; [|split].
  - unfold ContactsRoute.POST.
    destruct (authenticated (auth ctx)) as [uid|]; [|now left].
    destruct (negb _ || negb _); [now left|].
    destruct (ContactsRoute.insert_object ctx b) as [p|]; [|now left].
    unfold bind, insert_single.
    destruct (existsb _ (contacts d)) eqn:E; cbn; [now left|].
    right. exists uid, p. now repeat split.
  - unfold ContactIdRoute.PUT.
    destruct (authenticated (auth ctx)) as [uid|]; [|now left].
    destruct (negb _); [now left|].
    destruct (ContactIdRoute.update_object b) as [p|]; [|now left].
    unfold bind. destruct contactId as [cid|].
    + rewrite ContactFacts.update_single_by_id.
      destruct (single _); cbn; [|now left].
      right. exists uid, p, cid. now split.
    + unfold update_single. rewrite ContactFacts.not_uuid_where. now left.
  - unfold ContactIdRoute.DELETE.
    destruct (authenticated (auth ctx)) as [uid|]; [|now left].
    unfold bind. destruct contactId as [cid|].
    + rewrite ContactFacts.delete_by_id. cbn.
      right. exists uid, cid. now split.
    + unfold delete_. rewrite ContactFacts.not_uuid_where. now left.
Qed.

(** X7: Whoever calls them and whatever the body, Create, Update and
    Delete keep the primary key and UNIQUE(owner_id, phone_number) of
    the contacts table. *)
Theorem contacts_constraints_kept (ctx : context) (cid : uuid_text)
  (b : Js.object) (d : database) :
  Invariant.unique_ids d ->
  Invariant.unique_phones d ->
  (Invariant.unique_ids (snd (ContactsRoute.POST ctx b d))
   /\ Invariant.unique_phones (snd (ContactsRoute.POST ctx b d)))
  /\ (Invariant.unique_ids (snd (ContactIdRoute.PUT ctx cid b d))
      /\ Invariant.unique_phones (snd (ContactIdRoute.PUT ctx cid b d)))
  /\ (Invariant.unique_ids (snd (ContactIdRoute.DELETE ctx cid d))
      /\ Invariant.unique_phones (snd (ContactIdRoute.DELETE ctx cid d))).
Proof.
  unfold Invariant.unique_ids, Invariant.unique_phones. intros Hid Hph.
  destruct (contacts_after ctx cid b d) as [HP [HU HD]]. cbn zeta in *.
  split; [|split].
  - destruct HP as [-> | [uid [p [_ [E ->]]]]]; [now split|].
    rewrite !map_app. cbn [map]. split.
    + apply NoDup_app; [exact Hid | repeat constructor; intros [] |].
      intros x Hx [<- | []]. cbn in Hx.
      exact (ContactFacts.gen_random_uuid_fresh _ Hx).
    + apply NoDup_app; [exact Hph | repeat constructor; intros [] |].
      intros k Hk [<- | []]. apply in_map_iff in Hk as [c [Ek Hc]].
      unfold Invariant.owner_phone in Ek. cbn in Ek. injection Ek as E1 E2.
      assert (T : existsb (same_owner_phone uid (ins_phone_number p)) (contacts d)
                  = true).
      { apply existsb_exists. exists c. split; [exact Hc|].
        unfold same_owner_phone. now rewrite E1, E2, N.eqb_refl, String.eqb_refl. }
      congruence.
  - destruct HU as [-> | [uid [p [c [_ ->]]]]]; [now split|].
    destruct (updated_rows_keys uid c (pg_now ctx) p (contacts d))
      as [E1 [E2 _]].
    rewrite E1, E2. now split.
  - destruct HD as [-> | [uid [c [_ ->]]]]; [now split|].
    split; now apply keys_stay_distinct.
Qed.

Lemma contacts_constraints_kept_witness :
  Invariant.unique_ids Sample.address_book
  /\ Invariant.unique_phones Sample.address_book
  /\ Invariant.unique_phones
       (snd (ContactsRoute.POST Sample.caller SampleRequests.new_alice
               Sample.address_book)).
Proof.
  assert (H1 : Invariant.unique_ids Sample.address_book).
  { unfold Invariant.unique_ids. cbn.
    repeat constructor; cbn; intuition discriminate. }
  assert (H2 : Invariant.unique_phones Sample.address_book).
  { unfold Invariant.unique_phones. cbn.
    repeat constructor; cbn; intuition discriminate. }
  split; [exact H1|]. split; [exact H2|].
  apply (@contacts_constraints_kept Sample.caller (Uuid 0)
           SampleRequests.new_alice Sample.address_book H1 H2).
Defined.

(** X8: Create, Update and Delete, called by one account, leave the
    contacts of every other account exactly as they were. *)
Theorem writes_stay_with_the_caller (ctx : context) (uid : uuid)
  (cid : uuid_text) (b : Js.object) (d : database) :
  Contract.signed_in ctx uid ->
  Invariant.of_others uid (contacts (snd (ContactsRoute.POST ctx b d)))
  = Invariant.of_others uid (contacts d)
  /\ Invariant.of_others uid (contacts (snd (ContactIdRoute.PUT ctx cid b d)))
     = Invariant.of_others uid (contacts d)
  /\ Invariant.of_others uid (contacts (snd (ContactIdRoute.DELETE ctx cid d)))
     = Invariant.of_others uid (contacts d).
Proof.
  intros Hin. apply AuthFacts.authenticated_some in Hin.
  destruct (contacts_after ctx cid b d) as [HP [HU HD]]. cbn zeta in *.
  split; [|split].
  - destruct HP as [-> | [u [p [Hu [_ ->]]]]]; [reflexivity|].
    assert (u = uid) by congruence. subst u.
    unfold Invariant.of_others. rewrite filter_app. cbn.
    unfold own at 2. cbn. rewrite N.eqb_refl. cbn. apply app_nil_r.
  - destruct HU as [-> | [u [p [c [Hu ->]]]]]; [reflexivity|].
    assert (u = uid) by congruence. subst u.
    apply updated_rows_keys.
  - destruct HD as [-> | [u [c [Hu ->]]]]; [reflexivity|].
    assert (u = uid) by congruence. subst u.
    unfold Invariant.of_others. rewrite SearchFacts.filter_filter.
    apply filter_ext. intros x. unfold Contract.targets, own.
    destruct (id x =? c)%N, (owner_id x =? uid)%N; reflexivity.
Qed.

Lemma writes_stay_with_the_caller_witness :
  Contract.signed_in Sample.other_caller 2
  /\ Invariant.of_others 2
       (contacts (snd (ContactIdRoute.DELETE Sample.other_caller (Uuid 7)
                         Sample.address_book)))
     = [Sample.mary; Sample.al; Sample.john].
Proof.
  assert (S : Contract.signed_in Sample.other_caller 2) by (split; reflexivity).
  split; [exact S|].
  apply (@writes_stay_with_the_caller Sample.other_caller 2%N (Uuid 7) []
           Sample.address_book S).
Defined.

(** X9: The four read handlers (List, Get-by-id, Search, List-members)
    run SELECT statements only and leave every table as it was,
    whoever calls them and whatever the parameters. *)
Theorem reads_change_nothing (ctx : context) (cid : uuid_text) (g : uuid)
  (q tag : option string) (d : database) :
  let after := [snd (ContactsRoute.GET ctx d);
                snd (ContactIdRoute.GET ctx cid d);
                snd (SearchRoute.GET ctx q tag d);
                snd (MembersRoute.GET ctx g d)] in
  Forall (fun d' => Invariant.same_tables d d' /\ Invariant.only_selected d d')
    after.
Proof.
  assert (Same : Invariant.same_tables d d /\ Invariant.only_selected d d).
  { split; [now repeat split|]. exists []. now split. }
  assert (One : forall t,
             Invariant.same_tables d (record SELECT t d)
             /\ Invariant.only_selected d (record SELECT t d)).
  { intros t. split; [now repeat split|].
    exists [(SELECT, t)]. split; [reflexivity | now repeat constructor]. }
  assert (Two : forall t t',
             Invariant.same_tables d (record SELECT t' (record SELECT t d))
             /\ Invariant.only_selected d (record SELECT t' (record SELECT t d))).
  { intros t t'. split; [now repeat split|].
    exists [(SELECT, t'); (SELECT, t)].
    split; [reflexivity | now repeat constructor]. }
  cbn zeta.
  apply Forall_cons;
    [|apply Forall_cons; [|apply Forall_cons; [|apply Forall_cons;
                                                  [|apply Forall_nil]]]].
  - unfold ContactsRoute.GET.
    destruct (authenticated (auth ctx)); [|exact Same].
    unfold bind, order. destruct (where_clause _); apply One.
  - unfold ContactIdRoute.GET.
    destruct (authenticated (auth ctx)); [|exact Same].
    unfold bind, select_single.
    destruct (where_clause _) as [w|e]; cbn.
    + destruct (single _) as [c|e]; cbn; [apply One|].
      destruct (code e =? "PGRST116")%string; apply One.
    + destruct (code e =? "PGRST116")%string; apply One.
  - unfold SearchRoute.GET.
    destruct (authenticated (auth ctx)); [|exact Same].
    unfold bind, order. destruct (where_clause _); apply One.
  - unfold MembersRoute.GET.
    destruct (authenticated (auth ctx)); [|exact Same].
    unfold bind, select_group_single.
    destruct (data_of _); [|apply One].
    unfold select_members. cbn. apply Two.
Qed.

End InvariantFacts.

(** ** Delete: cascade and repetition; validation before any statement *)

Module DeleteFacts.

Import Pg Supabase Http.

Lemma targets_gone (uid cid : uuid) (rows : list contact) :
  filter (Contract.targets uid cid)
    (filter (fun c => negb (Contract.targets uid cid c)) rows) = [].
Proof.
  rewrite SearchFacts.filter_filter.
  induction rows as [|c rows IH]; cbn; [reflexivity|].
  now destruct (Contract.targets uid cid c).
Qed.

(** X10: Delete cascades: after a Delete the membership rows left are
    those that do not reference a deleted contact, that is all rows
    but those of contact [cid] when the caller owned it. *)
Theorem delete_cascades (ctx : context) (uid cid : uuid) (d : database) :
  Contract.signed_in ctx uid ->
  let d' := snd (ContactIdRoute.DELETE ctx (Uuid cid) d) in
  forall m,
    In m (contact_groups d')
    <-> In m (contact_groups d)
        /\ ~ (m_contact_id m = cid
              /\ exists c, In c (contacts d) /\ id c = cid /\ owner_id c = uid).
Proof.
  intros Hin d' m. unfold d'.
  rewrite (@ApiFacts.delete_result ctx uid cid d Hin). cbn.
  rewrite filter_In, negb_true_iff.
  assert (E : existsb (N.eqb (m_contact_id m))
                (map id (filter (Contract.targets uid cid) (contacts d))) = true
              <-> m_contact_id m = cid
                  /\ exists c, In c (contacts d) /\ id c = cid /\ owner_id c = uid).
  { rewrite existsb_exists. split.
    - intros [i [Hi Ei]]. apply N.eqb_eq in Ei.
      apply in_map_iff in Hi as [c [Ec Hc]]. apply filter_In in Hc as [Hc T].
      unfold Contract.targets in T. apply andb_true_iff in T as [T1 T2].
      apply N.eqb_eq in T1, T2. split; [congruence|]. now exists c.
    - intros [Em [c [Hc [E1 E2]]]]. exists cid. split; [|now apply N.eqb_eq].
      apply in_map_iff. exists c. split; [exact E1|]. apply filter_In.
      split; [exact Hc|]. unfold Contract.targets.
      now rewrite E1, E2, !N.eqb_refl. }
  rewrite <- E, not_true_iff_false. reflexivity.
Qed.

Lemma delete_cascades_witness :
  Contract.signed_in Sample.caller 1
  /\ (In (mkContactGroup 41 8 30 65 (Some 1%N))
        (contact_groups (snd (ContactIdRoute.DELETE Sample.caller (Uuid 7)
                                Sample.address_book)))
      <-> In (mkContactGroup 41 8 30 65 (Some 1%N))
            (contact_groups Sample.address_book)
          /\ ~ (8%N = 7%N
                /\ exists c, In c (contacts Sample.address_book)
                             /\ id c = 7%N /\ owner_id c = 1%N)).
Proof.
  assert (S : Contract.signed_in Sample.caller 1) by (split; reflexivity).
  split; [exact S|].
  apply (@delete_cascades Sample.caller 1%N 7%N Sample.address_book S
           (mkContactGroup 41 8 30 65 (Some 1%N))).
Defined.

(** X11: Delete is final and repeatable.  For an identifier that is the
    text of a uuid: after a Delete, Get-by-id answers 404 for it, and a
    second Delete answers success again and changes no table.  For an
    identifier that is no uuid: Delete changes no table, and Get-by-id
    and a second Delete answer 500. *)
Theorem delete_then_get_and_repeat (ctx ctx1 : context) (uid : uuid)
  (d : database) :
  Contract.signed_in ctx uid ->
  Contract.signed_in ctx1 uid ->
  (forall cid,
      let d' := snd (ContactIdRoute.DELETE ctx (Uuid cid) d) in
      fst (ContactIdRoute.GET ctx1 (Uuid cid) d')
      = mkResponse 404 (Failure "Contact not found" None)
      /\ fst (ContactIdRoute.DELETE ctx1 (Uuid cid) d')
         = mkResponse 200 (Done "Contact deleted successfully")
      /\ Invariant.same_tables d'
           (snd (ContactIdRoute.DELETE ctx1 (Uuid cid) d')))
  /\ (let d' := snd (ContactIdRoute.DELETE ctx NotUuid d) in
      Invariant.same_tables d d'
      /\ fst (ContactIdRoute.GET ctx1 NotUuid d')
         = mkResponse 500 (Failure "Failed to fetch contact" None)
      /\ fst (ContactIdRoute.DELETE ctx1 NotUuid d')
         = mkResponse 500 (Failure "Failed to delete contact" None)
      /\ Invariant.same_tables d'
           (snd (ContactIdRoute.DELETE ctx1 NotUuid d'))).
Proof.
  intros Hin H1. split.
  - intros cid d'. unfold d'.
    rewrite (@ApiFacts.delete_result ctx uid cid d Hin).
    rewrite (@ApiFacts.get_by_id ctx1 uid cid _ H1).
    rewrite (@ApiFacts.delete_result ctx1 uid cid _ H1).
    cbn [fst snd contacts contact_groups with_contacts with_contact_groups record].
    rewrite targets_gone. split; [reflexivity|]. split; [reflexivity|].
    unfold Invariant.same_tables. cbn. repeat split.
    + apply forallb_filter_id, forallb_forall. intros c Hc.
      now apply filter_In in Hc.
    + apply forallb_filter_id, forallb_forall. reflexivity.
  - cbn zeta. rewrite (ApiFacts.delete_not_uuid d Hin). cbn [snd].
    rewrite (ApiFacts.get_not_uuid _ H1), (ApiFacts.delete_not_uuid _ H1).
    unfold Invariant.same_tables. cbn. repeat split.
Qed.

Lemma delete_then_get_and_repeat_witness :
  Contract.signed_in Sample.caller 1
  /\ fst (ContactIdRoute.GET Sample.caller (Uuid 7)
            (snd (ContactIdRoute.DELETE Sample.caller (Uuid 7)
                    Sample.address_book)))
     = mkResponse 404 (Failure "Contact not found" None)
  /\ fst (ContactIdRoute.GET Sample.caller NotUuid
            (snd (ContactIdRoute.DELETE Sample.caller NotUuid
                    Sample.address_book)))
     = mkResponse 500 (Failure "Failed to fetch contact" None).
Proof.
  assert (S : Contract.signed_in Sample.caller 1) by (split; reflexivity).
  split; [exact S|].
  destruct (@delete_then_get_and_repeat Sample.caller Sample.caller 1%N
              Sample.address_book S S) as [Hid Hno].
  split.
  - exact (proj1 (Hid 7%N)).
  - exact (proj1 (proj2 Hno)).
Defined.

(** *** Validation and type errors come before any statement *)



Lemma update_object_throws (b : Js.object) (k : string) :
  In k (tl Invariant.text_fields) ->
  Invariant.not_text (Js.field b k) ->
  exists what, ContactIdRoute.update_object b = Js.Throw what.
Proof.
  intros Hk [Hs [Hu Hn]].
  destruct (ContactFacts.trim_throws Hs Hu Hn) as [T1 T2].
  unfold ContactIdRoute.update_object. cbn in Hk.
  repeat (destruct Hk as [<- | Hk]; [|]); try destruct Hk;
    rewrite ?T1, ?T2;
    repeat (cbn [Js.and_then];
            match goal with
            | |- context [Js.and_then (Js.call_trim ?v) _] =>
                destruct (Js.call_trim v)
            | |- context [Js.and_then (Js.trim_or_null ?v) _] =>
                destruct (Js.trim_or_null v)
            end);
    cbn [Js.and_then]; eauto.
Qed.

(** X13: A text field that is present but is not a string (a number, a
    boolean, an array, an object) makes Create and Update answer 500:
    the [trim] call throws before any statement is run. *)
Theorem wrong_type_is_500 (ctx : context) (uid : uuid) (cid : uuid_text)
  (b : Js.object) (d : database) (k : string) :
  Contract.signed_in ctx uid ->
  Js.truthy (Js.field b "phoneNumber") = true ->
  Js.truthy (Js.field b "customName") = true ->
  In k Invariant.text_fields ->
  Invariant.not_text (Js.field b k) ->
  ContactsRoute.POST ctx b d
  = (mkResponse 500 (Failure "Failed to create contact" None), d)
  /\ (k <> "phoneNumber"%string ->
      ContactIdRoute.PUT ctx cid b d
      = (mkResponse 500 (Failure "Failed to update contact" None), d)).
Proof.
  intros Hin Hp Hn Hk Hv. apply AuthFacts.authenticated_some in Hin.
  unfold ContactsRoute.POST, ContactIdRoute.PUT. rewrite Hin, Hp, Hn.
  cbn [negb orb]. split.
  - destruct (@ContactFacts.insert_object_throws ctx b k Hk Hv) as [w ->].
    reflexivity.
  - intros Hne.
    assert (Hk' : In k (tl Invariant.text_fields))
      by (destruct Hk as [E | Hk]; [congruence | exact Hk]).
    destruct (@update_object_throws b k Hk' Hv) as [w ->]. reflexivity.
Qed.

Lemma wrong_type_is_500_witness :
  Contract.signed_in Sample.caller 1
  /\ ContactsRoute.POST Sample.caller
       [("phoneNumber"%string, Js.Str "15551110000");
        ("customName"%string, Js.Str "Carl");
        ("email"%string, Js.Num 5)]
       Sample.address_book
     = (mkResponse 500 (Failure "Failed to create contact" None),
        Sample.address_book).
Proof.
  assert (S : Contract.signed_in Sample.caller 1) by (split; reflexivity).
  split; [exact S|].
  apply (@wrong_type_is_500 Sample.caller 1%N (Uuid 7)
           [("phoneNumber"%string, Js.Str "15551110000");
            ("customName"%string, Js.Str "Carl");
            ("email"%string, Js.Num 5)]
           Sample.address_book "email"%string S eq_refl eq_refl).
  - cbn. tauto.
  - repeat split; cbn; discriminate.
Defined.

End DeleteFacts.

(** ** The membership handlers, beyond their contracts *)

Module MembersApiFacts.

Import Pg Supabase Http.

Lemma group_not_found (uid g : uuid) (d : database) :
  Invariant.not_callers_group uid g d ->
  select_group_single g uid d = (Err no_single_row, record SELECT ChatGroups d).
Proof.
  intros H. unfold select_group_single.
  replace (filter (fun grp => (cg_id grp =? g)%N && (cg_owner_id grp =? uid)%N)
             (chat_groups d)) with (@nil chat_group); [reflexivity|].
  symmetry. unfold Invariant.not_callers_group in H.
  induction (chat_groups d) as [|grp l IH]; cbn; [reflexivity|].
  rewrite IH by (intros x Hx; apply H; now right).
  destruct (N.eqb_spec (cg_id grp) g) as [E|]; [|reflexivity].
  destruct (N.eqb_spec (cg_owner_id grp) uid) as [E'|]; [|reflexivity].
  exfalso. exact (H grp (or_introl eq_refl) E E').
Qed.



(** X15: A group the caller does not own (absent, or another account's) is
    answered 404 by List-members, Add-members and Remove-member alike,
    after the one ownership SELECT and with every table unchanged. *)
Theorem foreign_group_is_404 (ctx : context) (uid g : uuid)
  (ids : list string) (i u : string) (d : database) :
  Contract.signed_in ctx uid ->
  Invariant.not_callers_group uid g d ->
  u <> ""%string ->
  let not_found :=
    (mkResponse 404 (Failure "Group not found or unauthorized" None),
     record SELECT ChatGroups d) in
  MembersRoute.GET ctx g d = not_found
  /\ MembersRoute.POST ctx g [("userIds"%string, Js.Arr (i :: ids))] d = not_found
  /\ MembersRoute.DELETE ctx g (Some u) d = not_found.
Proof.
  intros Hin Hg Hu. apply AuthFacts.authenticated_some in Hin.
  apply String.eqb_neq in Hu.
  unfold MembersRoute.GET, MembersRoute.POST, MembersRoute.DELETE.
  rewrite Hin, Hu.
  change (Js.field [("userIds"%string, Js.Arr (i :: ids))] "userIds")
    with (Js.Arr (i :: ids)).
  cbn [Js.truthy Js.isArray negb orb MembersRoute.items_of List.length Nat.eqb].
  unfold bind. rewrite (group_not_found Hg). cbn [data_of].
  repeat split.
Qed.

Lemma foreign_group_is_404_witness :
  Contract.signed_in Sample.other_caller 2
  /\ MembersRoute.GET Sample.other_caller 30 Sample.address_book
     = (mkResponse 404 (Failure "Group not found or unauthorized" None),
        record SELECT ChatGroups Sample.address_book).
Proof.
  assert (S : Contract.signed_in Sample.other_caller 2) by (split; reflexivity).
  split; [exact S|].
  apply (@foreign_group_is_404 Sample.other_caller 2%N 30%N [] "u1"%string
           "u1"%string Sample.address_book S).
  - intros grp [<- | []] _. discriminate.
  - discriminate.
Defined.

(** X16: Add-members on an owned group, when no submitted pair repeats a
    stored pair or another submitted pair (or the table has no unique
    constraint), appends one row per identifier, in order, and reports
    their number. *)
Theorem add_members_appends (ctx : context) (uid g : uuid)
  (ids : list string) (i : string) (d : database) :
  Contract.signed_in ctx uid ->
  fst (select_group_single g uid d) = Ok g ->
  group_members_unique d = false
  \/ no_duplicate (group_members d) (map (mkGroupMember g) (i :: ids)) = true ->
  let r := MembersRoute.POST ctx g [("userIds"%string, Js.Arr (i :: ids))] d in
  fst r = mkResponse 200
            (Added (MembersRoute.added_message (S (List.length ids)))
               (S (List.length ids)))
  /\ group_members (snd r)
     = group_members d ++ map (mkGroupMember g) (i :: ids)
  /\ contacts (snd r) = contacts d
  /\ contact_groups (snd r) = contact_groups d.
Proof.
  intros Hin Hg Hfree r. unfold r. apply AuthFacts.authenticated_some in Hin.
  unfold MembersRoute.POST. rewrite Hin.
  change (Js.field [("userIds"%string, Js.Arr (i :: ids))] "userIds")
    with (Js.Arr (i :: ids)).
  cbn [Js.truthy Js.isArray negb orb MembersRoute.items_of List.length Nat.eqb].
  unfold bind. unfold select_group_single in *. cbn [fst] in Hg. rewrite Hg.
  cbn [data_of]. unfold insert_members.
  cbn [group_members_unique group_members record].
  assert (E : group_members_unique d
              && negb (no_duplicate (group_members d)
                         (map (fun userId => mkGroupMember g userId) (i :: ids)))
              = false).
  { destruct Hfree as [-> | H]; [reflexivity|].
    change (fun userId => mkGroupMember g userId) with (mkGroupMember g).
    rewrite H. apply andb_false_r. }
  rewrite E. cbn [fst snd body]. rewrite length_map. repeat split.
Qed.

Lemma add_members_appends_witness :
  Contract.signed_in Sample.caller 1
  /\ group_members
       (snd (MembersRoute.POST Sample.caller 30
               [("userIds"%string, Js.Arr ["u2"; "u3"]%string)]
               Sample.address_book))
     = [mkGroupMember 30 "u1"; mkGroupMember 30 "u2"; mkGroupMember 30 "u3"].
Proof.
  assert (S : Contract.signed_in Sample.caller 1) by (split; reflexivity).
  split; [exact S|].
  apply (@add_members_appends Sample.caller 1%N 30%N ["u3"%string] "u2"%string
           Sample.address_book S eq_refl).
  right. reflexivity.
Defined.

(** X17: Remove-member on an owned group answers success whether or not
    the pair was stored; afterwards no row pairs the group with the
    user, and every other row is still there. *)
Theorem remove_member_removes (ctx : context) (uid g : uuid) (u : string)
  (d : database) :
  Contract.signed_in ctx uid ->
  fst (select_group_single g uid d) = Ok g ->
  u <> ""%string ->
  let r := MembersRoute.DELETE ctx g (Some u) d in
  fst r = mkResponse 200 (Done "Member removed successfully")
  /\ forall row,
       In row (group_members (snd r))
       <-> In row (group_members d)
           /\ ~ (gm_group_id row = g /\ gm_user_id row = u).
Proof.
  intros Hin Hg Hu r. unfold r. apply AuthFacts.authenticated_some in Hin.
  apply String.eqb_neq in Hu.
  unfold MembersRoute.DELETE. rewrite Hin, Hu. unfold bind.
  unfold select_group_single in *. cbn [fst] in Hg. rewrite Hg.
  cbn. split; [reflexivity|]. intros row.
  rewrite filter_In, negb_true_iff, andb_false_iff, N.eqb_neq, String.eqb_neq.
  split; intros [H1 H2]; (split; [exact H1|]).
  - tauto.
  - destruct (N.eq_dec (gm_group_id row) g); [right | left]; tauto.
Qed.

Lemma remove_member_removes_witness :
  Contract.signed_in Sample.caller 1
  /\ fst (MembersRoute.DELETE Sample.caller 30 (Some "nobody"%string)
            Sample.address_book)
     = mkResponse 200 (Done "Member removed successfully").
Proof.
  assert (S : Contract.signed_in Sample.caller 1) by (split; reflexivity).
  split; [exact S|].
  apply (@remove_member_removes Sample.caller 1%N 30%N "nobody"%string
           Sample.address_book S eq_refl).
  discriminate.
Defined.

(** List-members reads the contacts, the groups and the junction
    table, and nothing else. *)
Lemma list_members_reads (ctx : context) (g : uuid) (d1 d2 : database) :
  contacts d1 = contacts d2 ->
  chat_groups d1 = chat_groups d2 ->
  contact_groups d1 = contact_groups d2 ->
  fst (MembersRoute.GET ctx g d1) = fst (MembersRoute.GET ctx g d2).
Proof.
  intros E1 E2 E3. unfold MembersRoute.GET.
  destruct (authenticated (auth ctx)) as [uid|]; [|reflexivity].
  unfold bind, select_group_single, select_members, own_membership.
  rewrite E2. destruct (data_of _); [|reflexivity].
  cbn. now rewrite E1, E3.
Qed.

Lemma members_writes_frame (ctx : context) (g : uuid) (b : Js.object)
  (userId : option string) (d : database) :
  (contacts (snd (MembersRoute.POST ctx g b d)) = contacts d
   /\ chat_groups (snd (MembersRoute.POST ctx g b d)) = chat_groups d
   /\ contact_groups (snd (MembersRoute.POST ctx g b d)) = contact_groups d)
  /\ (contacts (snd (MembersRoute.DELETE ctx g userId d)) = contacts d
      /\ chat_groups (snd (MembersRoute.DELETE ctx g userId d)) = chat_groups d
      /\ contact_groups (snd (MembersRoute.DELETE ctx g userId d))
         = contact_groups d).
Proof.
  split.
  - unfold MembersRoute.POST.
    destruct (authenticated (auth ctx)); [|now repeat split].
    destruct (_ || _); [now repeat split|].
    unfold bind, select_group_single. destruct (data_of _); [|now repeat split].
    unfold insert_members. cbn [group_members_unique group_members record].
    destruct (_ && _); now repeat split.
  - unfold MembersRoute.DELETE.
    destruct (authenticated (auth ctx)); [|now repeat split].
    destruct userId as [v|]; [|now repeat split].
    destruct (v =? "")%string; [now repeat split|].
    unfold bind, select_group_single. destruct (data_of _); now repeat split.
Qed.

(** X18: Add-members and Remove-member write [group_members] only, while
    List-members reads [contact_groups]: whatever they are given, they
    never change what List-members answers, for any group and caller. *)
Theorem members_writes_never_show (ctx ctx' : context) (g g' : uuid)
  (b : Js.object) (userId : option string) (d : database) :
  fst (MembersRoute.GET ctx' g' (snd (MembersRoute.POST ctx g b d)))
  = fst (MembersRoute.GET ctx' g' d)
  /\ fst (MembersRoute.GET ctx' g' (snd (MembersRoute.DELETE ctx g userId d)))
     = fst (MembersRoute.GET ctx' g' d).
Proof.
  destruct (members_writes_frame ctx g b userId d)
    as [[P1 [P2 P3]] [D1 [D2 D3]]].
  split; now apply list_members_reads.
Qed.

Lemma joined_contact (uid cid : uuid) (rows : list contact) :
  existsb (fun c => (id c =? cid)%N && own uid c) rows = true ->
  exists c,
    find (fun c => (id c =? cid)%N) (visible uid rows) = Some c
    /\ In c rows /\ id c = cid /\ owner_id c = uid.
Proof.
  intros H. apply existsb_exists in H as [c0 [Hc0 T]].
  apply andb_true_iff in T as [T1 T2].
  destruct (find (fun c => (id c =? cid)%N) (visible uid rows)) as [c|] eqn:F.
  - exists c. split; [reflexivity|]. apply find_some in F as [Hc E].
    apply filter_In in Hc as [Hc Ho]. apply N.eqb_eq in E, Ho. now repeat split.
  - exfalso. assert (Hv : In c0 (visible uid rows))
      by (apply filter_In; now split).
    pose proof (find_none _ _ F c0 Hv) as N0. cbn in N0. congruence.
Qed.

(** X19: The members List-members returns for a group are exactly the
    junction rows of that group whose contact is the caller's: each
    member carries the identifier, phone number and custom name of a
    stored contact of the caller, and each such row gives a member. *)
Theorem listed_members_are_callers_contacts (ctx : context) (uid g : uuid)
  (d : database) (ms : list member) :
  Contract.signed_in ctx uid ->
  body (fst (MembersRoute.GET ctx g d)) = MemberList ms ->
  (forall m, In m ms ->
     exists row c,
       In row (contact_groups d) /\ m_group_id row = g
       /\ m_contact_id row = member_id m
       /\ In c (contacts d) /\ id c = member_id m /\ owner_id c = uid
       /\ user_id m = phone_number c
       /\ member_custom_name m = custom_name c)
  /\ (forall row c,
        In row (contact_groups d) -> m_group_id row = g ->
        In c (contacts d) -> id c = m_contact_id row -> owner_id c = uid ->
        exists m, In m ms /\ member_id m = m_contact_id row).
Proof.
  intros Hin H. apply AuthFacts.authenticated_some in Hin.
  unfold MembersRoute.GET in H. rewrite Hin in H. unfold bind in H.
  destruct (select_group_single g uid d) as [r d1] eqn:Eg.
  assert (Hd1 : contacts d1 = contacts d /\ contact_groups d1 = contact_groups d).
  { unfold select_group_single in Eg. injection Eg as _ <-. now split. }
  destruct Hd1 as [Ec Ej].
  destruct (data_of r); [|discriminate].
  unfold select_members, own_membership in H. cbn in H. injection H as <-.
  rewrite Ec, Ej. split.
  - intros m Hm. apply in_map_iff in Hm as [cg [<- Hcg]].
    apply in_map_iff in Hcg as [row [<- Hrow]].
    apply filter_In in Hrow as [Hrow T]. apply andb_true_iff in T as [Tg To].
    apply N.eqb_eq in Tg.
    destruct (joined_contact _ _ _ To) as [c [F [Hc [Ei Eo]]]].
    exists row, c. unfold MembersRoute.format_member. cbn. rewrite F. cbn.
    now repeat split.
  - intros row c Hrow Eg' Hc Ei Eo.
    set (join := fun m : contact_group =>
                   mkContactGroupMemberData (m_contact_id m)
                     (option_map embed_contact
                        (find (fun c => (id c =? m_contact_id m)%N)
                           (visible uid (contacts d))))).
    exists (MembersRoute.format_member (join row)). split; [|reflexivity].
    apply in_map. apply (in_map join).
    apply filter_In. split; [exact Hrow|].
    apply andb_true_iff. split; [now apply N.eqb_eq|].
    apply existsb_exists. exists c. split; [exact Hc|].
    unfold own. now rewrite Ei, Eo, !N.eqb_refl.
Qed.

Lemma listed_members_are_callers_contacts_witness :
  Contract.signed_in Sample.caller 1
  /\ forall m,
       In m [mkMember 7 "15551234567" "Al" "" 0;
             mkMember 8 "15550000001" "John Doe" "" 0] ->
       exists row c,
         In row (contact_groups Sample.address_book) /\ m_group_id row = 30%N
         /\ m_contact_id row = member_id m
         /\ In c (contacts Sample.address_book) /\ id c = member_id m
         /\ owner_id c = 1%N
         /\ user_id m = phone_number c
         /\ member_custom_name m = custom_name c.
Proof.
  assert (S : Contract.signed_in Sample.caller 1) by (split; reflexivity).
  split; [exact S|].
  apply (@listed_members_are_callers_contacts Sample.caller 1%N 30%N
           Sample.address_book _ S eq_refl).
Defined.

End MembersApiFacts.

(** ** The dialog, beyond the delta *)

Module DialogMoreFacts.

Import Pg GroupManagementDialog.

(** X20: Toggling a contact flips its membership in the selection, leaves
    every other contact as it was, and keeps the selection free of
    repetitions. *)
Theorem toggle_flips_one (userId : uuid) (prev : list uuid) :
  NoDup prev ->
  NoDup (handleToggleUser userId prev)
  /\ (In userId (handleToggleUser userId prev) <-> ~ In userId prev)
  /\ (forall x, x <> userId ->
        (In x (handleToggleUser userId prev) <-> In x prev)).
Proof.
  intros Hnd. split; [now apply DialogFacts.handleToggleUser_NoDup|].
  unfold handleToggleUser. destruct (includes prev userId) eqn:E.
  - apply DialogFacts.includes_In in E. split.
    + rewrite filter_In, negb_true_iff, N.eqb_neq. tauto.
    + intros x Hx. rewrite filter_In, negb_true_iff, N.eqb_neq. tauto.
  - assert (Hn : ~ In userId prev)
      by (rewrite <- DialogFacts.includes_In; congruence).
    split.
    + rewrite in_app_iff. cbn. tauto.
    + intros x Hx. rewrite in_app_iff. cbn. intuition congruence.
Qed.

Lemma toggle_flips_one_witness :
  NoDup [7; 8]%N
  /\ handleToggleUser 8 (handleToggleUser 9 [7; 8]%N) = [7; 9]%N
  /\ (In 9%N (handleToggleUser 9 [7; 8]%N) <-> ~ In 9%N [7; 8]%N).
Proof.
  assert (H : NoDup [7; 8]%N)
    by (repeat constructor; cbn; intuition discriminate).
  split; [exact H|]. split; [reflexivity|].
  apply (@toggle_flips_one 9%N [7; 8]%N H).
Defined.

(** X21: A save that fails its checks or whose group request is refused
    sends no membership request and does not close the dialog: with a
    blank name or an empty selection nothing at all is sent, and after
    a refused update or creation only that one request was sent. *)
Theorem failed_save_changes_no_membership (st : state) (group : option Group)
  (net : replies) :
  Text.trim (name st) = ""%string
  \/ selectedUserIds st = []
  \/ (group <> None /\ update_ok net = false)
  \/ (group = None /\ create_ok net = false) ->
  let o := handleSave st group net in
  saved o = false
  /\ error o <> None
  /\ List.length (issued o) <= 1
  /\ (forall g, removals g o = [] /\ additions g o = [])
  /\ (Text.trim (name st) = ""%string \/ selectedUserIds st = [] ->
      issued o = []).
Proof.
  intros H o. unfold o, handleSave, removals, additions.
  destruct (Text.trim (name st) =? "")%string eqn:En.
  { cbn. repeat split; auto; discriminate. }
  destruct (selectedUserIds st) as [|s0 S] eqn:Es.
  { cbn. repeat split; auto; discriminate. }
  cbn [List.length Nat.eqb].
  apply String.eqb_neq in En.
  destruct H as [H | [H | [[Hg H] | [Hg H]]]]; try congruence.
  - destruct group as [g|]; [|congruence]. rewrite H. cbn.
    repeat split; auto; try discriminate; intros [? | ?]; congruence.
  - subst group. rewrite H. cbn.
    repeat split; auto; try discriminate; intros [? | ?]; congruence.
Qed.

Lemma failed_save_changes_no_membership_witness :
  issued (handleSave (mkState "   " "" [7]%N) (Some (mkGroup 30 "Friends" None 2))
            (mkReplies true (Some [8]%N) true)) = [].
Proof.
  apply (@failed_save_changes_no_membership (mkState "   " "" [7]%N)
           (Some (mkGroup 30 "Friends" None 2))
           (mkReplies true (Some [8]%N) true)).
  - left. reflexivity.
  - left. reflexivity.
Defined.

(** X22: In create mode a save that passes its checks sends exactly one
    creation request carrying the whole selection, and closes the
    dialog exactly when that request is answered ok. *)
Theorem create_mode_sends_whole_selection (st : state) (net : replies) :
  Text.trim (name st) <> ""%string ->
  selectedUserIds st <> [] ->
  let o := handleSave st None net in
  issued o = [PostGroup (name st) (description st) (selectedUserIds st)]
  /\ saved o = create_ok net
  /\ (error o = None <-> create_ok net = true).
Proof.
  intros Hn Hs o. unfold o, handleSave.
  apply String.eqb_neq in Hn. rewrite Hn.
  destruct (selectedUserIds st) as [|s0 S] eqn:Es; [congruence|].
  cbn [List.length Nat.eqb]. destruct (create_ok net); cbn.
  - repeat split.
  - repeat split; discriminate.
Qed.

Lemma create_mode_sends_whole_selection_witness :
  issued (handleSave (mkState "Team" "all of us" [7; 8]%N) None
            (mkReplies true None true))
  = [PostGroup "Team" "all of us" [7; 8]%N].
Proof.
  apply (@create_mode_sends_whole_selection (mkState "Team" "all of us" [7; 8]%N)
           (mkReplies true None true)); discriminate.
Defined.

Lemma nothing_passes (ids : list uuid) (test : uuid -> bool) :
  Forall (fun i => test i = false) ids -> filter test ids = [].
Proof.
  induction 1 as [|i ids Hi _ IH]; cbn; [reflexivity|]. now rewrite Hi.
Qed.

(** X23: An edit-mode save with the selection unchanged (the same
    identifiers as the stored membership, in any order) sends the group
    update and the membership read and nothing else. *)
Theorem unchanged_selection_sends_no_delta (st : state) (g : Group)
  (net : replies) (P : list uuid) :
  Text.trim (name st) <> ""%string ->
  selectedUserIds st <> [] ->
  update_ok net = true ->
  currentMembers net = Some P ->
  (forall x, In x P <-> In x (selectedUserIds st)) ->
  issued (handleSave st (Some g) net)
  = [PutGroup (group_id g) (name st) (description st);
     SelectMembers (group_id g)].
Proof.
  intros Hn Hs Hok HP Hsame. unfold handleSave.
  apply String.eqb_neq in Hn. rewrite Hn.
  destruct (selectedUserIds st) as [|s0 S] eqn:Es; [congruence|].
  cbn [List.length Nat.eqb]. rewrite Hok, HP. cbn [negb issued].
  assert (Ea : toAdd (s0 :: S) P = []).
  { apply nothing_passes, Forall_forall. intros x Hx. apply negb_false_iff.
    apply DialogFacts.includes_In. now apply Hsame. }
  assert (Er : toRemove (s0 :: S) P = []).
  { apply nothing_passes, Forall_forall. intros x Hx. apply negb_false_iff.
    apply DialogFacts.includes_In. now apply Hsame. }
  rewrite Ea, Er. reflexivity.
Qed.

Lemma unchanged_selection_sends_no_delta_witness :
  issued (handleSave (mkState "Friends" "" [8; 7]%N)
            (Some (mkGroup 30 "Friends" None 2))
            (mkReplies true (Some [7; 8]%N) true))
  = [PutGroup 30 "Friends" ""; SelectMembers 30].
Proof.
  apply (@unchanged_selection_sends_no_delta (mkState "Friends" "" [8; 7]%N)
           (mkGroup 30 "Friends" None 2)
           (mkReplies true (Some [7; 8]%N) true) [7; 8]%N);
    try discriminate; try reflexivity.
  intros x. cbn. tauto.
Defined.

Lemma includes_empty (s : list ascii) : Text.includes s [] = true.
Proof. destruct s; reflexivity. Qed.

(** With an empty search box the dialog shows every contact; with any
    term it shows a selection of them in the same order, and never
    hides a contact whose phone number contains the term as typed. *)
Theorem dialog_filter_shows (contacts : list contact) (searchTerm : string) :
  DialogList.filteredContacts contacts "" = contacts
  /\ (forall c, In c (DialogList.filteredContacts contacts searchTerm) ->
                In c contacts)
  /\ (forall c, In c contacts ->
        Text.includes (Text.chars (phone_number c)) (Text.chars searchTerm) = true ->
        In c (DialogList.filteredContacts contacts searchTerm)).
Proof.
  unfold DialogList.filteredContacts. split; [|split].
  - apply forallb_filter_id, forallb_forall. intros c _.
    unfold Text.contains_ci. cbn. now rewrite includes_empty.
  - intros c Hc. now apply filter_In in Hc.
  - intros c Hc Hp. apply filter_In. split; [exact Hc|].
    rewrite Hp. now rewrite orb_true_r.
Qed.

End DialogMoreFacts.

(** ** Trimming and splitting *)

Module TrimFacts.

Import Text TextShape.

Lemma trim_start_clean (l : list ascii) :
  starts_clean (trim_start l) = true.
Proof.
  induction l as [|c l IH]; cbn; [reflexivity|].
  destruct (is_space c) eqn:E; [exact IH|]. cbn. now rewrite E.
Qed.

Lemma trim_start_fixed (l : list ascii) :
  starts_clean l = true -> trim_start l = l.
Proof.
  destruct l as [|c l]; cbn; [reflexivity|].
  intros H. apply negb_true_iff in H. now rewrite H.
Qed.

Lemma trim_start_suffix (l : list ascii) :
  exists spaces, l = spaces ++ trim_start l.
Proof.
  induction l as [|c l [sp IH]]; cbn; [now exists []|].
  destruct (is_space c).
  - exists (c :: sp). cbn. now rewrite <- IH.
  - now exists [].
Qed.

Lemma starts_clean_prefix (l1 l2 : list ascii) :
  l1 <> [] -> starts_clean (l1 ++ l2) = starts_clean l1.
Proof. destruct l1; [congruence | reflexivity]. Qed.

(** What trimming returns has no white space at either end. *)
Lemma trim_chars_clean (l : list ascii) :
  starts_clean (trim_chars l) = true
  /\ starts_clean (rev (trim_chars l)) = true.
Proof.
  unfold trim_chars. rewrite rev_involutive.
  split; [|apply trim_start_clean].
  set (a := trim_start l).
  destruct (trim_start_suffix (rev a)) as [sp E].
  set (b := trim_start (rev a)) in *.
  destruct b as [|c r] eqn:Eb; [reflexivity|].
  assert (Ea : a = rev (c :: r) ++ rev sp).
  { rewrite <- rev_app_distr, <- E. now rewrite rev_involutive. }
  assert (Hne : rev (c :: r) <> []).
  { cbn. intros H. now apply app_eq_nil in H as [_ H]. }
  rewrite <- (@starts_clean_prefix _ (rev sp) Hne), <- Ea.
  apply trim_start_clean.
Qed.

Lemma trim_chars_fixed (l : list ascii) :
  starts_clean l = true -> starts_clean (rev l) = true -> trim_chars l = l.
Proof.
  intros H1 H2. unfold trim_chars.
  rewrite (@trim_start_fixed _ H1), (@trim_start_fixed _ H2).
  apply rev_involutive.
Qed.

(** Trimming twice is trimming once. *)
Lemma trim_chars_idempotent (l : list ascii) :
  trim_chars (trim_chars l) = trim_chars l.
Proof.
  destruct (trim_chars_clean l) as [H1 H2]. now apply trim_chars_fixed.
Qed.

Lemma trim_start_In (c : ascii) (l : list ascii) :
  In c (trim_start l) -> In c l.
Proof.
  destruct (trim_start_suffix l) as [sp E]. intros H.
  rewrite E. apply in_or_app. now right.
Qed.

Lemma trim_chars_In (c : ascii) (l : list ascii) :
  In c (trim_chars l) -> In c l.
Proof.
  unfold trim_chars. intros H.
  apply in_rev in H. apply trim_start_In in H. apply in_rev in H.
  now apply trim_start_In.
Qed.

Lemma chars_text (l : list ascii) : chars (text l) = l.
Proof. apply list_ascii_of_string_of_list_ascii. Qed.

Lemma text_chars (s : string) : text (chars s) = s.
Proof. apply string_of_list_ascii_of_string. Qed.

Lemma trim_idempotent (s : string) : trim (trim s) = trim s.
Proof.
  unfold trim. now rewrite chars_text, trim_chars_idempotent.
Qed.

End TrimFacts.

(** ** The contacts page *)

Module PageFacts.

Import Pg Supabase ContactsPage.

Lemma split_without_separator (sep : ascii) (w : list ascii) :
  ~ In sep w -> split_on sep w = [w].
Proof.
  induction w as [|c w IH]; cbn; intros H; [reflexivity|].
  destruct (Ascii.eqb_spec c sep) as [E|_]; [tauto|].
  rewrite IH by tauto. reflexivity.
Qed.

Lemma split_at_separator (sep : ascii) (w rest : list ascii) :
  ~ In sep w -> split_on sep (w ++ sep :: rest) = w :: split_on sep rest.
Proof.
  induction w as [|c w IH]; cbn; intros H.
  - now rewrite Ascii.eqb_refl.
  - destruct (Ascii.eqb_spec c sep) as [E|_]; [tauto|].
    rewrite IH by tauto. reflexivity.
Qed.

Lemma split_pieces (sep : ascii) (l : list ascii) :
  split_on sep l <> []
  /\ Forall (fun w => ~ In sep w) (split_on sep l).
Proof.
  induction l as [|c l [Hne IH]]; cbn.
  - split; [discriminate | repeat constructor; tauto].
  - destruct (Ascii.eqb_spec c sep) as [E|N].
    + split; [discriminate | constructor; [tauto | exact IH]].
    + destruct (split_on sep l) as [|w ws]; [congruence|].
      split; [discriminate|]. inversion_clear IH as [|? ? Hw Hws].
      constructor; [|exact Hws]. cbn. intros [E | Hin]; [congruence | tauto].
Qed.

(** X25: Whatever is typed, the tags the form stores are clean: none is
    empty, none has white space around it, none holds a comma. *)
Theorem parsed_tags_are_clean (typed : string) (ts : list string) :
  parseTags typed = Some ts -> Forall clean_tag ts.
Proof.
  unfold parseTags. destruct (typed =? "")%string; [discriminate|].
  intros H. injection H as <-. apply Forall_forall. intros t Ht.
  apply filter_In in Ht as [Ht Hne]. apply negb_true_iff, String.eqb_neq in Hne.
  apply in_map_iff in Ht as [w [<- Hw]].
  destruct (split_pieces "," (Text.chars typed)) as [_ Hsep].
  rewrite Forall_forall in Hsep. specialize (Hsep w Hw).
  repeat split.
  - exact Hne.
  - unfold Text.trim.
    now rewrite TrimFacts.chars_text, TrimFacts.trim_chars_idempotent.
  - rewrite TrimFacts.chars_text. intros Hin.
    apply Hsep. now apply TrimFacts.trim_chars_In.
Qed.

Lemma parsed_tags_are_clean_witness :
  parseTags " vip, ,new  customer,," = Some ["vip"; "new  customer"]%string
  /\ Forall clean_tag ["vip"; "new  customer"]%string.
Proof.
  split; [reflexivity|].
  apply (@parsed_tags_are_clean " vip, ,new  customer,,"
           ["vip"; "new  customer"]%string).
  reflexivity.
Defined.

Lemma trimmed_after_space (w : list ascii) :
  Text.trim_chars (" "%char :: w) = Text.trim_chars w.
Proof. reflexivity. Qed.

Lemma split_after_space (l : list ascii) :
  map (fun t => Text.text (Text.trim_chars t)) (split_on "," (" "%char :: l))
  = map (fun t => Text.text (Text.trim_chars t)) (split_on "," l).
Proof.
  cbn [split_on]. change (Ascii.eqb " " ",") with false. cbv iota.
  destruct (split_pieces "," l) as [Hne _].
  destruct (split_on "," l) as [|w ws]; [congruence|].
  cbn [map]. now rewrite trimmed_after_space.
Qed.

Lemma clean_tag_chars (t : string) :
  clean_tag t ->
  Text.text (Text.trim_chars (Text.chars t)) = t
  /\ ~ In ","%char (Text.chars t).
Proof. intros [_ [H1 H2]]. split; [exact H1 | exact H2]. Qed.

(** The pieces of joined clean tags are the tags. *)
Lemma joined_tags_split (ts : list string) :
  ts <> [] -> Forall clean_tag ts ->
  map (fun t => Text.text (Text.trim_chars t))
    (split_on "," (Text.chars (String.concat ", " ts)))
  = ts.
Proof.
  induction ts as [|t ts IH]; [congruence|]. intros _ H.
  inversion_clear H as [|? ? Ht Hts].
  destruct (clean_tag_chars Ht) as [Et Hc].
  destruct ts as [|t' ts].
  - cbn [String.concat]. rewrite (@split_without_separator _ _ Hc). cbn.
    now rewrite Et.
  - change (String.concat ", " (t :: t' :: ts))
      with (t ++ ", " ++ String.concat ", " (t' :: ts))%string.
    rewrite !TextFacts.chars_append.
    change (Text.chars ", ") with [","%char; " "%char]. cbn [app].
    rewrite (@split_at_separator _ _ _ Hc). cbn [map].
    rewrite Et, split_after_space. f_equal.
    apply IH; [discriminate | exact Hts].
Qed.

(** X26: Round trip of the tag field: clean stored tags, shown in the form
    and saved back untouched, are stored again as they were; no tags
    (an empty array or NULL) come back as NULL. *)
Theorem tags_round_trip (ts : list string) :
  Forall clean_tag ts ->
  parseTags (joinTags (Some ts))
  = match ts with
    | [] => None
    | _ :: _ => Some ts
    end
  /\ parseTags (joinTags None) = None.
Proof.
  intros H. split; [|reflexivity].
  destruct ts as [|t ts]; [reflexivity|].
  unfold parseTags, joinTags.
  assert (Hne : (String.concat ", " (t :: ts) =? "")%string = false).
  { apply String.eqb_neq. intros E.
    inversion_clear H as [|? ? [Ht _] _]. apply Ht.
    destruct ts; cbn in E; [exact E|]. destruct t; [reflexivity | discriminate]. }
  rewrite Hne, joined_tags_split by (discriminate || exact H).
  f_equal. apply forallb_filter_id, forallb_forall. intros x Hx.
  rewrite Forall_forall in H. destruct (H x Hx) as [Hx' _].
  now apply negb_true_iff, String.eqb_neq.
Qed.

Lemma tags_round_trip_witness :
  Forall clean_tag ["vip"; "new  customer"]%string
  /\ joinTags (Some ["vip"; "new  customer"]%string) = "vip, new  customer"%string
  /\ parseTags "vip, new  customer" = Some ["vip"; "new  customer"]%string.
Proof.
  assert (H : Forall clean_tag ["vip"; "new  customer"]%string).
  { repeat constructor; try discriminate; cbn; intuition discriminate. }
  split; [exact H|]. split; [reflexivity|].
  apply (proj1 (@tags_round_trip ["vip"; "new  customer"]%string H)).
Defined.

(** *** Filtering an ordered list *)

Lemma insert_in_front (c : contact) (l : list contact) :
  Forall (Contract.by_name c) l -> insert_by_name c l = c :: l.
Proof.
  destruct l as [|d l]; [reflexivity|]. intros H.
  inversion_clear H as [|? ? Hd _]. cbn. unfold Contract.by_name in Hd.
  now rewrite Hd.
Qed.

Lemma filter_insert_sorted (p : contact -> bool) (c : contact)
  (l : list contact) :
  StronglySorted Contract.by_name l ->
  filter p (insert_by_name c l)
  = if p c then insert_by_name c (filter p l) else filter p l.
Proof.
  induction 1 as [|d l Hl IH Hd].
  - cbn. now destruct (p c).
  - cbn [insert_by_name].
    destruct (custom_name c <=? custom_name d)%string eqn:Ecd.
    + remember (d :: l) as m eqn:Em. cbn [filter].
      destruct (p c); [|reflexivity].
      symmetry. apply insert_in_front. apply Forall_forall. intros e He.
      apply filter_In in He as [He _]. subst m.
      destruct He as [<- | He]; [exact Ecd|].
      rewrite Forall_forall in Hd. unfold Contract.by_name in *.
      eapply PgFacts.string_leb_trans; [exact Ecd | now apply Hd].
    + cbn [filter]. rewrite IH. destruct (p d), (p c); cbn [insert_by_name];
        rewrite ?Ecd; reflexivity.
Qed.

(** Filtering what [ORDER BY] returned is ordering what the filter
    keeps. *)
Lemma filter_order (p : contact -> bool) (l : list contact) :
  filter p (order_by_custom_name l) = order_by_custom_name (filter p l).
Proof.
  induction l as [|c l IH]; [reflexivity|].
  cbn [order_by_custom_name fold_right filter].
  rewrite filter_insert_sorted by apply PgFacts.order_sorted.
  fold (order_by_custom_name l). rewrite IH.
  now destruct (p c).
Qed.

Lemma load_returns (uid : uuid) (d : database) :
  loadContacts uid d
  = (Ok (order_by_custom_name (filter (own uid) (contacts d))),
     record SELECT Contacts d).
Proof.
  unfold loadContacts. erewrite SearchFacts.order_returns by reflexivity.
  erewrite filter_ext; [reflexivity|].
  intros c. cbn. apply andb_true_r.
Qed.



(** X28: After a confirmed delete the page drops the row from the list it
    shows instead of reloading.  The row is deleted from the table (a
    contact of the caller under that identifier is gone, every other
    row stays, and so do the rows of other accounts); the list then
    shown is the list shown before without the entries of that
    identifier; and when the list shown was the loaded list, the list
    then shown is the list a reload would fetch. *)
Theorem page_delete_matches_reload (uid contactId : uuid) (d : database)
  (shown : list contact) :
  let (shown', d') := handleDeleteContact uid contactId shown d in
  shown' = filter (fun c => negb (id c =? contactId)%N) shown
  /\ (forall c, In c shown' <-> In c shown /\ id c <> contactId)
  /\ (forall c, In c (contacts d')
                <-> In c (contacts d)
                    /\ ~ (id c = contactId /\ owner_id c = uid))
  /\ (fst (loadContacts uid d) = Ok shown ->
      fst (loadContacts uid d') = Ok shown').
Proof.
  unfold handleDeleteContact, bind, delete_.
  cbn [where_clause eq_id_ from_contacts or_ilike contains_tags eq_id
       eq_owner_id ret text_filter id_filter tags_filter].
  split; [reflexivity|]. split; [|split].
  - intros c. rewrite filter_In, negb_true_iff, N.eqb_neq. reflexivity.
  - intros c. cbn [contacts with_contacts with_contact_groups].
    rewrite filter_In, negb_true_iff. unfold own, opt_eq.
    rewrite !andb_true_r, andb_false_iff, !N.eqb_neq. split.
    + intros [Hc H]. split; [exact Hc|]. intros [E1 E2]. tauto.
    + intros [Hc H]. split; [exact Hc|].
      destruct (N.eq_dec (id c) contactId); [left | right]; tauto.
  - intros Hload. rewrite load_returns in Hload. cbn in Hload.
    injection Hload as <-.
    rewrite load_returns. cbn [fst contacts with_contacts with_contact_groups].
    rewrite filter_order, !SearchFacts.filter_filter. do 2 f_equal.
    apply filter_ext. intros c. unfold own, opt_eq.
    destruct (owner_id c =? uid)%N, (id c =? contactId)%N; reflexivity.
Qed.

Lemma page_delete_matches_reload_witness :
  fst (loadContacts 1 Sample.address_book)
  = Ok [Sample.al; Sample.john; Sample.mary]
  /\ (let (shown', d') :=
        handleDeleteContact 1 8 [Sample.al; Sample.john; Sample.mary]
          Sample.address_book in
      shown' = [Sample.al; Sample.mary]
      /\ contacts d' = [Sample.mary; Sample.al; Sample.zed]
      /\ (forall c, In c shown'
                    <-> In c [Sample.al; Sample.john; Sample.mary]
                        /\ id c <> 8%N)
      /\ fst (loadContacts 1 d') = Ok shown').
Proof.
  split; [reflexivity|].
  pose proof (@page_delete_matches_reload 1%N 8%N Sample.address_book
                [Sample.al; Sample.john; Sample.mary]) as H.
  destruct (handleDeleteContact 1 8 [Sample.al; Sample.john; Sample.mary]
              Sample.address_book) as [shown' d'] eqn:E.
  destruct H as [H1 [H2 [_ H4]]].
  vm_compute in E. injection E as <- <-.
  split; [reflexivity|]. split; [reflexivity|].
  split; [exact H2 | exact (H4 eq_refl)].
Defined.

End PageFacts.

(** ** What Create and Update store *)

Module StoreFacts.

Import Pg Supabase Http.

Lemma call_trim_normal (v : Js.value) (s : string) :
  Js.call_trim v = Js.Normal s -> exists t, v = Js.Str t /\ s = Text.trim t.
Proof.
  destruct v; cbn; intros H; try discriminate.
  injection H as <-. eauto.
Qed.

Lemma trim_or_null_normal (v : Js.value) (x : option string) :
  Js.trim_or_null v = Js.Normal x -> x = Contract.stored_text v.
Proof.
  destruct v; cbn; intros H; try discriminate; now injection H as <-.
Qed.

Lemma stored_text_normal (v : Js.value) :
  Invariant.normal_text (Contract.stored_text v).
Proof.
  intros t H. destruct v; cbn in H; try discriminate.
  destruct (Text.trim s =? "")%string eqn:E; [discriminate|].
  injection H as <-. split; [now apply String.eqb_neq|].
  apply TrimFacts.trim_idempotent.
Qed.

(** Peel the [trim] calls of an object literal that evaluated. *)
Ltac peel_trims H :=
  repeat match type of H with
         | Js.and_then (Js.call_trim ?v) _ = Js.Normal _ =>
             let E := fresh "E" in
             destruct (Js.call_trim v) eqn:E; [|discriminate H];
             apply call_trim_normal in E as [? [? ->]]; cbn [Js.and_then] in H
         | Js.and_then (Js.trim_or_null ?v) _ = Js.Normal _ =>
             let E := fresh "E" in
             destruct (Js.trim_or_null v) eqn:E; [|discriminate H];
             apply trim_or_null_normal in E; subst; cbn [Js.and_then] in H
         end.

Lemma insert_object_normal (ctx : context) (b : Js.object) (p : insert_payload) :
  ContactsRoute.insert_object ctx b = Js.Normal p ->
  exists phone name,
    Js.field b "phoneNumber" = Js.Str phone
    /\ Js.field b "customName" = Js.Str name
    /\ p = mkInsert (Text.trim phone) (Text.trim name)
             (Contract.stored_text (Js.field b "whatsappName"))
             (Contract.stored_text (Js.field b "email"))
             (Contract.stored_text (Js.field b "company"))
             (Contract.stored_text (Js.field b "position"))
             (Contract.stored_text (Js.field b "address"))
             (Contract.stored_text (Js.field b "notes"))
             (Contract.supplied_tags (Js.field b "tags"))
             (Some (js_now ctx)).
Proof.
  unfold ContactsRoute.insert_object. intros H. peel_trims H.
  injection H as <-. rewrite ContactFacts.supplied_tags_kept. eauto.
Qed.

Lemma update_object_normal (b : Js.object) (p : update_payload) :
  ContactIdRoute.update_object b = Js.Normal p ->
  exists name,
    Js.field b "customName" = Js.Str name
    /\ p = mkUpdate (Text.trim name)
             (Contract.stored_text (Js.field b "whatsappName"))
             (Contract.stored_text (Js.field b "email"))
             (Contract.stored_text (Js.field b "company"))
             (Contract.stored_text (Js.field b "position"))
             (Contract.stored_text (Js.field b "address"))
             (Contract.stored_text (Js.field b "notes"))
             (Contract.supplied_tags (Js.field b "tags")).
Proof.
  unfold ContactIdRoute.update_object. intros H. peel_trims H.
  injection H as <-. rewrite ContactFacts.supplied_tags_kept. eauto.
Qed.

Lemma optional_columns_normal (vs : list Js.value) :
  Forall Invariant.normal_text (map Contract.stored_text vs).
Proof.
  induction vs; cbn; constructor; [apply stored_text_normal | assumption].
Qed.

(** X29: The row a successful Create stores: it is the caller's; phone
    number and custom name are the trimmed texts of the body, every
    optional text is trimmed and is NULL when blank or absent, tags are
    the list the body supplies and NULL when it supplies no list,
    last-active is the server's clock and both timestamps are the
    database's. *)
Theorem create_stores_normalized (ctx : context) (uid : uuid) (b : Js.object)
  (d d' : database) (row : contact) (msg : option string) :
  Contract.signed_in ctx uid ->
  ContactsRoute.POST ctx b d = (mkResponse 200 (OneContact row msg), d') ->
  (exists phone name,
      Js.field b "phoneNumber" = Js.Str phone
      /\ Js.field b "customName" = Js.Str name
      /\ phone_number row = Text.trim phone
      /\ custom_name row = Text.trim name
      /\ row = Contract.created ctx uid b phone name (id row))
  /\ Invariant.optional_columns row
     = map (fun k => Contract.stored_text (Js.field b k))
         ["whatsappName"; "email"; "company"; "position"; "address"; "notes"]%string
  /\ Forall Invariant.normal_text (Invariant.optional_columns row)
  /\ tags row = Contract.supplied_tags (Js.field b "tags")
  /\ last_active row = Some (js_now ctx)
  /\ created_at row = pg_now ctx
  /\ updated_at row = pg_now ctx
  /\ owner_id row = uid.
Proof.
  intros Hin H.
  destruct (@ApiFacts.create_succeeded _ _ _ _ _ _ _ Hin H)
    as [p [Hp [_ [-> _]]]].
  apply insert_object_normal in Hp as [phone [name [E1 [E2 ->]]]].
  split; [exists phone, name; now repeat split|].
  split; [reflexivity|]. split; [|now repeat split].
  apply (optional_columns_normal
           [Js.field b "whatsappName"; Js.field b "email"; Js.field b "company";
            Js.field b "position"; Js.field b "address"; Js.field b "notes"]).
Qed.

Lemma create_stores_normalized_witness :
  exists row d',
    ContactsRoute.POST Sample.caller SampleRequests.new_alice Sample.address_book
    = (mkResponse 200 (OneContact row (Some "Contact created successfully"%string)), d')
    /\ phone_number row = "15557654321"%string
    /\ email row = None
    /\ tags row = Some ["vip"%string]
    /\ Forall Invariant.normal_text (Invariant.optional_columns row)
    /\ tags row = Contract.supplied_tags (Js.Arr ["vip"%string]).
Proof.
  eexists. eexists. split; [reflexivity|]. split; [reflexivity|].
  split; [reflexivity|]. split; [reflexivity|].
  pose proof (@create_stores_normalized Sample.caller 1%N
                SampleRequests.new_alice Sample.address_book _ _ _
                (conj eq_refl eq_refl) eq_refl) as [_ [_ [Hn [Ht _]]]].
  split; [exact Hn | exact Ht].
Defined.

(** X30: Update replaces all eight columns: after a successful Update the
    custom name is the trimmed text of the body, every optional text
    column holds the trimmed text the body gives for it, and tags hold
    the list the body supplies; a column the body omits, tags
    included, is cleared to NULL. *)
Theorem update_replaces_all_columns (ctx : context) (uid : uuid)
  (contactId : uuid_text) (b : Js.object) (d d' : database) (c' : contact)
  (msg : option string) :
  Contract.signed_in ctx uid ->
  ContactIdRoute.PUT ctx contactId b d
  = (mkResponse 200 (OneContact c' msg), d') ->
  (exists name,
      Js.field b "customName" = Js.Str name /\ custom_name c' = Text.trim name)
  /\ Invariant.optional_columns c'
     = map (fun k => Contract.stored_text (Js.field b k))
         ["whatsappName"; "email"; "company"; "position"; "address"; "notes"]%string
  /\ tags c' = Contract.supplied_tags (Js.field b "tags").
Proof.
  intros Hin H. destruct contactId as [cid|].
  2:{ exfalso. apply (@ApiFacts.put_not_uuid ctx b d). now rewrite H. }
  apply AuthFacts.authenticated_some in Hin.
  unfold ContactIdRoute.PUT in H. rewrite Hin in H.
  destruct (negb _); [discriminate|].
  destruct (ContactIdRoute.update_object b) as [p|] eqn:Ep; [|discriminate].
  unfold bind in H. rewrite ContactFacts.update_single_by_id in H.
  destruct (filter (Contract.targets uid cid) (contacts d))
    as [|c [|c2 rest]]; cbn in H; try discriminate.
  injection H as <- _ _.
  apply update_object_normal in Ep as [name [E ->]].
  split; [exists name; now split|]. split; reflexivity.
Qed.

Lemma update_replaces_all_columns_witness :
  email Sample.mary = Some "john@x.com"%string
  /\ tags Sample.mary = Some ["vip2"%string]
  /\ (exists c' d',
        ContactIdRoute.PUT Sample.caller (Uuid 9) Sample.rename_to_bob
          Sample.address_book
        = (mkResponse 200
             (OneContact c' (Some "Contact updated successfully"%string)), d')
        /\ email c' = None
        /\ tags c' = None
        /\ tags c' = Contract.supplied_tags Js.Undefined)
  /\ (exists c' d',
        ContactIdRoute.PUT Sample.caller (Uuid 9) SampleRequests.retag_bob
          Sample.address_book
        = (mkResponse 200
             (OneContact c' (Some "Contact updated successfully"%string)), d')
        /\ custom_name c' = "Bob"%string
        /\ tags c' = Some ["gold"; "vip"]%string
        /\ tags c' = Contract.supplied_tags (Js.Arr ["gold"; "vip"]%string)).
Proof.
  split; [reflexivity|]. split; [reflexivity|]. split.
  - eexists. eexists. split; [reflexivity|]. split; [reflexivity|].
    split; [reflexivity|].
    exact (proj2 (proj2 (@update_replaces_all_columns Sample.caller 1%N (Uuid 9)
                           Sample.rename_to_bob Sample.address_book _ _ _
                           (conj eq_refl eq_refl) eq_refl))).
  - eexists. eexists. split; [reflexivity|]. split; [reflexivity|].
    split; [reflexivity|].
    exact (proj2 (proj2 (@update_replaces_all_columns Sample.caller 1%N (Uuid 9)
                           SampleRequests.retag_bob Sample.address_book _ _ _
                           (conj eq_refl eq_refl) eq_refl))).
Defined.

End StoreFacts.

(** ** The save, run against the junction table *)

Module DialogStoreFacts.

Import Pg Supabase GroupManagementDialog DialogStore.

Lemma no_repeated_pair_fresh (g : uuid) (stored : list (uuid * uuid))
  (ids : list uuid) :
  NoDup ids ->
  (forall c, In c ids -> ~ In (c, g) stored) ->
  no_repeated_pair stored (map (fun c => (c, g)) ids) = true.
Proof.
  revert stored. induction ids as [|a ids IH]; intros stored Hnd Hfree;
    [reflexivity|].
  inversion_clear Hnd as [|? ? Ha Hids]. cbn.
  apply andb_true_iff. split.
  - apply negb_true_iff. apply not_true_is_false. intros H.
    apply existsb_exists in H as [[c0 g0] [Hin E]].
    unfold same_pair in E. cbn in E. apply andb_true_iff in E as [E1 E2].
    apply N.eqb_eq in E1, E2. subst. exact (Hfree c0 (or_introl eq_refl) Hin).
  - apply IH; [exact Hids|]. intros c Hc [E | Hin].
    + injection E as ->. contradiction.
    + exact (Hfree c (or_intror Hc) Hin).
Qed.

Lemma new_rows_pairs (next : uuid) (now : timestamptz) (ms : list (uuid * uuid)) :
  map (fun m => (m_contact_id m, m_group_id m)) (new_rows next now ms) = ms.
Proof.
  revert next. induction ms as [|[c g] ms IH]; intros next; cbn;
    [reflexivity | now rewrite IH].
Qed.

Lemma perform_all_app (uid : uuid) (now : timestamptz) (rs1 rs2 : list request)
  (d : database) :
  perform_all uid now (rs1 ++ rs2) d
  = perform_all uid now rs2 (snd (perform_all uid now rs1 d)).
Proof.
  revert d. induction rs1 as [|r rs1 IH]; intros d; [reflexivity|].
  cbn [app perform_all]. unfold bind.
  destruct (perform uid now r d) as [[] d1]. apply IH.
Qed.

(** The delete of a save, run or skipped, leaves the rows it keeps. *)
Lemma delete_step (uid : uuid) (now : timestamptz) (g : uuid) (R : list uuid)
  (d : database) :
  let d' := snd (perform_all uid now
                   (if 0 <? List.length R then [DeleteMembers g R] else []) d) in
  contacts d' = contacts d
  /\ chat_groups d' = chat_groups d
  /\ contact_groups d'
     = filter (fun m => negb ((m_group_id m =? g)%N
                             && includes R (m_contact_id m)
                             && own_membership uid d m))
         (contact_groups d).
Proof.
  destruct R as [|r R']; cbn; repeat split.
  symmetry. apply forallb_filter_id, forallb_forall. intros m _.
  now rewrite andb_false_r.
Qed.

(** The insert of a save, when every new pair is the caller's to add
    and is not stored yet, appends the pairs. *)
Lemma insert_step (uid : uuid) (now : timestamptz) (g : uuid) (A : list uuid)
  (d : database) :
  owns_group uid d g = true ->
  (forall c, In c A -> owns_contact uid d c = true) ->
  NoDup A ->
  (forall c m, In c A -> In m (contact_groups d) ->
               m_group_id m = g -> m_contact_id m <> c) ->
  let d' := snd (perform_all uid now
                   (if 0 <? List.length A
                    then [InsertMembers (map (fun c => (c, g)) A)] else []) d) in
  contacts d' = contacts d
  /\ exists added,
       contact_groups d' = contact_groups d ++ added
       /\ map (fun m => (m_contact_id m, m_group_id m)) added
          = map (fun c => (c, g)) A.
Proof.
  intros Hg HA Hnd Hfree.
  destruct A as [|a A'] eqn:EA.
  - cbn. split; [reflexivity|]. exists []. now rewrite app_nil_r.
  - cbn [List.length Nat.ltb Nat.leb perform_all perform]. unfold bind.
    unfold insert_memberships.
    assert (Hpol : forallb (fun m => owns_contact uid d (fst m)
                                     && owns_group uid d (snd m))
                     (map (fun c => (c, g)) (a :: A')) = true).
    { apply forallb_forall. intros m Hm. apply in_map_iff in Hm as [c [<- Hc]].
      cbn [fst snd]. now rewrite (HA c Hc), Hg. }
    rewrite Hpol. cbn [negb].
    assert (Huniq : no_repeated_pair
                      (map (fun m => (m_contact_id m, m_group_id m))
                         (contact_groups d))
                      (map (fun c => (c, g)) (a :: A')) = true).
    { apply no_repeated_pair_fresh; [exact Hnd|].
      intros c Hc Hin. apply in_map_iff in Hin as [m [E Hm]].
      injection E as E1 E2. exact (Hfree c m Hc Hm E2 E1). }
    rewrite Huniq.
    cbn [negb ret snd contacts contact_groups with_contact_groups record].
    split; [reflexivity|].
    eexists. split; [reflexivity|]. apply new_rows_pairs.
Qed.

Lemma own_membership_contacts (uid : uuid) (d1 d2 : database)
  (m : contact_group) :
  contacts d1 = contacts d2 ->
  own_membership uid d1 m = own_membership uid d2 m.
Proof. unfold own_membership. now intros ->. Qed.

Lemma member_ids_In (uid g : uuid) (d : database) (x : uuid) :
  In x (map m_contact_id
          (filter (fun m => (m_group_id m =? g)%N && own_membership uid d m)
             (contact_groups d)))
  <-> exists m, In m (contact_groups d) /\ m_group_id m = g
                /\ m_contact_id m = x /\ own_membership uid d m = true.
Proof.
  rewrite in_map_iff. split.
  - intros [m [E Hm]]. apply filter_In in Hm as [Hm T].
    apply andb_true_iff in T as [T1 T2]. apply N.eqb_eq in T1. now exists m.
  - intros [m [Hm [E1 [E2 Ho]]]]. exists m. split; [exact E2|].
    apply filter_In. split; [exact Hm|]. rewrite Ho, andb_true_r.
    now apply N.eqb_eq.
Qed.

(** X24: After a save the membership is the selection: when the save's
    checks pass, the selection has no repetition and holds contacts of
    the caller, and the group is the caller's, running the membership
    statements the save issues, on the database its membership read
    was answered from, leaves exactly the selected contacts as the
    members the caller sees in the group; no contact row changes. *)
Theorem save_makes_membership_the_selection (uid : uuid) (now : timestamptz)
  (st : state) (grp : Group) (net : replies) (d : database) :
  Text.trim (name st) <> ""%string ->
  selectedUserIds st <> [] ->
  NoDup (selectedUserIds st) ->
  update_ok net = true ->
  currentMembers net = data_of (fst (select_member_ids uid (group_id grp) d)) ->
  owns_group uid d (group_id grp) = true ->
  (forall s, In s (selectedUserIds st) -> owns_contact uid d s = true) ->
  let d' := snd (perform_all uid now (issued (handleSave st (Some grp) net)) d) in
  exists ids,
    fst (select_member_ids uid (group_id grp) d') = Ok ids
    /\ (forall x, In x ids <-> In x (selectedUserIds st))
    /\ contacts d' = contacts d.
Proof.
  intros Hname Hsel Hnd Hok Hcur Hg Hown d'.
  set (g := group_id grp) in *. set (S := selectedUserIds st) in *.
  set (P := map m_contact_id
              (filter (fun m => (m_group_id m =? g)%N && own_membership uid d m)
                 (contact_groups d))).
  assert (HP : currentMembers net = Some P) by exact Hcur.
  assert (Hissued :
            issued (handleSave st (Some grp) net)
            = [PutGroup g (name st) (description st); SelectMembers g]
              ++ (if 0 <? List.length (toRemove S P)
                  then [DeleteMembers g (toRemove S P)] else [])
              ++ (if 0 <? List.length (toAdd S P)
                  then [InsertMembers (map (fun c => (c, g)) (toAdd S P))]
                  else [])).
  { unfold handleSave. apply String.eqb_neq in Hname. rewrite Hname.
    fold S. destruct S as [|s0 S']; [congruence|].
    cbn [List.length Nat.eqb]. now rewrite Hok, HP. }
  unfold d'. rewrite Hissued, !perform_all_app.
  set (dA := snd (perform_all uid now
                    [PutGroup g (name st) (description st); SelectMembers g] d)).
  assert (HA : contacts dA = contacts d /\ chat_groups dA = chat_groups d
               /\ contact_groups dA = contact_groups d) by now repeat split.
  destruct HA as [HAc [HAg HAj]].
  destruct (delete_step uid now g (toRemove S P) dA) as [HBc [HBg HBj]].
  set (dB := snd (perform_all uid now
                    (if 0 <? List.length (toRemove S P)
                     then [DeleteMembers g (toRemove S P)] else []) dA)) in *.
  rewrite HAj in HBj. rewrite HAc in HBc. rewrite HAg in HBg.
  assert (Hmine : forall m, own_membership uid dA m = own_membership uid d m)
    by (intros m; now apply own_membership_contacts).
  rewrite (filter_ext _ (fun m => negb ((m_group_id m =? g)%N
                                         && includes (toRemove S P) (m_contact_id m)
                                         && own_membership uid d m)))
    in HBj by (intros m; now rewrite Hmine).
  assert (HaddS : forall c, In c (toAdd S P) -> In c S /\ ~ In c P)
    by (intros c; apply DialogFacts.toAdd_In).
  destruct (@insert_step uid now g (toAdd S P) dB) as [HCc [added [HCj Hpairs]]].
  { unfold owns_group. now rewrite HBg. }
  { intros c Hc. unfold owns_contact. rewrite HBc. apply Hown.
    now apply HaddS. }
  { now apply NoDup_filter. }
  { intros c m Hc Hm Em Ec. rewrite HBj in Hm. apply filter_In in Hm as [Hm _].
    destruct (HaddS c Hc) as [HcS HcP]. apply HcP.
    apply member_ids_In. exists m. repeat split; try assumption.
    unfold own_membership. rewrite Ec. exact (Hown c HcS). }
  set (dC := snd (perform_all uid now
                    (if 0 <? List.length (toAdd S P)
                     then [InsertMembers (map (fun c => (c, g)) (toAdd S P))]
                     else []) dB)) in *.
  rewrite HBc in HCc. eexists. split; [reflexivity|]. split; [|exact HCc].
  intros x. rewrite member_ids_In. split.
  - intros [m [Hm [Em [Ex Ho]]]]. rewrite HCj, HBj in Hm.
    apply in_app_iff in Hm as [Hm | Hm].
    + apply filter_In in Hm as [Hm K].
      rewrite (own_membership_contacts uid dC d m HCc) in Ho.
      assert (Eg : (m_group_id m =? g)%N = true) by now apply N.eqb_eq.
      rewrite Eg, Ho, andb_true_r in K. cbn in K.
      apply negb_true_iff in K.
      assert (HxP : In x P) by (apply member_ids_In; now exists m).
      destruct (in_dec N.eq_dec x S) as [HxS | HxS]; [exact HxS|].
      exfalso. rewrite Ex in K.
      assert (Hr : In x (toRemove S P)) by (apply DialogFacts.toRemove_In; tauto).
      apply DialogFacts.includes_In in Hr. congruence.
    + assert (Hp : In (m_contact_id m, m_group_id m)
                     (map (fun c => (c, g)) (toAdd S P)))
        by (rewrite <- Hpairs; now apply (in_map (fun m => (m_contact_id m, m_group_id m)))).
      apply in_map_iff in Hp as [c [E Hc]]. injection E as E1 _.
      apply HaddS in Hc. destruct Hc as [Hc _]. congruence.
  - intros HxS. destruct (in_dec N.eq_dec x P) as [HxP | HxP].
    + apply member_ids_In in HxP as [m [Hm [Em [Ex Ho]]]].
      exists m. rewrite HCj, HBj. split; [|repeat split; try assumption].
      * apply in_app_iff. left. apply filter_In. split; [exact Hm|].
        apply negb_true_iff. rewrite Ex.
        replace (includes (toRemove S P) x) with false;
          [now rewrite andb_false_r|].
        symmetry. apply not_true_is_false. intros Hr.
        apply DialogFacts.includes_In, DialogFacts.toRemove_In in Hr. tauto.
      * now rewrite (own_membership_contacts uid dC d m HCc).
    + assert (Hp : In (x, g) (map (fun m => (m_contact_id m, m_group_id m)) added)).
      { rewrite Hpairs. apply (in_map (fun c => (c, g))).
        apply DialogFacts.toAdd_In. tauto. }
      apply in_map_iff in Hp as [m [E Hm]]. injection E as E1 E2.
      exists m. rewrite HCj. repeat split; try assumption.
      * apply in_app_iff. now right.
      * unfold own_membership. rewrite HCc, E1. exact (Hown x HxS).
Qed.

(** The specification's scenario on a database: members {7, 8},
    selection {8, 9}; afterwards the caller sees members 8 and 9. *)
Lemma save_makes_membership_the_selection_witness :
  let st := mkState "Friends" "" [8; 9]%N in
  let grp := mkGroup 30 "Friends" None 2 in
  let net := mkReplies true (Some [7; 8]%N) true in
  let d' := snd (perform_all 1 300 (issued (handleSave st (Some grp) net))
                   Sample.address_book) in
  map (fun m => (m_contact_id m, m_group_id m)) (contact_groups d')
  = [(8, 30); (9, 30)]%N
  /\ exists ids,
       fst (select_member_ids 1 30 d') = Ok ids
       /\ (forall x, In x ids <-> In x [8; 9]%N)
       /\ contacts d' = contacts Sample.address_book.
Proof.
  intros st grp net d'. split; [reflexivity|].
  apply (@save_makes_membership_the_selection 1%N 300%N st grp net
           Sample.address_book).
  - discriminate.
  - discriminate.
  - repeat constructor; cbn; intuition discriminate.
  - reflexivity.
  - reflexivity.
  - reflexivity.
  - intros s [<- | [<- | []]]; reflexivity.
Defined.

End DialogStoreFacts.
